(** * vault: the SQLite-backed record store of wickit

    A shallow embedding of [src/vault.py] ([WickitSQLite] and
    [VaultDatabase]) together with the properties its specification
    states about it.

    Python values are an inductive type, dictionaries are finite maps
    keyed by strings, exceptions are values of an error type and every
    method that touches the database is a function from the store to an
    outcome and the store that follows.  What the program reads from its
    environment is made an explicit input: the identifier drawn by
    [uuid.uuid4()], the text returned by [datetime.now().isoformat()],
    the engine's [CURRENT_TIMESTAMP] and the failures the engine may meet. *)

From Stdlib Require Import ZArith Floats String Ascii List Permutation Sorted DecimalString.
From stdpp Require Import gmap strings list fin_maps.

Set Warnings "-register-all,-inexact-float".
Local Open Scope string_scope.
Local Open Scope Z_scope.

(** ** Python values and exceptions *)

Module Py.

(** The values that travel between the caller, [json] and [sqlite3].  A
    [str] is a sequence of code points below 256, one per character. *)
Inductive pyval :=
| PNone
| PBool (b : bool)
| PInt (z : Z)
| PFloat (f : float)
| PStr (s : string)
| PList (l : list pyval).

#[global] Instance pyval_inhabited : Inhabited pyval := populate PNone.

(** Exceptions that the modelled code can raise or let through. *)
Inductive exn :=
| SqliteError (msg : string)     (* sqlite3.Error and its subclasses *)
| DatabaseError (msg : string)   (* vault.DatabaseError *)
| JSONDecodeError                (* json.JSONDecodeError, a ValueError *)
| KeyError (key : string)
| TypeError
| OverflowError.

Inductive result (A : Type) :=
| Ok (a : A)
| Raise (e : exn).
Arguments Ok {A} a.
Arguments Raise {A} e.

Definition rbind {A B} (r : result A) (k : A → result B) : result B :=
  match r with
  | Ok a => k a
  | Raise e => Raise e
  end.

(** [traverse f l]: apply [f] from left to right, stop at the first raise. *)
Fixpoint traverse {A B} (f : A → result B) (l : list A) : result (list B) :=
  match l with
  | [] => Ok []
  | x :: l' => rbind (f x) (λ y, rbind (traverse f l') (λ ys, Ok (y :: ys)))
  end.

(** Truth value of an object, as [not x] and [x or y] test it. *)
Definition truthy (v : pyval) : bool :=
  match v with
  | PNone => false
  | PBool b => b
  | PInt z => negb (Z.eqb z 0)
  | PFloat f => negb (PrimFloat.eqb f 0%float)
  | PStr s => negb (String.eqb s "")
  | PList l => match l with [] => false | _ => true end
  end.

(** [x or y] *)
Definition py_or (x y : pyval) : pyval := if truthy x then x else y.

(** [float(z)]: the nearest double, ties to even; raises when out of range. *)
Definition float_of_int (z : Z) : result float :=
  let f := SF2Prim (SpecFloat.binary_normalize 53 1024 z 0 false) in
  if PrimFloat.is_infinity f then Raise OverflowError else Ok f.

(** [x * y] with [y] a float. *)
Definition mul_float (x : pyval) (y : float) : result pyval :=
  match x with
  | PInt z => rbind (float_of_int z) (λ f, Ok (PFloat (f * y)))
  | PBool b => Ok (PFloat ((if b then 1 else 0) * y))
  | PFloat f => Ok (PFloat (f * y))
  | PNone | PStr _ | PList _ => Raise TypeError
  end.

(** A dictionary with string keys. *)
Abbreviation pydict := (gmap string pyval).

(** [d.get(key, default)] *)
Definition get (d : pydict) (key : string) (dflt : pyval) : pyval :=
  default dflt (d !! key).

(** [d[key]] *)
Definition getitem (d : pydict) (key : string) : result pyval :=
  match d !! key with
  | Some v => Ok v
  | None => Raise (KeyError key)
  end.

End Py.
Export Py.

(** ** The [json] codec on lists of strings

    [json.dumps] and [json.loads] are written out for the values the
    store keeps in its list columns, arrays of strings, following
    CPython's encoder ([ensure_ascii], a comma and a space between the
    items) and decoder.
    Their behaviour on every other value or text is left to the
    parameters [dumps_other] and [loads_other] of [Libs] below. *)

Module Json.

Definition quote : ascii := "034"%char.
Definition backslash : ascii := "\"%char.

Definition hex_digit (n : N) : ascii :=
  ascii_of_N (if (n <? 10)%N then 48 + n else 87 + n).

(** The escape of one character: a backslash before the quote and the
    backslash, the five short escapes, and a u-escape of four hex digits
    for whatever lies outside the printable range from space to tilde. *)
Definition escape_char (c : ascii) : string :=
  let n := N_of_ascii c in
  if (n =? 34)%N then String backslash (String quote "")
  else if (n =? 92)%N then String backslash (String backslash "")
  else if (n =? 8)%N then String backslash "b"
  else if (n =? 12)%N then String backslash "f"
  else if (n =? 10)%N then String backslash "n"
  else if (n =? 13)%N then String backslash "r"
  else if (n =? 9)%N then String backslash "t"
  else if ((n <? 32) || (126 <? n))%N then
    String backslash
      (String "u" (String "0" (String "0"
         (String (hex_digit (n / 16)) (String (hex_digit (n mod 16)) "")))))
  else String c "".

Fixpoint escape (s : string) : string :=
  match s with
  | EmptyString => ""
  | String c s' => escape_char c +:+ escape s'
  end.

Definition dumps_str (s : string) : string :=
  String quote (escape s +:+ String quote "").

(** The elements after the first, each preceded by the item separator. *)
Fixpoint dumps_tail (l : list string) : string :=
  match l with
  | [] => "]"
  | x :: l' => ", " +:+ dumps_str x +:+ dumps_tail l'
  end.

Definition dumps_strs (l : list string) : string :=
  match l with
  | [] => "[]"
  | x :: l' => "[" +:+ dumps_str x +:+ dumps_tail l'
  end.

Definition is_ws (c : ascii) : bool :=
  let n := N_of_ascii c in
  ((n =? 32) || (n =? 9) || (n =? 10) || (n =? 13))%N.

Fixpoint skip_ws (s : string) : string :=
  match s with
  | String c s' => if is_ws c then skip_ws s' else s
  | EmptyString => s
  end.

Definition hex_value (c : ascii) : option N :=
  let n := N_of_ascii c in
  if ((48 <=? n) && (n <=? 57))%N then Some (n - 48)%N
  else if ((97 <=? n) && (n <=? 102))%N then Some (n - 87)%N
  else if ((65 <=? n) && (n <=? 70))%N then Some (n - 55)%N
  else None.

Definition short_escape (c : ascii) : option ascii :=
  let n := N_of_ascii c in
  if (n =? 34)%N then Some quote
  else if (n =? 92)%N then Some backslash
  else if (n =? 47)%N then Some "/"%char
  else if (n =? 98)%N then Some "008"%char
  else if (n =? 102)%N then Some "012"%char
  else if (n =? 110)%N then Some "010"%char
  else if (n =? 114)%N then Some "013"%char
  else if (n =? 116)%N then Some "009"%char
  else None.

Definition cons_char (c : ascii) (r : option (string * string)) :
  option (string * string) :=
  match r with
  | Some (s, rest) => Some (String c s, rest)
  | None => None
  end.

(** The body of a string literal, read after its opening quote: the
    decoded text and what follows the closing quote.  [None] when the
    literal is not one this reader decodes. *)
Fixpoint scan_string (s : string) : option (string * string) :=
  match s with
  | EmptyString => None
  | String c rest =>
    if Ascii.eqb c quote then Some ("", rest)
    else if Ascii.eqb c backslash then
      match rest with
      | EmptyString => None
      | String e rest1 =>
        match short_escape e with
        | Some d => cons_char d (scan_string rest1)
        | None =>
          if Ascii.eqb e "u" then
            match rest1 with
            | String h1 (String h2 (String h3 (String h4 rest2))) =>
              match hex_value h1, hex_value h2, hex_value h3, hex_value h4 with
              | Some 0%N, Some 0%N, Some a, Some b =>
                cons_char (ascii_of_N (16 * a + b)) (scan_string rest2)
              | _, _, _, _ => None
              end
            | _ => None
            end
          else None
        end
      end
    else if (N_of_ascii c <? 32)%N then None
    else cons_char c (scan_string rest)
  end.

(** After an element: either the closing bracket and nothing but blanks,
    or a comma and the next element. *)
Fixpoint scan_tail (fuel : nat) (s : string) : option (list string) :=
  match fuel with
  | O => None
  | S fuel' =>
    match skip_ws s with
    | String c rest =>
      if Ascii.eqb c "]" then
        match skip_ws rest with EmptyString => Some [] | _ => None end
      else if Ascii.eqb c "," then
        match skip_ws rest with
        | String q rest1 =>
          if Ascii.eqb q quote then
            match scan_string rest1 with
            | Some (x, rest2) =>
              match scan_tail fuel' rest2 with
              | Some xs => Some (x :: xs)
              | None => None
              end
            | None => None
            end
          else None
        | EmptyString => None
        end
      else None
    | EmptyString => None
    end
  end.

(** An array of strings, blanks allowed around every token. *)
Definition loads_strs (s : string) : option (list string) :=
  match skip_ws s with
  | String c rest =>
    if Ascii.eqb c "[" then
      match skip_ws rest with
      | String q rest1 =>
        if Ascii.eqb q "]" then
          match skip_ws rest1 with EmptyString => Some [] | _ => None end
        else if Ascii.eqb q quote then
          match scan_string rest1 with
          | Some (x, rest2) =>
            match scan_tail (S (String.length rest2)) rest2 with
            | Some xs => Some (x :: xs)
            | None => None
            end
          | None => None
          end
        else None
      | EmptyString => None
      end
    else None
  | EmptyString => None
  end.

(** The strings of a list whose elements are all [str]. *)
Fixpoint as_strs (l : list pyval) : option (list string) :=
  match l with
  | [] => Some []
  | PStr s :: l' => option_map (cons s) (as_strs l')
  | _ :: _ => None
  end.

End Json.

(** ** SQLite values, schema and statements *)

Module Sql.

(** Storage classes (no BLOB: the program never binds [bytes]). *)
Inductive sqlval :=
| SNull
| SInt (z : Z)
| SReal (f : float)
| SText (s : string).

Abbreviation row := (gmap string sqlval).
Abbreviation database := (gmap string (list row)).

Inductive affinity := AffText | AffNumeric | AffInteger | AffReal.

Inductive default_value :=
| NoDefault
| Literal (v : sqlval)
| CurrentTimestamp.

Record column := Column {
  col_name : string;
  col_affinity : affinity;
  col_notnull : bool;
  col_default : default_value
}.

(** [sqlite3]'s adaptation of a Python parameter.  An [int] outside 64
    bits raises [OverflowError]; a [list] is not a supported type and
    raises a subclass of [sqlite3.Error]; NaN is bound as NULL. *)
Definition bind (v : pyval) : result sqlval :=
  match v with
  | PNone => Ok SNull
  | PBool b => Ok (SInt (if b then 1 else 0))
  | PInt z =>
    if (- 2 ^ 63 <=? z) && (z <? 2 ^ 63) then Ok (SInt z) else Raise OverflowError
  | PFloat f => Ok (if PrimFloat.is_nan f then SNull else SReal f)
  | PStr s => Ok (SText s)
  | PList _ => Raise (SqliteError "Error binding parameter: type 'list' is not supported")
  end.

(** The Python value of a column read through [sqlite3.Row]. *)
Definition to_py (v : sqlval) : pyval :=
  match v with
  | SNull => PNone
  | SInt z => PInt z
  | SReal f => PFloat f
  | SText s => PStr s
  end.

(** [dict(row)] *)
Definition dict (r : row) : pydict := to_py <$> r.

(** The exact value of a number, [m * 2 ^ e], or an infinity.  SQLite
    compares an INTEGER with a REAL, and two REALs, by their values. *)
Inductive num :=
| NegInf
| Fin (m e : Z)
| PosInf.

Definition num_of_real (f : float) : num :=
  match Prim2SF f with
  | S754_zero _ | S754_nan => Fin 0 0
  | S754_infinity neg => if neg then NegInf else PosInf
  | S754_finite neg m e => Fin (if neg then Z.neg m else Z.pos m) e
  end.

Definition num_compare (a b : num) : comparison :=
  match a, b with
  | NegInf, NegInf | PosInf, PosInf => Eq
  | NegInf, _ | _, PosInf => Lt
  | _, NegInf | PosInf, _ => Gt
  | Fin m1 e1, Fin m2 e2 =>
    let e := Z.min e1 e2 in
    m1 * 2 ^ (e1 - e) ?= m2 * 2 ^ (e2 - e)
  end.

Definition class_rank (v : sqlval) : Z :=
  match v with
  | SNull => 0
  | SInt _ | SReal _ => 1
  | SText _ => 2
  end.

(** The order of [ORDER BY] and of comparisons: NULL, then numbers by
    value, then text by the BINARY collation. *)
Definition sql_compare (a b : sqlval) : comparison :=
  match a, b with
  | SInt x, SInt y => x ?= y
  | SInt x, SReal g => num_compare (Fin x 0) (num_of_real g)
  | SReal f, SInt y => num_compare (num_of_real f) (Fin y 0)
  | SReal f, SReal g => num_compare (num_of_real f) (num_of_real g)
  | SText s, SText t => String.compare s t
  | _, _ => class_rank a ?= class_rank b
  end.

(** [a = b] as a WHERE clause reads it: never true of NULL. *)
Definition sql_eqb (a b : sqlval) : bool :=
  match a, b with
  | SNull, _ | _, SNull => false
  | _, _ => match sql_compare a b with Eq => true | _ => false end
  end.

(** The schema applied by [VaultDatabase._init_schema].  Every table
    declares [id TEXT PRIMARY KEY]; BOOLEAN has NUMERIC affinity. *)
Definition text (n : string) : column := Column n AffText false NoDefault.
Definition text_notnull (n : string) : column := Column n AffText true NoDefault.
Definition text_default (n : string) (d : default_value) : column :=
  Column n AffText false d.

Definition jobs_columns : list column :=
  [ text "id"; text_notnull "title"; text_notnull "company"; text "url";
    text "description"; text "location"; text "salary"; text "requirements";
    text_default "stage" (Literal (SText "saved"));
    text_default "notes" (Literal (SText ""));
    text "tags"; text "applied_date";
    text_notnull "created_at"; text_notnull "updated_at" ].

Definition companies_columns : list column :=
  [ text "id"; text_notnull "name"; text "domain"; text "industry";
    text "size"; text "funding_stage";
    Column "rating" AffReal false NoDefault;
    text "location"; text "website"; text "notes"; text "last_updated";
    text_default "created_at" CurrentTimestamp ].

Definition contacts_columns : list column :=
  [ text "id"; text_notnull "name"; text_notnull "company"; text "position";
    text "linkedin_url"; text "relationship"; text "connection_type";
    text "warm_intro_potential"; text "last_contact"; text "notes";
    text_default "created_at" CurrentTimestamp;
    text_default "updated_at" CurrentTimestamp ].

Definition offers_columns : list column :=
  [ text "id"; text "job_id"; text_notnull "company";
    Column "base_salary" AffInteger false NoDefault;
    text "bonus"; text "equity"; text "benefits"; text "start_date";
    text "negotiation_notes";
    text_default "status" (Literal (SText "pending"));
    text_default "created_at" CurrentTimestamp;
    text_default "updated_at" CurrentTimestamp ].

Definition job_alerts_columns : list column :=
  [ text "id"; text_notnull "name"; text_notnull "keywords"; text "location";
    text_default "frequency" (Literal (SText "daily"));
    Column "is_active" AffNumeric false (Literal (SInt 1));
    text "last_run";
    text_default "created_at" CurrentTimestamp;
    text_default "updated_at" CurrentTimestamp ].

Definition interview_sessions_columns : list column :=
  [ text "id"; text_notnull "company"; text_notnull "role";
    text_default "category" (Literal (SText "behavioral"));
    text "questions"; text "answers"; text "feedback";
    Column "score" AffInteger false NoDefault;
    text_default "created_at" CurrentTimestamp;
    text_default "updated_at" CurrentTimestamp ].

Definition schema : list (string * list column) :=
  [ ("jobs", jobs_columns); ("companies", companies_columns);
    ("contacts", contacts_columns); ("offers", offers_columns);
    ("job_alerts", job_alerts_columns);
    ("interview_sessions", interview_sessions_columns) ].

Fixpoint assoc {A} (k : string) (l : list (string * A)) : option A :=
  match l with
  | [] => None
  | (k', a) :: l' => if String.eqb k' k then Some a else assoc k l'
  end.

Definition table_columns (t : string) : option (list column) := assoc t schema.

Definition find_column (cols : list column) (c : string) : option column :=
  List.find (λ col, String.eqb (col_name col) c) cols.

(** The statements the program issues, by shape. *)
Inductive expr :=
| Param                    (* ? *)
| NotCol (c : string).     (* NOT c *)

Inductive direction := Asc | Desc.

Inductive stmt :=
| Insert (t : string) (cols : list string)
    (* INSERT INTO t (cols) VALUES (?, ..., ?) *)
| SelectOrdered (t : string) (key : string) (dir : direction)
    (* SELECT * FROM t ORDER BY key dir *)
| SelectById (t : string)
    (* SELECT * FROM t WHERE id = ? *)
| UpdateById (t : string) (sets : list (string * expr))
    (* UPDATE t SET c = e, ... WHERE id = ? *)
| DeleteById (t : string).
    (* DELETE FROM t WHERE id = ? *)

Record cursor := Cursor { fetchall : list row; rowcount : Z }.

End Sql.
Export Sql.

(** ** What is taken from the libraries as given

    The parts of [sqlite3] and [json] that the program relies on but
    whose definition is outside this development. *)

Class Libs := {
  (** SQLite's conversion of a value stored in a column whose affinity
      prefers another storage class (a number into TEXT, a numeric
      literal into INTEGER, an integer into REAL, ...). *)
  convert : affinity → sqlval → sqlval;
  (** Whether SQLite reads a text as a number other than zero. *)
  text_is_true : string → bool;
  (** [json.dumps] on values that are not lists of strings. *)
  dumps_other : pyval → string;
  (** [json.loads] on texts that [Json.loads_strs] does not decode:
      the decoded value, or [None] for a [JSONDecodeError]. *)
  loads_other : string → option pyval
}.

(** ** The engine *)

Section Engine.
Context `{Libs}.

(** [json.dumps(v)] *)
Definition json_dumps (v : pyval) : string :=
  match v with
  | PList l =>
    match Json.as_strs l with
    | Some strs => Json.dumps_strs strs
    | None => dumps_other v
    end
  | _ => dumps_other v
  end.

(** [json.loads(v)]: [v] must be a [str]. *)
Definition json_loads (v : pyval) : result pyval :=
  match v with
  | PStr s =>
    match Json.loads_strs s with
    | Some strs => Ok (PList (PStr <$> strs))
    | None =>
      match loads_other s with
      | Some x => Ok x
      | None => Raise JSONDecodeError
      end
    end
  | _ => Raise TypeError
  end.

(** Column affinity: a value already in the preferred class, and NULL,
    are stored as they are. *)
Definition apply_affinity (a : affinity) (v : sqlval) : sqlval :=
  match a, v with
  | _, SNull => SNull
  | AffText, SText _ => v
  | AffNumeric, SInt _ | AffInteger, SInt _ => v
  | AffReal, SReal _ => v
  | _, _ => convert a v
  end.

(** [NOT v] *)
Definition sql_not (v : sqlval) : sqlval :=
  match v with
  | SNull => SNull
  | SInt z => SInt (if z =? 0 then 1 else 0)
  | SReal f => SInt (if PrimFloat.eqb f 0%float then 1 else 0)
  | SText s => SInt (if text_is_true s then 0 else 1)
  end.

Definition open_table (t : string) (db : database) :
  result (list column * list row) :=
  match table_columns t, db !! t with
  | Some cols, Some rows => Ok (cols, rows)
  | _, _ => Raise (SqliteError ("no such table: " +:+ t))
  end.

Definition check_arity (needed : nat) (params : list pyval) : result unit :=
  if Nat.eqb (length params) needed then Ok tt
  else Raise (SqliteError "Incorrect number of bindings supplied")%string.

Definition is_null_at (r : row) (c : string) : bool :=
  match r !! c with
  | Some SNull | None => true
  | Some _ => false
  end.

Definition check_not_null (t : string) (cols : list column) (r : row) :
  result unit :=
  match List.find (λ c, col_notnull c && is_null_at r (col_name c)) cols with
  | Some c => Raise (SqliteError ("NOT NULL constraint failed: " +:+ t +:+ "." +:+ col_name c))
  | None => Ok tt
  end.

Definition key_of (c : string) (r : row) : sqlval := default SNull (r !! c).

(** [WHERE id = ?], the parameter taking the column's TEXT affinity. *)
Definition matches (key : sqlval) (r : row) : bool :=
  sql_eqb (key_of "id" r) (apply_affinity AffText key).

Definition check_unique (t : string) (rows : list row) (r : row) : result unit :=
  if existsb (λ old, sql_eqb (key_of "id" old) (key_of "id" r)) rows
  then Raise (SqliteError ("UNIQUE constraint failed: " +:+ t +:+ ".id"))
  else Ok tt.

Definition default_of (c : column) (ts : string) : sqlval :=
  match col_default c with
  | NoDefault => SNull
  | Literal v => v
  | CurrentTimestamp => SText ts
  end.

(** The row an INSERT builds: listed columns take their parameter under
    the column's affinity, the others their default. *)
Definition new_row (cols : list column) (given : gmap string sqlval)
  (ts : string) : row :=
  list_to_map
    ((λ c, (col_name c,
            match given !! col_name c with
            | Some v => apply_affinity (col_affinity c) v
            | None => default_of c ts
            end)) <$> cols).

Definition named_column (t : string) (cols : list column) (what : string)
  (c : string) : result column :=
  match find_column cols c with
  | Some col => Ok col
  | None => Raise (SqliteError (what +:+ c))
  end.

(** The right-hand sides of a SET list, each parameter taken in order. *)
Fixpoint resolve (sets : list (column * expr)) (vals : list sqlval) :
  list (column * (row → sqlval)) * list sqlval :=
  match sets with
  | [] => ([], vals)
  | (c, Param) :: sets' =>
    let '(l, rest) := resolve sets' (tail vals) in
    ((c, λ _, default SNull (head vals)) :: l, rest)
  | (c, NotCol src) :: sets' =>
    let '(l, rest) := resolve sets' vals in
    ((c, λ r, sql_not (key_of src r)) :: l, rest)
  end.

Fixpoint count_params (sets : list (string * expr)) : nat :=
  match sets with
  | [] => O
  | (_, Param) :: sets' => S (count_params sets')
  | (_, NotCol _) :: sets' => count_params sets'
  end.

(** One row of an UPDATE: every right-hand side reads the row as it was. *)
Definition update_row (t : string) (assigns : list (column * (row → sqlval)))
  (old : row) : result row :=
  let r := foldl (λ r '(c, f), <[col_name c := apply_affinity (col_affinity c) (f old)]> r)
                 old assigns in
  rbind (check_not_null t (assigns.*1) r) (λ _, Ok r).

Definition before (dir : direction) (a b : sqlval) : bool :=
  match dir, sql_compare a b with
  | Asc, Gt => false
  | Desc, Lt => false
  | _, _ => true
  end.

Fixpoint place (key : string) (dir : direction) (r : row) (sorted : list row) :
  list row :=
  match sorted with
  | [] => [r]
  | x :: xs =>
    if before dir (key_of key r) (key_of key x) then r :: sorted
    else x :: place key dir r xs
  end.

(** [ORDER BY key dir]; rows with equal keys stay in insertion order. *)
Definition order_by (key : string) (dir : direction) (rows : list row) : list row :=
  foldr (place key dir) [] rows.

Definition row_count (rows : list row) : Z := Z.of_nat (length rows).

(** One statement run against the database, with the engine's reading of
    CURRENT_TIMESTAMP.  The statement is prepared (names resolved), its
    parameters are bound, and then it runs; a statement that fails
    leaves the database as it was. *)
Definition exec_stmt (q : stmt) (params : list pyval) (ts : string)
  (db : database) : result (cursor * database) :=
  match q with
  | Insert t names =>
    rbind (open_table t db) (λ '(cols, rows),
    rbind (traverse (named_column t cols ("table " +:+ t +:+ " has no column named ")) names) (λ _,
    rbind (check_arity (length names) params) (λ _,
    rbind (traverse bind params) (λ vals,
    let r := new_row cols (list_to_map (zip names vals)) ts in
    rbind (check_not_null t cols r) (λ _,
    rbind (check_unique t rows r) (λ _,
    Ok (Cursor [] 1, <[t := (rows ++ [r])%list]> db)))))))
  | SelectOrdered t key dir =>
    rbind (open_table t db) (λ '(cols, rows),
    rbind (named_column t cols "no such column: " key) (λ _,
    rbind (check_arity 0 params) (λ _,
    Ok (Cursor (order_by key dir rows) (-1), db))))
  | SelectById t =>
    rbind (open_table t db) (λ '(cols, rows),
    rbind (check_arity 1 params) (λ _,
    rbind (traverse bind params) (λ vals,
    let key := default SNull (head vals) in
    Ok (Cursor (List.filter (matches key) rows) (-1), db))))
  | UpdateById t sets =>
    rbind (open_table t db) (λ '(cols, rows),
    rbind (traverse (λ '(c, e),
             rbind (named_column t cols "no such column: " c) (λ col,
             rbind (match e with
                    | Param => Ok tt
                    | NotCol src =>
                      rbind (named_column t cols "no such column: " src) (λ _, Ok tt)
                    end) (λ _, Ok (col, e)))) sets) (λ targets,
    rbind (check_arity (S (count_params sets)) params) (λ _,
    rbind (traverse bind params) (λ vals,
    let '(assigns, rest) := resolve targets vals in
    let key := default SNull (head rest) in
    rbind (traverse (λ r, if matches key r then update_row t assigns r else Ok r) rows)
      (λ rows',
    Ok (Cursor [] (row_count (List.filter (matches key) rows)), <[t := rows']> db))))))
  | DeleteById t =>
    rbind (open_table t db) (λ '(cols, rows),
    rbind (check_arity 1 params) (λ _,
    rbind (traverse bind params) (λ vals,
    let key := default SNull (head vals) in
    Ok (Cursor [] (row_count (List.filter (matches key) rows)),
        <[t := List.filter (λ r, negb (matches key r)) rows]> db))))
  end.

End Engine.

(** ** The store and its environment *)

(** What the engine meets when a connection is used: nothing, a failure
    to open the file, or a failure while running a statement (disk I/O,
    a lock held by another process, a corrupt page). *)
Inductive engine_event :=
| Proceeds
| ConnectFails (msg : string)
| StatementFails (msg : string).

(** The database file, the engine's CURRENT_TIMESTAMP, and the events
    scheduled for the connections to come (none: they all proceed). *)
Record store := Store {
  data : database;
  current_timestamp : string;
  events : list engine_event
}.

(** An open connection: the committed image, the image seen by the
    current transaction, and the failure its statements will meet. *)
Record connection := Connection {
  durable : database;
  pending : database;
  clock : string;
  fault : option string
}.

(** A method of the store: an outcome and the store that follows. *)
Definition M (A : Type) : Type := store → result A * store.

Definition ret {A} (a : A) : M A := λ st, (Ok a, st).
Definition raise {A} (e : exn) : M A := λ st, (Raise e, st).
Definition lift {A} (r : result A) : M A := λ st, (r, st).
Definition and_then {A B} (m : M A) (k : A → M B) : M B :=
  λ st,
  match m st with
  | (Ok a, st') => k a st'
  | (Raise e, st') => (Raise e, st')
  end.

Notation "x <- m ;; k" := (and_then m (λ x, k))
  (at level 100, m at next level, right associativity).

(** ** WickitSQLite *)

Section WickitSQLite.
Context `{Libs}.

(** [sqlite3.connect(str(self.db_path))] *)
Definition connect (st : store) : result connection * store :=
  let conn := Connection (data st) (data st) (current_timestamp st) in
  match events st with
  | [] => (Ok (conn None), st)
  | Proceeds :: es => (Ok (conn None), Store (data st) (current_timestamp st) es)
  | StatementFails m :: es =>
    (Ok (conn (Some m)), Store (data st) (current_timestamp st) es)
  | ConnectFails m :: es =>
    (Raise (SqliteError m), Store (data st) (current_timestamp st) es)
  end.

Definition commit (c : connection) : connection :=
  Connection (pending c) (pending c) (clock c) (fault c).

Definition rollback (c : connection) : connection :=
  Connection (durable c) (durable c) (clock c) (fault c).

(** [conn.close()]: what was not committed is lost. *)
Definition close (c : connection) (st : store) : store :=
  Store (durable c) (current_timestamp st) (events st).

(** [conn.execute(query, params)] *)
Definition execute (q : stmt) (params : list pyval) (c : connection) :
  result cursor * connection :=
  match fault c with
  | Some m => (Raise (SqliteError m), c)
  | None =>
    match exec_stmt q params (clock c) (pending c) with
    | Ok (cur, db') => (Ok cur, Connection (durable c) db' (clock c) (fault c))
    | Raise e => (Raise e, c)
    end
  end.

(** [with self.get_connection() as conn: body].  A [sqlite3.Error] from
    [connect] or from the body is caught: the connection, if there is
    one, is rolled back, and [DatabaseError] is raised in its place.  Any
    other exception passes through.  The connection is closed in every
    case. *)
Definition get_connection {A} (body : connection → result A * connection) : M A :=
  λ st,
  match connect st with
  | (Raise (SqliteError m), st') => (Raise (DatabaseError ("Database error: " +:+ m)), st')
  | (Raise e, st') => (Raise e, st')
  | (Ok conn, st') =>
    match body conn with
    | (Ok a, conn') => (Ok a, close conn' st')
    | (Raise (SqliteError m), conn') =>
      (Raise (DatabaseError ("Database error: " +:+ m)), close (rollback conn') st')
    | (Raise e, conn') => (Raise e, close conn' st')
    end
  end.

Definition execute_query (query : stmt) (params : list pyval) : M (list pydict) :=
  get_connection (λ conn,
    match execute query params conn with
    | (Ok cursor, conn') => (Ok (dict <$> fetchall cursor), conn')
    | (Raise e, conn') => (Raise e, conn')
    end).

Definition execute_command (command : stmt) (params : list pyval) : M Z :=
  get_connection (λ conn,
    match execute command params conn with
    | (Ok cursor, conn') => (Ok (rowcount cursor), commit conn')
    | (Raise e, conn') => (Raise e, conn')
    end).

(** [CREATE TABLE IF NOT EXISTS] for the six tables; the indexes that
    the script also creates hold no data of their own. *)
Definition create_tables (db : database) : database :=
  foldr (λ '(t, _) db, match db !! t with Some _ => db | None => <[t := []]> db end)
        db schema.

(** [conn.executescript(schema)], which commits as it goes.  A failure
    of the connection is met by the first statement of the script; a
    failure at a later statement, which would leave the tables created
    before it, is not modelled. *)
Definition executescript_schema (c : connection) : result unit * connection :=
  match fault c with
  | Some m => (Raise (SqliteError m), c)
  | None =>
    let db := create_tables (pending c) in
    (Ok tt, Connection db db (clock c) (fault c))
  end.

End WickitSQLite.

(** ** VaultDatabase *)

Section VaultDatabase.
Context `{Libs}.

(** [tuple(record[k] for k in keys)] *)
Definition values_of (record : pydict) (keys : list string) : list pyval :=
  (λ k, record !!! k) <$> keys.

(** [rec[k] = json.loads(rec[k] or "[]")], the empty array when the
    column is NULL or empty. *)
Definition parse_json_field (k : string) (rec : pydict) : result pydict :=
  rbind (getitem rec k) (λ v,
  rbind (json_loads (py_or v (PStr "[]"))) (λ x,
  Ok (<[k := x]> rec))).

Definition _init_schema : M unit := get_connection executescript_schema.

(** *** Jobs *)

Definition jobs_insert_columns : list string :=
  [ "id"; "title"; "company"; "url"; "description"; "location"; "salary";
    "requirements"; "stage"; "notes"; "tags"; "applied_date"; "created_at";
    "updated_at" ].

Definition get_job (job_id : string) : M (option pydict) :=
  jobs <- execute_query (SelectById "jobs") [PStr job_id] ;;
  match jobs with
  | [] => ret None
  | job :: _ =>
    job <- lift (parse_json_field "requirements" job) ;;
    job <- lift (parse_json_field "tags" job) ;;
    ret (Some job)
  end.

Definition create_job (uuid4 now : string) (job_data : pydict) : M (option pydict) :=
  let job_id := uuid4 in
  let record : pydict :=
    list_to_map
      [ ("id", PStr job_id);
        ("title", get job_data "title" (PStr ""));
        ("company", get job_data "company" (PStr ""));
        ("url", get job_data "url" PNone);
        ("description", get job_data "description" PNone);
        ("location", get job_data "location" PNone);
        ("salary", get job_data "salary" PNone);
        ("requirements", PStr (json_dumps (get job_data "requirements" (PList []))));
        ("stage", get job_data "stage" (PStr "saved"));
        ("notes", get job_data "notes" (PStr ""));
        ("tags", PStr (json_dumps (get job_data "tags" (PList []))));
        ("applied_date", get job_data "applied_date" PNone);
        ("created_at", PStr now);
        ("updated_at", PStr now) ] in
  let query := Insert "jobs" jobs_insert_columns in
  let params := values_of record jobs_insert_columns in
  _ <- execute_command query params ;;
  get_job job_id.

Definition get_jobs : M (list pydict) :=
  jobs <- execute_query (SelectOrdered "jobs" "created_at" Desc) [] ;;
  lift (traverse (λ job,
          rbind (parse_json_field "requirements" job) (parse_json_field "tags"))
        jobs).

(** The loop of [update_job] over [job_data.items()]: every key but
    [id] becomes an assignment, the two list columns re-encoded. *)
Definition update_item (item : string * pyval) : option (string * pyval) :=
  let '(key, value) := item in
  if String.eqb key "id" then None
  else if String.eqb key "requirements" || String.eqb key "tags"
       then Some (key, PStr (json_dumps (py_or value (PList []))))
       else Some (key, value).

Definition update_job (now : string) (job_id : string) (job_data : pydict) :
  M (option pydict) :=
  let job_data := <["updated_at" := PStr now]> job_data in
  let items := omap update_item (map_to_list job_data) in
  let fields := (λ kv, (kv.1, Param)) <$> items in
  let params := (items.*2 ++ [PStr job_id])%list in
  rows_affected <- execute_command (UpdateById "jobs" fields) params ;;
  if 0 <? rows_affected then get_job job_id else ret None.

Definition delete_job (job_id : string) : M bool :=
  rows_affected <- execute_command (DeleteById "jobs") [PStr job_id] ;;
  ret (0 <? rows_affected).

(** *** Companies *)

Definition companies_insert_columns : list string :=
  [ "id"; "name"; "domain"; "industry"; "size"; "funding_stage"; "rating";
    "location"; "website"; "notes"; "last_updated"; "created_at" ].

Definition get_company (company_id : string) : M (option pydict) :=
  companies <- execute_query (SelectById "companies") [PStr company_id] ;;
  ret (head companies).

Definition create_company (uuid4 now : string) (company_data : pydict) :
  M (option pydict) :=
  let company_id := uuid4 in
  let record : pydict :=
    list_to_map
      [ ("id", PStr company_id);
        ("name", get company_data "name" (PStr ""));
        ("domain", get company_data "domain" PNone);
        ("industry", get company_data "industry" PNone);
        ("size", get company_data "size" PNone);
        ("funding_stage", get company_data "funding_stage" PNone);
        ("rating", get company_data "rating" PNone);
        ("location", get company_data "location" PNone);
        ("website", get company_data "website" PNone);
        ("notes", get company_data "notes" (PStr ""));
        ("last_updated", PStr now);
        ("created_at", PStr now) ] in
  let query := Insert "companies" companies_insert_columns in
  let params := values_of record companies_insert_columns in
  _ <- execute_command query params ;;
  get_company company_id.

Definition get_companies : M (list pydict) :=
  execute_query (SelectOrdered "companies" "name" Asc) [].

(** *** Contacts *)

Definition contacts_insert_columns : list string :=
  [ "id"; "name"; "company"; "position"; "linkedin_url"; "relationship";
    "connection_type"; "warm_intro_potential"; "last_contact"; "notes" ].

Definition get_contact (contact_id : string) : M (option pydict) :=
  contacts <- execute_query (SelectById "contacts") [PStr contact_id] ;;
  ret (head contacts).

Definition create_contact (uuid4 : string) (contact_data : pydict) :
  M (option pydict) :=
  let contact_id := uuid4 in
  let record : pydict :=
    list_to_map
      [ ("id", PStr contact_id);
        ("name", get contact_data "name" (PStr ""));
        ("company", get contact_data "company" (PStr ""));
        ("position", get contact_data "position" PNone);
        ("linkedin_url", get contact_data "linkedin_url" PNone);
        ("relationship", get contact_data "relationship" PNone);
        ("connection_type", get contact_data "connection_type" PNone);
        ("warm_intro_potential", get contact_data "warm_intro_potential" PNone);
        ("last_contact", get contact_data "last_contact" PNone);
        ("notes", get contact_data "notes" (PStr "")) ] in
  let query := Insert "contacts" contacts_insert_columns in
  let params := values_of record contacts_insert_columns in
  _ <- execute_command query params ;;
  get_contact contact_id.

Definition get_contacts : M (list pydict) :=
  execute_query (SelectOrdered "contacts" "name" Asc) [].

Definition delete_contact (contact_id : string) : M bool :=
  rows_affected <- execute_command (DeleteById "contacts") [PStr contact_id] ;;
  ret (0 <? rows_affected).

(** *** Job alerts *)

Definition job_alerts_insert_columns : list string :=
  [ "id"; "name"; "keywords"; "location"; "frequency"; "is_active";
    "last_run"; "created_at"; "updated_at" ].

Definition get_job_alert (alert_id : string) : M (option pydict) :=
  alerts <- execute_query (SelectById "job_alerts") [PStr alert_id] ;;
  ret (head alerts).

Definition create_job_alert (uuid4 now : string) (alert_data : pydict) :
  M (option pydict) :=
  let alert_id := uuid4 in
  let record : pydict :=
    list_to_map
      [ ("id", PStr alert_id);
        ("name", get alert_data "name" (PStr ""));
        ("keywords", get alert_data "keywords" (PStr ""));
        ("location", get alert_data "location" (PStr ""));
        ("frequency", get alert_data "frequency" (PStr "daily"));
        ("is_active", get alert_data "is_active" (PBool true));
        ("last_run", get alert_data "last_run" PNone);
        ("created_at", PStr now);
        ("updated_at", PStr now) ] in
  let query := Insert "job_alerts" job_alerts_insert_columns in
  let params := values_of record job_alerts_insert_columns in
  _ <- execute_command query params ;;
  get_job_alert alert_id.

Definition get_job_alerts : M (list pydict) :=
  execute_query (SelectOrdered "job_alerts" "created_at" Desc) [].

Definition toggle_job_alert (now : string) (alert_id : string) : M (option pydict) :=
  let query :=
    UpdateById "job_alerts" [("is_active", NotCol "is_active"); ("updated_at", Param)] in
  _ <- execute_command query [PStr now; PStr alert_id] ;;
  get_job_alert alert_id.

(** The bundle returned by [run_job_alert]. *)
Record alert_run := AlertRun {
  alert : option pydict;
  jobs_found : list pydict;
  message : string
}.

(** [datetime.now()] is read twice, once for each column. *)
Definition run_job_alert (now1 now2 : string) (alert_id : string) : M alert_run :=
  let query := UpdateById "job_alerts" [("last_run", Param); ("updated_at", Param)] in
  _ <- execute_command query [PStr now1; PStr now2; PStr alert_id] ;;
  alert <- get_job_alert alert_id ;;
  ret (AlertRun alert [] "Job alert executed (demo mode)").

(** *** Interview sessions *)

Definition interview_sessions_insert_columns : list string :=
  [ "id"; "company"; "role"; "category"; "questions"; "answers"; "feedback";
    "score"; "created_at"; "updated_at" ].

Definition get_interview_session (session_id : string) : M (option pydict) :=
  sessions <- execute_query (SelectById "interview_sessions") [PStr session_id] ;;
  match sessions with
  | [] => ret None
  | session :: _ =>
    session <- lift (parse_json_field "questions" session) ;;
    session <- lift (parse_json_field "answers" session) ;;
    ret (Some session)
  end.

Definition create_interview_session (uuid4 now : string) (session_data : pydict) :
  M (option pydict) :=
  let session_id := uuid4 in
  let record : pydict :=
    list_to_map
      [ ("id", PStr session_id);
        ("company", get session_data "company" (PStr ""));
        ("role", get session_data "role" (PStr ""));
        ("category", get session_data "category" (PStr "behavioral"));
        ("questions", PStr (json_dumps (get session_data "questions" (PList []))));
        ("answers", PStr (json_dumps (get session_data "answers" (PList []))));
        ("feedback", get session_data "feedback" (PStr ""));
        ("score", get session_data "score" PNone);
        ("created_at", PStr now);
        ("updated_at", PStr now) ] in
  let query := Insert "interview_sessions" interview_sessions_insert_columns in
  let params := values_of record interview_sessions_insert_columns in
  _ <- execute_command query params ;;
  get_interview_session session_id.

Definition get_interview_sessions : M (list pydict) :=
  sessions <- execute_query (SelectOrdered "interview_sessions" "created_at" Desc) [] ;;
  lift (traverse (λ session,
          rbind (parse_json_field "questions" session) (parse_json_field "answers"))
        sessions).

(** *** Offers *)

Definition offers_insert_columns : list string :=
  [ "id"; "job_id"; "company"; "base_salary"; "bonus"; "equity"; "benefits";
    "start_date"; "negotiation_notes"; "status" ].

Definition get_offer (offer_id : string) : M (option pydict) :=
  offers <- execute_query (SelectById "offers") [PStr offer_id] ;;
  ret (head offers).

Definition create_offer (uuid4 : string) (offer_data : pydict) : M (option pydict) :=
  let offer_id := uuid4 in
  let record : pydict :=
    list_to_map
      [ ("id", PStr offer_id);
        ("job_id", get offer_data "job_id" PNone);
        ("company", get offer_data "company" (PStr ""));
        ("base_salary", get offer_data "base_salary" PNone);
        ("bonus", get offer_data "bonus" (PStr ""));
        ("equity", get offer_data "equity" (PStr ""));
        ("benefits", get offer_data "benefits" (PStr ""));
        ("start_date", get offer_data "start_date" PNone);
        ("negotiation_notes", get offer_data "negotiation_notes" (PStr ""));
        ("status", get offer_data "status" (PStr "pending")) ] in
  let query := Insert "offers" offers_insert_columns in
  let params := values_of record offers_insert_columns in
  _ <- execute_command query params ;;
  get_offer offer_id.

Definition get_offers : M (list pydict) :=
  execute_query (SelectOrdered "offers" "created_at" Desc) [].

(** [not offer] holds of [None] and of the empty dictionary. *)
Definition calculate_offer_value (offer_id : string) : M pydict :=
  offer <- get_offer offer_id ;;
  match offer with
  | None => raise (DatabaseError "Offer not found")
  | Some offer =>
    if bool_decide (offer = ∅) then raise (DatabaseError "Offer not found")
    else
      let base_salary := py_or (get offer "base_salary" (PInt 0)) (PInt 0) in
      total_value <- lift (mul_float base_salary 1.2%float) ;;
      ret (list_to_map
             [ ("offer_id", PStr offer_id);
               ("base_salary", base_salary);
               ("estimated_total_value", total_value);
               ("calculation_note", PStr "Estimated total value including benefits") ])
  end.

End VaultDatabase.

(** A freshly created database file: no table yet, a healthy engine. *)
Definition empty_store (ts : string) : store := Store ∅ ts [].

(** ** An instance of the library parameters

    Used to run the model on concrete inputs.  It converts an integer
    stored in a REAL column and the decimal text of an integer stored in
    a TEXT column, encodes scalars, and decodes the three JSON literals;
    the examples below do not go beyond that. *)

Module Reference.

Definition decimal (z : Z) : string := NilZero.string_of_int (Z.to_int z).

Definition convert (a : affinity) (v : sqlval) : sqlval :=
  match a, v with
  | AffReal, SInt z => match float_of_int z with Ok f => SReal f | Raise _ => v end
  | AffText, SInt z => SText (decimal z)
  | _, _ => v
  end.

Definition text_is_true (s : string) : bool :=
  match s with
  | String c _ => (49 <=? N_of_ascii c)%N && (N_of_ascii c <=? 57)%N
  | EmptyString => false
  end.

Definition dumps_other (v : pyval) : string :=
  match v with
  | PBool true => "true"
  | PBool false => "false"
  | PInt z => decimal z
  | PStr s => Json.dumps_str s
  | PNone | PFloat _ | PList _ => "null"
  end.

Definition loads_other (s : string) : option pyval :=
  if String.eqb s "null" then Some PNone
  else if String.eqb s "true" then Some (PBool true)
  else if String.eqb s "false" then Some (PBool false)
  else None.

Definition libs : Libs := Build_Libs convert text_is_true dumps_other loads_other.

End Reference.

(** ** Vocabulary of the specification *)

(** The six kinds of record, and the generic operations of the
    specification as the methods that implement them. *)
Inductive entity := Job | Company | Contact | Offer | JobAlert | InterviewSession.

Definition table_of (e : entity) : string :=
  match e with
  | Job => "jobs"
  | Company => "companies"
  | Contact => "contacts"
  | Offer => "offers"
  | JobAlert => "job_alerts"
  | InterviewSession => "interview_sessions"
  end.

(** The columns that hold an encoded list. *)
Definition list_fields (e : entity) : list string :=
  match e with
  | Job => ["requirements"; "tags"]
  | InterviewSession => ["questions"; "answers"]
  | _ => []
  end.

Section Generic.
Context `{Libs}.

(** [create]: [now] is the reading of the Python clock, which the
    methods for contacts and offers do not take. *)
Definition create (e : entity) (uuid4 now : string) (fields : pydict) :
  M (option pydict) :=
  match e with
  | Job => create_job uuid4 now fields
  | Company => create_company uuid4 now fields
  | Contact => create_contact uuid4 fields
  | Offer => create_offer uuid4 fields
  | JobAlert => create_job_alert uuid4 now fields
  | InterviewSession => create_interview_session uuid4 now fields
  end.

Definition get_one (e : entity) (id : string) : M (option pydict) :=
  match e with
  | Job => get_job id
  | Company => get_company id
  | Contact => get_contact id
  | Offer => get_offer id
  | JobAlert => get_job_alert id
  | InterviewSession => get_interview_session id
  end.

Definition get_all (e : entity) : M (list pydict) :=
  match e with
  | Job => get_jobs
  | Company => get_companies
  | Contact => get_contacts
  | Offer => get_offers
  | JobAlert => get_job_alerts
  | InterviewSession => get_interview_sessions
  end.

End Generic.

(** The type of a field in the data model of the specification. *)
Inductive field_type :=
| TextReq      (* text, stored in a NOT NULL column *)
| TextOpt      (* text or null *)
| StrList      (* ordered list of strings *)
| IntOpt       (* 64-bit integer or null *)
| NumOpt       (* integer, float or null *)
| Boolean.

Definition int64 (z : Z) : bool := (- 2 ^ 63 <=? z) && (z <? 2 ^ 63).

Definition conforms (ft : field_type) (v : pyval) : bool :=
  match ft, v with
  | TextReq, PStr _ => true
  | TextOpt, (PStr _ | PNone) => true
  | StrList, PList l => match Json.as_strs l with Some _ => true | None => false end
  | IntOpt, PNone => true
  | IntOpt, PInt z => int64 z
  | NumOpt, (PNone | PFloat _) => true
  | NumOpt, PInt z => int64 z
  | Boolean, PBool _ => true
  | _, _ => false
  end.

Definition fields_of (e : entity) : list (string * field_type) :=
  match e with
  | Job =>
    [ ("title", TextReq); ("company", TextReq); ("url", TextOpt);
      ("description", TextOpt); ("location", TextOpt); ("salary", TextOpt);
      ("requirements", StrList); ("stage", TextOpt); ("notes", TextOpt);
      ("tags", StrList); ("applied_date", TextOpt) ]
  | Company =>
    [ ("name", TextReq); ("domain", TextOpt); ("industry", TextOpt);
      ("size", TextOpt); ("funding_stage", TextOpt); ("rating", NumOpt);
      ("location", TextOpt); ("website", TextOpt); ("notes", TextOpt) ]
  | Contact =>
    [ ("name", TextReq); ("company", TextReq); ("position", TextOpt);
      ("linkedin_url", TextOpt); ("relationship", TextOpt);
      ("connection_type", TextOpt); ("warm_intro_potential", TextOpt);
      ("last_contact", TextOpt); ("notes", TextOpt) ]
  | Offer =>
    [ ("job_id", TextOpt); ("company", TextReq); ("base_salary", IntOpt);
      ("bonus", TextOpt); ("equity", TextOpt); ("benefits", TextOpt);
      ("start_date", TextOpt); ("negotiation_notes", TextOpt);
      ("status", TextOpt) ]
  | JobAlert =>
    [ ("name", TextReq); ("keywords", TextReq); ("location", TextOpt);
      ("frequency", TextOpt); ("is_active", Boolean); ("last_run", TextOpt) ]
  | InterviewSession =>
    [ ("company", TextReq); ("role", TextReq); ("category", TextOpt);
      ("questions", StrList); ("answers", StrList); ("feedback", TextOpt);
      ("score", IntOpt) ]
  end.

(** A valid field set: every field that is present has a value of its
    type.  Keys that name no field are not read by [create]. *)
Definition valid_fields (e : entity) (fields : pydict) : Prop :=
  ∀ k v ft, fields !! k = Some v → assoc k (fields_of e) = Some ft →
            conforms ft v = true.

(** No row of the table carries the identifier. *)
Definition fresh_id (id : string) (rows : list row) : Prop :=
  Forall (λ r, r !! "id" ≠ Some (SText id)) rows.

(** A parameter that [sqlite3] binds, and the value it binds it to. *)
Definition bindable (v : pyval) : bool :=
  match v with
  | PList _ => false
  | PInt z => int64 z
  | _ => true
  end.

Definition sql_of (v : pyval) : sqlval :=
  match v with
  | PNone | PList _ => SNull
  | PBool b => SInt (if b then 1 else 0)
  | PInt z => SInt z
  | PFloat f => if PrimFloat.is_nan f then SNull else SReal f
  | PStr s => SText s
  end.

(** [a] comes no later than [b] in the order of [ORDER BY ... ASC]. *)
Definition sql_le (a b : sqlval) : Prop := sql_compare a b ≠ Gt.

(** The text of a Python string comes no later than another: [s <= t]. *)
Definition str_le (s t : string) : Prop := String.compare s t ≠ Gt.

(** The columns of each table and of each INSERT. *)
Definition columns_of (e : entity) : list column :=
  match e with
  | Job => jobs_columns
  | Company => companies_columns
  | Contact => contacts_columns
  | Offer => offers_columns
  | JobAlert => job_alerts_columns
  | InterviewSession => interview_sessions_columns
  end.

Definition insert_columns (e : entity) : list string :=
  match e with
  | Job => jobs_insert_columns
  | Company => companies_insert_columns
  | Contact => contacts_insert_columns
  | Offer => offers_insert_columns
  | JobAlert => job_alerts_insert_columns
  | InterviewSession => interview_sessions_insert_columns
  end.

Section Created.
Context `{Libs}.

(** The parameters that [create] binds, the row that the INSERT builds
    from them, and the record that [get] makes of that row. *)
Definition create_params (e : entity) (uuid4 now : string) (d : pydict) : list pyval :=
  match e with
  | Job =>
    [ PStr uuid4; get d "title" (PStr ""); get d "company" (PStr "");
      get d "url" PNone; get d "description" PNone; get d "location" PNone;
      get d "salary" PNone; PStr (json_dumps (get d "requirements" (PList [])));
      get d "stage" (PStr "saved"); get d "notes" (PStr "");
      PStr (json_dumps (get d "tags" (PList []))); get d "applied_date" PNone;
      PStr now; PStr now ]
  | Company =>
    [ PStr uuid4; get d "name" (PStr ""); get d "domain" PNone;
      get d "industry" PNone; get d "size" PNone; get d "funding_stage" PNone;
      get d "rating" PNone; get d "location" PNone; get d "website" PNone;
      get d "notes" (PStr ""); PStr now; PStr now ]
  | Contact =>
    [ PStr uuid4; get d "name" (PStr ""); get d "company" (PStr "");
      get d "position" PNone; get d "linkedin_url" PNone;
      get d "relationship" PNone; get d "connection_type" PNone;
      get d "warm_intro_potential" PNone; get d "last_contact" PNone;
      get d "notes" (PStr "") ]
  | Offer =>
    [ PStr uuid4; get d "job_id" PNone; get d "company" (PStr "");
      get d "base_salary" PNone; get d "bonus" (PStr ""); get d "equity" (PStr "");
      get d "benefits" (PStr ""); get d "start_date" PNone;
      get d "negotiation_notes" (PStr ""); get d "status" (PStr "pending") ]
  | JobAlert =>
    [ PStr uuid4; get d "name" (PStr ""); get d "keywords" (PStr "");
      get d "location" (PStr ""); get d "frequency" (PStr "daily");
      get d "is_active" (PBool true); get d "last_run" PNone; PStr now; PStr now ]
  | InterviewSession =>
    [ PStr uuid4; get d "company" (PStr ""); get d "role" (PStr "");
      get d "category" (PStr "behavioral");
      PStr (json_dumps (get d "questions" (PList [])));
      PStr (json_dumps (get d "answers" (PList [])));
      get d "feedback" (PStr ""); get d "score" PNone; PStr now; PStr now ]
  end.

Definition created_row (e : entity) (uuid4 now : string) (d : pydict) (ts : string) : row :=
  new_row (columns_of e)
    (list_to_map (zip (insert_columns e) (sql_of <$> create_params e uuid4 now d))) ts.

Definition created_record (e : entity) (uuid4 now : string) (d : pydict) (ts : string) : pydict :=
  foldl (λ rec k, <[k := get d k (PList [])]> rec)
        (dict (created_row e uuid4 now d ts)) (list_fields e).

(** The store after a row was appended to a table. *)
Definition with_row (t : string) (rows : list row) (r : row) (st : store) : store :=
  Store (<[t := (rows ++ [r])%list]> (data st)) (current_timestamp st) [].

End Created.

(** ** Definitions used to state what an UPDATE and a SELECT do *)

Section Statements.
Context `{Libs}.

Definition assigned (assigns : list (column * (row → sqlval))) : list string :=
  (λ a, col_name a.1) <$> assigns.

(** The row an UPDATE writes in place of [old]. *)
Definition updated (assigns : list (column * (row → sqlval))) (old : row) : row :=
  foldl (λ r '(c, f), <[col_name c := apply_affinity (col_affinity c) (f old)]> r)
        old assigns.

(** The resolution of a SET list against the columns of the table. *)
Definition resolve_targets (t : string) (cols : list column)
  (sets : list (string * expr)) : result (list (column * expr)) :=
  traverse (λ '(c, e),
     rbind (named_column t cols "no such column: " c) (λ col,
     rbind (match e with
            | Param => Ok tt
            | NotCol src =>
              rbind (named_column t cols "no such column: " src) (λ _, Ok tt)
            end) (λ _, Ok (col, e)))) sets.

(** The rows of a table after an UPDATE of those that match [key]. *)
Definition update_rows (key : sqlval) (assigns : list (column * (row → sqlval)))
  (rows : list row) : list row :=
  (λ r, if matches key r then updated assigns r else r) <$> rows.

(** The store after the rows of a table were replaced. *)
Definition with_rows (t : string) (rows : list row) (st : store) : store :=
  Store (<[t := rows]> (data st)) (current_timestamp st) [].

Definition toggle_assigns (now : string) : list (column * (row → sqlval)) :=
  [ (Column "is_active" AffNumeric false (Literal (SInt 1)),
     λ r, sql_not (key_of "is_active" r));
    (text_default "updated_at" CurrentTimestamp, λ _, SText now) ].

Definition run_assigns (now1 now2 : string) : list (column * (row → sqlval)) :=
  [ (text "last_run", λ _, SText now1);
    (text_default "updated_at" CurrentTimestamp, λ _, SText now2) ].

Definition touch_assigns (now : string) : list (column * (row → sqlval)) :=
  [ (text_notnull "updated_at", λ _, SText now) ].

(** The assignments that [update_job] makes from [job_data]. *)
Definition update_items (now : string) (d : pydict) : list (string * pyval) :=
  omap update_item (map_to_list (<["updated_at" := PStr now]> d)).

Definition order_of (e : entity) : string * direction :=
  match e with
  | Company | Contact => ("name", Asc)
  | Job | Offer | JobAlert | InterviewSession => ("created_at", Desc)
  end.

(** The decoding of the list columns of a record, in the order of the
    statements of [get_job] and [get_interview_session]. *)
Definition decode_lists (e : entity) (rec : pydict) : result pydict :=
  foldl (λ acc k, rbind acc (parse_json_field k)) (Ok rec) (list_fields e).

(** Two rows in the order that [ORDER BY key dir] asks for. *)
Definition ordered (key : string) (dir : direction) (r1 r2 : row) : Prop :=
  match dir with
  | Asc => sql_le (key_of key r1) (key_of key r2)
  | Desc => sql_le (key_of key r2) (key_of key r1)
  end.

End Statements.

(** ** Well-formed databases and the calls of the public surface *)

Section Surface.
Context `{Libs}.

(** A row that has exactly the columns of its table. *)
Definition has_columns (cols : list column) (r : row) : Prop :=
  ∀ c, is_Some (r !! c) ↔ is_Some (find_column cols c).

(** Every row of every table of the schema has the columns of its table. *)
Definition well_formed (db : database) : Prop :=
  ∀ t cols rows, table_columns t = Some cols → db !! t = Some rows →
                 Forall (has_columns cols) rows.

(** A call of the public surface of the store. *)
Inductive call :=
| Init
| Create (e : entity) (uuid4 now : string) (fields : pydict)
| Get (e : entity) (id : string)
| GetAll (e : entity)
| UpdateJob (now id : string) (fields : pydict)
| DeleteJob (id : string)
| DeleteContact (id : string)
| Toggle (now id : string)
| Run (now1 now2 id : string)
| CalculateValue (id : string).

(** The exception that a method let through, if any, and the store it left. *)
Definition outcome {A} (r : result A * store) : option exn * store :=
  (match r.1 with Ok _ => None | Raise e => Some e end, r.2).

(** A method keeps the database well formed. *)
Definition keeps_well_formed {A} (m : M A) : Prop :=
  ∀ st, well_formed (data st) → well_formed (data (m st).2).

(** A result, or a method, that lets no [sqlite3.Error] through. *)
Definition no_sqlite_error {A} (r : result A) : Prop :=
  ∀ msg, r ≠ Raise (SqliteError msg).

Definition guarded {A} (m : M A) : Prop :=
  ∀ st, no_sqlite_error (m st).1.

Definition perform (c : call) (st : store) : option exn * store :=
  match c with
  | Init => outcome (_init_schema st)
  | Create e uuid4 now fields => outcome (create e uuid4 now fields st)
  | Get e id => outcome (get_one e id st)
  | GetAll e => outcome (get_all e st)
  | UpdateJob now id fields => outcome (update_job now id fields st)
  | DeleteJob id => outcome (delete_job id st)
  | DeleteContact id => outcome (delete_contact id st)
  | Toggle now id => outcome (toggle_job_alert now id st)
  | Run now1 now2 id => outcome (run_job_alert now1 now2 id st)
  | CalculateValue id => outcome (calculate_offer_value id st)
  end.

End Surface.

(** ** Records as the specification describes them *)

Section Records.
Context `{Libs}.

(** A store whose file was just created and whose schema was applied. *)
Definition fresh_store : store :=
  snd (_init_schema (empty_store "2024-01-01 00:00:00")).

(** The shared fields of a record: [id] and [created_at] for all, and
    [updated_at] for all but a company, which has [last_updated]. *)
Definition record_shape (e : entity) (rec : pydict) : Prop :=
  is_Some (rec !! "id") ∧ is_Some (rec !! "created_at") ∧
  match e with
  | Company => is_Some (rec !! "last_updated") ∧ rec !! "updated_at" = None
  | _ => is_Some (rec !! "updated_at")
  end.

(** The clock that stamps a new record: Python's for the methods that
    read it, the engine's CURRENT_TIMESTAMP for contacts and offers. *)
Definition stamp (e : entity) (now : string) (st : store) : string :=
  match e with
  | Contact | Offer => current_timestamp st
  | _ => now
  end.

(** The field [k] of the record that a method returned: [Ok None] when
    it returned no record, [Ok (Some None)] when the record has no such
    key. *)
Definition returned_field (r : result (option pydict) * store) (k : string) :
  result (option (option pyval)) :=
  match r.1 with
  | Ok (Some rec) => Ok (Some (rec !! k))
  | Ok None => Ok None
  | Raise e => Raise e
  end.

End Records.

(** ** Stores of the examples *)

Section Examples.
Context `{Libs}.

(** Stores used in the examples: the fresh store after one job, one
    alert (active by default) or one offer was created. *)
Definition store_with_job : store :=
  (@create Reference.libs Job "j1" "2024-01-01T10:00:00"
     (<["title" := PStr "Engineer"]> ∅) fresh_store).2.

Definition store_with_alert : store :=
  (@create Reference.libs JobAlert "a1" "2024-01-01T10:00:00"
     (<["name" := PStr "rust"]> ∅) fresh_store).2.

(** The rows of a table, none when the table does not exist. *)
Definition rows_of (t : string) (st : store) : list row :=
  default [] (data st !! t).

End Examples.

(** ** The valuation of an offer *)

Section Valuation.
Context `{Libs}.

(** The bundle that [calculate_offer_value] returns. *)
Definition offer_value (offer_id : string) (base_salary : Z) (total : float) : pydict :=
  list_to_map
    [ ("offer_id", PStr offer_id);
      ("base_salary", PInt base_salary);
      ("estimated_total_value", PFloat total);
      ("calculation_note", PStr "Estimated total value including benefits") ].

Definition store_with_offer : store :=
  (@create Reference.libs Offer "o1" "2024-01-01T10:00:00"
     (<["base_salary" := PInt 100000]> ∅) fresh_store).2.

End Valuation.

(** ** List columns and the ordering scenario *)

Section ListColumns.
Context `{Libs}.

(** A list column holds the encoding of [strs]: what [json.dumps] wrote
    for it, or NULL for the empty list. *)
Definition holds_list (v : sqlval) (strs : list string) : Prop :=
  v = SText (json_dumps (PList (PStr <$> strs))) ∨ (v = SNull ∧ strs = []).

(** Every list column of the row holds the encoding of a list of strings. *)
Definition encoded_lists (e : entity) (r : row) : Prop :=
  ∀ k, k ∈ list_fields e → ∃ v strs, r !! k = Some v ∧ holds_list v strs.

(** [rec] is the row [r] as [get] and [get_all] return it: every column
    as Python reads it, the list columns decoded. *)
Definition decoded (e : entity) (r : row) (rec : pydict) : Prop :=
  (∀ c, c ∉ list_fields e → rec !! c = to_py <$> r !! c) ∧
  (∀ k, k ∈ list_fields e →
     ∃ v strs, r !! k = Some v ∧ holds_list v strs ∧
               rec !! k = Some (PList (PStr <$> strs))).

(** The three companies of the ordering scenario, created in the order
    C, A, B on a store whose table of companies is empty. *)
Definition after_three_companies (u1 u2 u3 n1 n2 n3 : string) (st : store) : store :=
  let st1 := (create Company u1 n1 (<["name" := PStr "C"]> ∅) st).2 in
  let st2 := (create Company u2 n2 (<["name" := PStr "A"]> ∅) st1).2 in
  (create Company u3 n3 (<["name" := PStr "B"]> ∅) st2).2.

End ListColumns.

(** ** Sequences of updates of a job *)

Section Sequences.
Context `{Libs}.

(** The values of column [c] in the rows of table [t] that carry [id]. *)
Definition stored_column (t c id : string) (st : store) : list (option sqlval) :=
  (λ r : row, r !! c) <$> List.filter (matches (SText id)) (rows_of t st).

(** A sequence of calls of [update_job] on one identifier, each with its
    reading of the clock and its partial fields. *)
Definition run_updates (id : string) (us : list (string * pydict)) (st : store) : store :=
  foldl (λ st u, (update_job u.1 id u.2 st).2) st us.

(** The record of the job of [store_with_job]. *)
Definition job_record : pydict :=
  match (@get_job Reference.libs "j1" store_with_job).1 with
  | Ok (Some rec) => rec
  | _ => ∅
  end.

End Sequences.

(** ** Keys and clocks of updates *)

(** Fields whose keys are names of columns of the table of jobs, written
    as the schema writes them.  [update_job] pastes each key into the
    text of its UPDATE; for such keys the text assigns the columns
    named, and only those. *)
Definition column_keys (d : pydict) : Prop :=
  ∀ k, is_Some (d !! k) → k ∈ col_name <$> jobs_columns.

(** The store after a job was created at ten and updated twice, at
    eleven and at noon, and the record of the job then. *)
Definition store_after_updates : store :=
  @run_updates Reference.libs "j1"
    [ ("2024-01-01T11:00:00", <["stage" := PStr "applied"]> ∅);
      ("2024-01-01T12:00:00", ∅) ]
    (@create_job Reference.libs "j1" "2024-01-01T10:00:00"
       (<["title" := PStr "Engineer"]> ∅) fresh_store).2.

Definition record_after_updates : pydict :=
  match (@get_job Reference.libs "j1" store_after_updates).1 with
  | Ok (Some rec) => rec
  | _ => ∅
  end.

(** ** Failures of the engine *)

Section Failures.
Context `{Libs}.

(** The message of an event that is a failure of the engine. *)
Definition failure_of (ev : engine_event) : option string :=
  match ev with
  | Proceeds => None
  | ConnectFails msg | StatementFails msg => Some msg
  end.

(** [DatabaseError(f"Database error: {e}")] *)
Definition database_error (msg : string) : exn :=
  DatabaseError ("Database error: " +:+ msg).

(** A method that hides no failure of the engine: every failure among
    the events that its connections met is raised as [DatabaseError]
    with the message of the failure. *)
Definition surfaced {A} (m : M A) : Prop :=
  ∀ st, ∃ pre,
    events st = (pre ++ events (m st).2)%list ∧
    ∀ ev msg, ev ∈ pre → failure_of ev = Some msg →
              (m st).1 = Raise (database_error msg).


(** A body that runs a statement first meets the failure of its
    connection, if there is one. *)
Definition meets_fault {A} (body : connection → result A * connection) : Prop :=
  ∀ c msg, fault c = Some msg → body c = (Raise (SqliteError msg), c).


End Failures.

(** ** What a call may write *)

Section Frames.
Context `{Libs}.

(** The table that a statement names. *)
Definition stmt_table (q : stmt) : string :=
  match q with
  | Insert t _ | SelectOrdered t _ _ | SelectById t | UpdateById t _
  | DeleteById t => t
  end.

(** The table that a call of the store may write: none for the calls
    that only read, and none for the schema, which only adds tables. *)
Definition writes (c : call) : option string :=
  match c with
  | Create e _ _ _ => Some (table_of e)
  | UpdateJob _ _ _ | DeleteJob _ => Some "jobs"
  | DeleteContact _ => Some "contacts"
  | Toggle _ _ | Run _ _ _ => Some "job_alerts"
  | Init | Get _ _ | GetAll _ | CalculateValue _ => None
  end.

(** A method that leaves the rows of table [t] as they were. *)
Definition frames {A} (t : string) (m : M A) : Prop :=
  ∀ st rows, data st !! t = Some rows → data (m st).2 !! t = Some rows.

(** A method that leaves the data as they were. *)
Definition read_only {A} (m : M A) : Prop :=
  ∀ st, data (m st).2 = data st.

End Frames.

(** ** A job with an offer *)

Section Referring.
Context `{Libs}.

(** A store with a job and an offer that refers to it. *)
Definition store_with_job_and_offer : store :=
  (@create Reference.libs Offer "o1" "2024-01-02T10:00:00"
     (<["job_id" := PStr "j1"]> (<["company" := PStr "Acme"]> ∅))
     store_with_job).2.

End Referring.

(** ** The row of the example job *)

Section ExampleRows.
Context `{Libs}.

(** The row of the job of [store_with_job]. *)
Definition job_row : row := default ∅ (head (rows_of "jobs" store_with_job)).

End ExampleRows.

(** ** Identifiers of rows *)

Section Identifiers.
Context `{Libs}.

(** The identifier of a row, when it is a text. *)
Definition text_id (r : row) : option string :=
  match r !! "id" with
  | Some (SText s) => Some s
  | _ => None
  end.

(** No two rows of a table carry the same identifier. *)
Definition ids_distinct (db : database) : Prop :=
  ∀ t rows, db !! t = Some rows → NoDup (omap text_id rows).

Definition keeps_ids {A} (m : M A) : Prop :=
  ∀ st, ids_distinct (data st) → ids_distinct (data (m st).2).

(** A statement that assigns no identifier. *)
Definition assigns_no_id (q : stmt) : Prop :=
  match q with
  | UpdateById _ sets => "id" ∉ sets.*1
  | _ => True
  end.

End Identifiers.

(** ** Sequences of calls *)

Section Reachable.
Context `{Libs}.

(** The store after a sequence of calls, whatever each returned. *)
Definition run_calls (cs : list call) (st : store) : store :=
  foldl (λ st c, (perform c st).2) st cs.

End Reachable.

(** ** Fields that an update can write *)

Section UpdateContract.
Context `{Libs}.

(** Fields that [update_job] can write: every key other than [id] and
    [updated_at] is a field of a job, with a value of its type. *)
Definition valid_update (d : pydict) : Prop :=
  ∀ k v, d !! k = Some v → k ≠ "id" → k ≠ "updated_at" →
         ∃ ft, assoc k (fields_of Job) = Some ft ∧ conforms ft v = true.

(** What [update_job] binds for a key and the value given for it. *)
Definition update_value (k : string) (v : pyval) : pyval :=
  if String.eqb k "requirements" || String.eqb k "tags"
  then PStr (json_dumps (py_or v (PList []))) else v.

End UpdateContract.

(** ** The defaults of a new record *)

Section Defaults.
Context `{Libs}.

(** The fields that [create] fills when none is given: the texts that
    default to the empty text or to a word, the fields that default to
    [None], and the lists.  A truth value is read back as the integer
    that the engine stores for it. *)
Definition default_fields (e : entity) : list (string * pyval) :=
  match e with
  | Job =>
    [ ("title", PStr ""); ("company", PStr ""); ("url", PNone);
      ("description", PNone); ("location", PNone); ("salary", PNone);
      ("requirements", PList []); ("stage", PStr "saved"); ("notes", PStr "");
      ("tags", PList []); ("applied_date", PNone) ]
  | Company =>
    [ ("name", PStr ""); ("domain", PNone); ("industry", PNone); ("size", PNone);
      ("funding_stage", PNone); ("rating", PNone); ("location", PNone);
      ("website", PNone); ("notes", PStr "") ]
  | Contact =>
    [ ("name", PStr ""); ("company", PStr ""); ("position", PNone);
      ("linkedin_url", PNone); ("relationship", PNone);
      ("connection_type", PNone); ("warm_intro_potential", PNone);
      ("last_contact", PNone); ("notes", PStr "") ]
  | Offer =>
    [ ("job_id", PNone); ("company", PStr ""); ("base_salary", PNone);
      ("bonus", PStr ""); ("equity", PStr ""); ("benefits", PStr "");
      ("start_date", PNone); ("negotiation_notes", PStr "");
      ("status", PStr "pending") ]
  | JobAlert =>
    [ ("name", PStr ""); ("keywords", PStr ""); ("location", PStr "");
      ("frequency", PStr "daily"); ("is_active", PInt 1); ("last_run", PNone) ]
  | InterviewSession =>
    [ ("company", PStr ""); ("role", PStr ""); ("category", PStr "behavioral");
      ("questions", PList []); ("answers", PList []); ("feedback", PStr "");
      ("score", PNone) ]
  end.

(** The second timestamp of a record: [last_updated] for a company. *)
Definition second_stamp (e : entity) : string :=
  match e with Company => "last_updated" | _ => "updated_at" end.

End Defaults.

(** ** [WickitSQLite.execute_many] *)

Section ExecuteMany.
Context `{Libs}.

(** Whether a statement is a SELECT, which [executemany] refuses. *)
Definition is_select (q : stmt) : bool :=
  match q with
  | SelectOrdered _ _ _ | SelectById _ => true
  | Insert _ _ | UpdateById _ _ | DeleteById _ => false
  end.

(** The statement compiled against the schema, its names resolved,
    before any parameter is bound. *)
Definition prepare (q : stmt) (db : database) : result unit :=
  match q with
  | Insert t names =>
    rbind (open_table t db) (λ '(cols, _),
    rbind (traverse (named_column t cols ("table " +:+ t +:+ " has no column named ")) names)
      (λ _, Ok tt))
  | SelectOrdered t key _ =>
    rbind (open_table t db) (λ '(cols, _),
    rbind (named_column t cols "no such column: " key) (λ _, Ok tt))
  | UpdateById t sets =>
    rbind (open_table t db) (λ '(cols, _),
    rbind (resolve_targets t cols sets) (λ _, Ok tt))
  | SelectById t | DeleteById t =>
    rbind (open_table t db) (λ _, Ok tt)
  end.

(** The loop of [executemany]: the statement is run for each tuple of
    parameters in turn, the counts of rows added up; the first failure
    stops the loop, with the changes made so far still pending. *)
Fixpoint run_many (q : stmt) (params_list : list (list pyval)) (ts : string)
  (db : database) (n : Z) : result Z * database :=
  match params_list with
  | [] => (Ok n, db)
  | ps :: rest =>
    match exec_stmt q ps ts db with
    | Ok (cur, db') => run_many q rest ts db' (n + rowcount cur)
    | Raise e => (Raise e, db)
    end
  end.

(** [conn.executemany(command, params_list)] *)
Definition executemany (q : stmt) (params_list : list (list pyval))
  (c : connection) : result cursor * connection :=
  match fault c with
  | Some m => (Raise (SqliteError m), c)
  | None =>
    match prepare q (pending c) with
    | Raise e => (Raise e, c)
    | Ok _ =>
      if is_select q
      then (Raise (SqliteError "executemany() can only execute DML statements."), c)
      else
        let '(r, db') := run_many q params_list (clock c) (pending c) 0 in
        (rbind r (λ n, Ok (Cursor [] n)),
         Connection (durable c) db' (clock c) (fault c))
    end
  end.

Definition execute_many (command : stmt) (params_list : list (list pyval)) : M Z :=
  get_connection (λ conn,
    match executemany command params_list conn with
    | (Ok cursor, conn') => (Ok (rowcount cursor), commit conn')
    | (Raise e, conn') => (Raise e, conn')
    end).

(** The command run once for each tuple of parameters, each in a
    transaction of its own, the counts added up. *)
Fixpoint run_commands (q : stmt) (params_list : list (list pyval)) : M Z :=
  match params_list with
  | [] => ret 0
  | ps :: rest =>
    n <- execute_command q ps ;;
    m <- run_commands q rest ;;
    ret (n + m)
  end.

(** Two jobs to insert, the second with the identifier of the job of
    [store_with_job]. *)
Definition two_jobs : list (list pyval) :=
  [ [PStr "j2"; PStr "Analyst"; PStr "Acme"; PStr "t0"; PStr "t0"];
    [PStr "j1"; PStr "Manager"; PStr "Acme"; PStr "t0"; PStr "t0"] ].

End ExecuteMany.

(** ** The data directory of a product ([hideaway.get_data_dir]) *)

Section Hideaway.

(** Python's [str.lower], the type of [pathlib] paths, the home
    directory and the operator [/] of paths. *)
Variable lower : string → string.
Variable path : Type.
Variable home : path.
Variable join : path → string → path.

(** The names of the products and the directories they map to. *)
Definition VALID_PRODUCTS : list (string * string) :=
  [ ("cv-studio", "cvstudio"); ("cvstudio", "cvstudio"); ("aixam", "aixam");
    ("studya", "studya"); ("jobforge", "jobforge"); ("default", "default") ].

(** [VALID_PRODUCTS.get(product_name.lower(), product_name.lower())] *)
Definition dir_name (product_name : string) : string :=
  default (lower product_name) (assoc (lower product_name) VALID_PRODUCTS).

(** [Path.home() / f".{dir_name}"] *)
Definition get_data_dir (product_name : string) : path :=
  join home ("." +:+ dir_name product_name).

(** [get_data_dir(product_name) / db_name], the path that
    [WickitSQLite.__init__] keeps. *)
Definition db_path (product_name db_name : string) : path :=
  join (get_data_dir product_name) db_name.

End Hideaway.

(** ** [BaseRecord] *)

Module BaseRecord.

(** The dataclass [BaseRecord]; the annotations of its fields are not
    enforced, so a field holds any value. *)
Record t := Make {
  id : pyval;
  created_at : pyval;
  updated_at : pyval
}.

(** [__post_init__], with the reading of the clock that it may take. *)
Definition __post_init__ (now : string) (self : t) : t :=
  let self :=
    if negb (truthy (created_at self))
    then Make (id self) (PStr now) (updated_at self) else self in
  if negb (truthy (updated_at self))
  then Make (id self) (created_at self) (created_at self) else self.

End BaseRecord.

(** * Properties *)

(** ** The codec: decoding what was encoded *)

Module JsonFacts.
Import Json.

Lemma append_cons (x : ascii) (a b : string) :
  String x a +:+ b = String x (a +:+ b).
Proof. reflexivity. Qed.

Lemma append_assoc (a b c : string) : (a +:+ b) +:+ c = a +:+ (b +:+ c).
Proof.
  induction a as [|x a IH]; [done |].
  by rewrite !append_cons, IH.
Qed.

Lemma length_append (a b : string) :
  String.length (a +:+ b) = (String.length a + String.length b)%nat.
Proof.
  induction a as [|x a IH]; [done |].
  rewrite append_cons. simpl. by rewrite IH.
Qed.

Lemma scan_escape_char (c : ascii) (tl : string) :
  scan_string (escape_char c +:+ tl) = cons_char c (scan_string tl).
Proof. destruct c as [[] [] [] [] [] [] [] []]; reflexivity. Qed.

Lemma scan_escape (s tl : string) :
  scan_string (escape s +:+ String quote tl) = Some (s, tl).
Proof.
  induction s as [|c s IH]; [reflexivity |].
  change (escape (String c s)) with (escape_char c +:+ escape s).
  by rewrite append_assoc, scan_escape_char, IH.
Qed.

Lemma dumps_str_append (s tl : string) :
  dumps_str s +:+ tl = String quote (escape s +:+ String quote tl).
Proof. unfold dumps_str. by rewrite append_cons, append_assoc. Qed.

Lemma scan_tail_dumps (l : list string) (fuel : nat) :
  (length l < fuel)%nat → scan_tail fuel (dumps_tail l) = Some l.
Proof.
  revert fuel. induction l as [|x l IH]; intros [|fuel] Hlt; try (simpl in Hlt; lia).
  - reflexivity.
  - change (dumps_tail (x :: l)) with (", " +:+ dumps_str x +:+ dumps_tail l).
    rewrite dumps_str_append.
    change (scan_tail (S fuel) ?s) with
      (match scan_string (escape x +:+ String quote (dumps_tail l)) with
       | Some (y, rest) =>
         match scan_tail fuel rest with Some xs => Some (y :: xs) | None => None end
       | None => None
       end).
    rewrite scan_escape, IH by (simpl in Hlt; lia). done.
Qed.

Lemma dumps_tail_length (l : list string) :
  (length l < S (String.length (dumps_tail l)))%nat.
Proof.
  induction l as [|x l IH]; [simpl; lia |].
  change (dumps_tail (x :: l)) with (", " +:+ dumps_str x +:+ dumps_tail l).
  rewrite !append_cons. simpl in *. rewrite length_append. lia.
Qed.

Lemma loads_dumps_strs (l : list string) : loads_strs (dumps_strs l) = Some l.
Proof.
  destruct l as [|x l]; [reflexivity |].
  change (dumps_strs (x :: l)) with ("[" +:+ dumps_str x +:+ dumps_tail l).
  rewrite dumps_str_append.
  change (loads_strs ?s) with
    (match scan_string (escape x +:+ String quote (dumps_tail l)) with
     | Some (y, rest) =>
       match scan_tail (S (String.length rest)) rest with
       | Some xs => Some (y :: xs)
       | None => None
       end
     | None => None
     end).
  rewrite scan_escape, scan_tail_dumps by apply dumps_tail_length. done.
Qed.

Lemma dumps_strs_nonempty (l : list string) : String.eqb (dumps_strs l) "" = false.
Proof. by destruct l. Qed.

Lemma as_strs_fmap (l : list string) : as_strs (PStr <$> l) = Some l.
Proof.
  induction l as [|x l IH]; [done |].
  rewrite fmap_cons. cbn [as_strs]. by rewrite IH.
Qed.

Lemma as_strs_inv (l : list pyval) (strs : list string) :
  as_strs l = Some strs → l = PStr <$> strs.
Proof.
  revert strs. induction l as [|[] l IH]; intros strs Hl; simpl in Hl; try done.
  - by inversion Hl.
  - destruct (as_strs l) as [strs'|]; [|done]. inversion Hl; subst.
    rewrite fmap_cons. by rewrite (IH strs').
Qed.

End JsonFacts.

(** ** The engine and the connection *)

Section EngineFacts.
Context `{Libs}.

Lemma string_compare_refl (s : string) : String.compare s s = Eq.
Proof.
  pose proof (String.compare_antisym s s) as Ha.
  destruct (String.compare s s); simpl in Ha; congruence.
Qed.

Lemma sql_eqb_text (a : sqlval) (s : string) :
  sql_eqb a (SText s) = true ↔ a = SText s.
Proof.
  split.
  - destruct a as [|z|f|t]; simpl; try done.
    destruct (String.compare t s) eqn:Hc; try done.
    intros _. by rewrite (String.compare_eq_iff _ _ Hc).
  - intros ->. simpl. unfold sql_compare. by rewrite string_compare_refl.
Qed.

Lemma matches_text (id : string) (r : row) :
  matches (SText id) r = true ↔ r !! "id" = Some (SText id).
Proof.
  unfold matches, key_of. simpl. rewrite sql_eqb_text.
  destruct (r !! "id") as [v|]; simpl; split; congruence.
Qed.

Lemma matches_text_false (id : string) (r : row) :
  r !! "id" ≠ Some (SText id) → matches (SText id) r = false.
Proof.
  intros Hne. destruct (matches (SText id) r) eqn:Hm; [|done].
  by apply matches_text in Hm.
Qed.

Lemma filter_fresh (id : string) (rows : list row) :
  fresh_id id rows → List.filter (matches (SText id)) rows = [].
Proof.
  induction 1 as [|r rows Hr _ IH]; [done |].
  simpl. by rewrite (matches_text_false _ _ Hr).
Qed.

Lemma filter_not_fresh (id : string) (rows : list row) :
  fresh_id id rows → List.filter (λ r, negb (matches (SText id) r)) rows = rows.
Proof.
  induction 1 as [|r rows Hr _ IH]; [done |].
  simpl. rewrite (matches_text_false _ _ Hr). simpl. by rewrite IH.
Qed.

Lemma bind_bindable (v : pyval) : bindable v = true → bind v = Ok (sql_of v).
Proof. destruct v; simpl; try done. unfold int64. by intros ->. Qed.

Lemma traverse_bind (vs : list pyval) :
  Forall (λ v, bindable v = true) vs → traverse bind vs = Ok (sql_of <$> vs).
Proof.
  induction 1 as [|v vs Hv _ IH]; [done |].
  simpl. by rewrite (bind_bindable _ Hv), IH.
Qed.

Lemma new_row_lookup (cols : list column) (given : gmap string sqlval)
  (ts c : string) :
  new_row cols given ts !! c =
  (λ col, match given !! col_name col with
          | Some v => apply_affinity (col_affinity col) v
          | None => default_of col ts
          end) <$> find_column cols c.
Proof.
  unfold new_row, find_column.
  induction cols as [|col cols IH]; [done |].
  rewrite fmap_cons. cbn [list_to_map foldr List.find].
  destruct (String.eqb_spec (col_name col) c) as [<-|Hne].
  - by rewrite lookup_insert_eq.
  - rewrite lookup_insert_ne by done. apply IH.
Qed.

Lemma check_not_null_ok (t : string) (cols : list column) (r : row) :
  Forall (λ c, col_notnull c = true → is_null_at r (col_name c) = false) cols →
  check_not_null t cols r = Ok tt.
Proof.
  unfold check_not_null. induction 1 as [|c cols Hc _ IH]; [done |].
  simpl. destruct (col_notnull c); simpl; [by rewrite Hc |]; done.
Qed.

Lemma check_unique_fresh (t id : string) (rows : list row) (r : row) :
  fresh_id id rows → key_of "id" r = SText id → check_unique t rows r = Ok tt.
Proof.
  intros Hf Hr. unfold check_unique. rewrite Hr.
  replace (existsb _ rows) with false; [done |].
  induction Hf as [|old rows Ho _ IH]; [done |].
  simpl. rewrite <- IH, orb_false_r. symmetry.
  destruct (sql_eqb (key_of "id" old) (SText id)) eqn:He; [|done].
  apply sql_eqb_text in He. unfold key_of in He.
  destruct (old !! "id") as [v|]; simpl in He; [|done]. by subst.
Qed.

Lemma assoc_list_to_map {A} (l : list (string * A)) (k : string) :
  (list_to_map l : gmap string A) !! k = assoc k l.
Proof.
  induction l as [|[k' a] l IH]; [done |].
  cbn [list_to_map foldr assoc]. destruct (String.eqb_spec k' k) as [<-|Hne].
  - by rewrite lookup_insert_eq.
  - by rewrite lookup_insert_ne.
Qed.

Lemma store_eta (st : store) :
  Store (data st) (current_timestamp st) (events st) = st.
Proof. by destruct st. Qed.

(** With no event scheduled, a command is its statement run on the
    committed data, committed when it succeeds. *)
Lemma execute_command_healthy (q : stmt) (ps : list pyval) (st : store) :
  events st = [] →
  execute_command q ps st =
  match exec_stmt q ps (current_timestamp st) (data st) with
  | Ok (cur, db') => (Ok (rowcount cur), Store db' (current_timestamp st) [])
  | Raise (SqliteError m) => (Raise (DatabaseError ("Database error: " +:+ m)), st)
  | Raise e => (Raise e, st)
  end.
Proof.
  intros Hev. unfold execute_command, get_connection, connect, execute.
  rewrite Hev. cbn [fault pending clock durable].
  destruct (exec_stmt q ps (current_timestamp st) (data st)) as [[cur db']|e].
  - unfold close, commit. cbn [fault pending clock durable]. by rewrite Hev.
  - destruct e; unfold close, rollback; cbn [fault pending clock durable];
      by rewrite store_eta.
Qed.

Lemma execute_query_healthy (q : stmt) (ps : list pyval) (st : store) :
  events st = [] →
  execute_query q ps st =
  match exec_stmt q ps (current_timestamp st) (data st) with
  | Ok (cur, _) => (Ok (dict <$> fetchall cur), st)
  | Raise (SqliteError m) => (Raise (DatabaseError ("Database error: " +:+ m)), st)
  | Raise e => (Raise e, st)
  end.
Proof.
  intros Hev. unfold execute_query, get_connection, connect, execute.
  rewrite Hev. cbn [fault pending clock durable].
  destruct (exec_stmt q ps (current_timestamp st) (data st)) as [[cur db']|e].
  - unfold close. cbn [fault pending clock durable]. by rewrite store_eta.
  - destruct e; unfold close, rollback; cbn [fault pending clock durable];
      by rewrite store_eta.
Qed.

Lemma table_columns_of (e : entity) : is_Some (table_columns (table_of e)).
Proof. by destruct e. Qed.

(** Selecting by identifier on a table of the schema. *)
Lemma exec_select_by_id (t id ts : string) (db : database)
  (cols : list column) (rows : list row) :
  table_columns t = Some cols → db !! t = Some rows →
  exec_stmt (SelectById t) [PStr id] ts db =
  Ok (Cursor (List.filter (matches (SText id)) rows) (-1), db).
Proof.
  intros Hc Hr. unfold exec_stmt, open_table. by rewrite Hc, Hr.
Qed.

Lemma exec_delete_by_id (t id ts : string) (db : database)
  (cols : list column) (rows : list row) :
  table_columns t = Some cols → db !! t = Some rows →
  exec_stmt (DeleteById t) [PStr id] ts db =
  Ok (Cursor [] (row_count (List.filter (matches (SText id)) rows)),
      <[t := List.filter (λ r, negb (matches (SText id) r)) rows]> db).
Proof.
  intros Hc Hr. unfold exec_stmt, open_table. by rewrite Hc, Hr.
Qed.

(** An INSERT whose parameters bind, whose row passes the NOT NULL
    checks and whose identifier is new appends that row. *)
Lemma exec_insert (t ts id : string) (names : list string) (ps : list pyval)
  (db : database) (cols : list column) (rows : list row) :
  table_columns t = Some cols → db !! t = Some rows →
  Forall (λ n, is_Some (find_column cols n)) names →
  length ps = length names →
  Forall (λ v, bindable v = true) ps →
  let r := new_row cols (list_to_map (zip names (sql_of <$> ps))) ts in
  check_not_null t cols r = Ok tt →
  key_of "id" r = SText id →
  fresh_id id rows →
  exec_stmt (Insert t names) ps ts db =
  Ok (Cursor [] 1, <[t := (rows ++ [r])%list]> db).
Proof.
  intros Hc Hr Hn Hl Hb r Hnn Hid Hf. unfold exec_stmt, open_table.
  rewrite Hc, Hr. cbn [rbind].
  assert (∃ l, traverse (named_column t cols ("table " +:+ t +:+ " has no column named ")) names = Ok l)
    as [l ->].
  { clear -Hn. induction Hn as [|n names [c Hn] _ [l IH]]; [by eexists |].
    cbn [traverse]. unfold named_column at 1. rewrite Hn. cbn [rbind].
    rewrite IH. by eexists. }
  cbn [rbind]. unfold check_arity. rewrite Hl, Nat.eqb_refl. cbn [rbind].
  rewrite (traverse_bind _ Hb). cbn [rbind]. fold r. rewrite Hnn. cbn [rbind].
  by rewrite (check_unique_fresh t id rows r Hf Hid).
Qed.

(** A healthy store: no failure is scheduled. *)
Lemma insert_then_select (t id : string) (names : list string) (ps : list pyval)
  (st : store) (cols : list column) (rows : list row) :
  events st = [] →
  table_columns t = Some cols → data st !! t = Some rows →
  Forall (λ n, is_Some (find_column cols n)) names →
  length ps = length names →
  Forall (λ v, bindable v = true) ps →
  let r := new_row cols (list_to_map (zip names (sql_of <$> ps))) (current_timestamp st) in
  let st' := Store (<[t := (rows ++ [r])%list]> (data st)) (current_timestamp st) [] in
  check_not_null t cols r = Ok tt →
  key_of "id" r = SText id →
  fresh_id id rows →
  execute_command (Insert t names) ps st = (Ok 1, st') ∧
  execute_query (SelectById t) [PStr id] st' = (Ok [dict r], st').
Proof.
  intros Hev Hc Hr Hn Hl Hb r st' Hnn Hid Hf. split.
  - rewrite (execute_command_healthy _ _ _ Hev).
    by rewrite (exec_insert t _ id names ps _ cols rows Hc Hr Hn Hl Hb Hnn Hid Hf).
  - rewrite (execute_query_healthy _ _ st') by done.
    rewrite (exec_select_by_id t id _ _ cols (rows ++ [r])%list Hc)
      by (subst st'; cbn [data]; apply lookup_insert_eq).
    cbn [fetchall]. rewrite List.filter_app, (filter_fresh _ _ Hf).
    cbn [List.filter app]. replace (matches (SText id) r) with true; [done |].
    symmetry. apply matches_text. unfold key_of in Hid.
    destruct (r !! "id") as [v|]; simpl in Hid; by subst.
Qed.

(** Fields read through [get] keep the type of the data model. *)
Lemma get_conforms (e : entity) (d : pydict) (k : string) (dflt : pyval)
  (ft : field_type) :
  valid_fields e d → assoc k (fields_of e) = Some ft →
  conforms ft dflt = true → conforms ft (get d k dflt) = true.
Proof.
  intros Hv Hk Hd. unfold get. destruct (d !! k) as [v|] eqn:Hdk; [|done].
  simpl. by apply (Hv k v ft).
Qed.

Lemma conforms_bindable (ft : field_type) (v : pyval) :
  conforms ft v = true → ft ≠ StrList → bindable v = true.
Proof. destruct ft, v; simpl; try done. Qed.

Lemma conforms_text_req (v : pyval) :
  conforms TextReq v = true → ∃ s, v = PStr s.
Proof. destruct v; simpl; try done. by eexists. Qed.

Lemma conforms_str_list (v : pyval) :
  conforms StrList v = true → ∃ l, v = PList (PStr <$> l).
Proof.
  destruct v as [| | | | |l]; simpl; try done.
  destruct (Json.as_strs l) as [strs|] eqn:Hl; [|done].
  intros _. exists strs. by rewrite (JsonFacts.as_strs_inv _ _ Hl).
Qed.

Lemma text_round_trip (ft : field_type) (v : pyval) :
  conforms ft v = true → ft = TextReq ∨ ft = TextOpt →
  to_py (apply_affinity AffText (sql_of v)) = v.
Proof. intros Hc [-> | ->]; by destruct v. Qed.

Lemma json_dumps_strs (l : list string) :
  json_dumps (PList (PStr <$> l)) = Json.dumps_strs l.
Proof. unfold json_dumps. by rewrite JsonFacts.as_strs_fmap. Qed.

(** What [json.dumps] wrote for a list of strings, [json.loads] reads back. *)
Lemma loads_dumps (l : list string) :
  json_loads (py_or (PStr (json_dumps (PList (PStr <$> l)))) (PStr "[]")) =
  Ok (PList (PStr <$> l)).
Proof.
  rewrite json_dumps_strs. unfold py_or, truthy.
  rewrite JsonFacts.dumps_strs_nonempty. cbn [negb].
  unfold json_loads. by rewrite JsonFacts.loads_dumps_strs.
Qed.

Lemma parse_json_field_encoded (k : string) (rec : pydict) (l : list string) :
  rec !! k = Some (PStr (json_dumps (PList (PStr <$> l)))) →
  parse_json_field k rec = Ok (<[k := PList (PStr <$> l)]> rec).
Proof.
  intros Hk. unfold parse_json_field, getitem. rewrite Hk. cbn [rbind].
  by rewrite loads_dumps.
Qed.

End EngineFacts.

(** ** Creating a record *)

Section CreateFacts.
Context `{Libs}.

Lemma create_params_bindable (e : entity) (uuid4 now : string) (d : pydict) :
  valid_fields e d → Forall (λ v, bindable v = true) (create_params e uuid4 now d).
Proof.
  intros Hv.
  destruct e; unfold create_params;
    repeat first [apply List.Forall_nil | apply List.Forall_cons];
    try reflexivity;
    (eapply conforms_bindable;
     [eapply (get_conforms _ _ _ _ _ Hv); reflexivity | discriminate]).
Qed.

Ltac text_req Hv k :=
  let s := fresh "s" in
  let Hs := fresh "Hs" in
  destruct (conforms_text_req _
              (get_conforms _ _ k (PStr "") TextReq Hv eq_refl eq_refl)) as [s Hs];
  rewrite Hs.

Ltac not_null_columns :=
  apply check_not_null_ok;
  repeat first [apply List.Forall_nil | apply List.Forall_cons];
  intros Hn; first [discriminate Hn | reflexivity].

Lemma created_row_not_null (e : entity) (uuid4 now : string) (d : pydict) (ts : string) :
  valid_fields e d →
  check_not_null (table_of e) (columns_of e) (created_row e uuid4 now d ts) = Ok tt.
Proof.
  intros Hv. destruct e; unfold created_row, create_params.
  - text_req Hv "title". text_req Hv "company". not_null_columns.
  - text_req Hv "name". not_null_columns.
  - text_req Hv "name". text_req Hv "company". not_null_columns.
  - text_req Hv "company". not_null_columns.
  - text_req Hv "name". text_req Hv "keywords". not_null_columns.
  - text_req Hv "company". text_req Hv "role". not_null_columns.
Qed.

Lemma created_row_id (e : entity) (uuid4 now : string) (d : pydict) (ts : string) :
  created_row e uuid4 now d ts !! "id" = Some (SText uuid4).
Proof. by destruct e. Qed.

Lemma insert_columns_exist (e : entity) :
  Forall (λ n, is_Some (find_column (columns_of e) n)) (insert_columns e).
Proof.
  destruct e; repeat first [apply List.Forall_nil | apply List.Forall_cons];
    by eexists.
Qed.

Lemma table_columns_of_entity (e : entity) :
  table_columns (table_of e) = Some (columns_of e).
Proof. by destruct e. Qed.

Lemma created_row_stored (e : entity) (uuid4 now : string) (d : pydict)
  (st : store) (rows : list row) :
  events st = [] → data st !! table_of e = Some rows →
  fresh_id uuid4 rows → valid_fields e d →
  let r := created_row e uuid4 now d (current_timestamp st) in
  let st' := with_row (table_of e) rows r st in
  execute_command (Insert (table_of e) (insert_columns e))
    (create_params e uuid4 now d) st = (Ok 1, st') ∧
  execute_query (SelectById (table_of e)) [PStr uuid4] st' = (Ok [dict r], st').
Proof.
  intros Hev Hr Hf Hv.
  apply (insert_then_select _ uuid4 _ _ st (columns_of e) rows); try done.
  - apply table_columns_of_entity.
  - apply insert_columns_exist.
  - by destruct e.
  - by apply create_params_bindable.
  - by apply created_row_not_null.
  - unfold key_of. fold (created_row e uuid4 now d (current_timestamp st)).
    by rewrite created_row_id.
Qed.

Lemma list_field_stored (e : entity) (uuid4 now : string) (d : pydict)
  (ts k : string) :
  k ∈ list_fields e →
  created_row e uuid4 now d ts !! k =
  Some (SText (json_dumps (get d k (PList [])))).
Proof.
  destruct e; cbn [list_fields]; intros Hk;
    repeat (apply elem_of_cons in Hk as [-> | Hk]; [reflexivity |]);
    by apply elem_of_nil in Hk.
Qed.

Lemma list_field_valid (e : entity) (d : pydict) (k : string) :
  valid_fields e d → k ∈ list_fields e →
  ∃ l, get d k (PList []) = PList (PStr <$> l).
Proof.
  intros Hv Hk. apply conforms_str_list.
  destruct e; cbn [list_fields] in Hk;
    repeat (apply elem_of_cons in Hk as [-> | Hk];
            [by apply (get_conforms _ _ _ _ _ Hv) |]);
    by apply elem_of_nil in Hk.
Qed.

Ltac in_list := repeat first [apply list_elem_of_here | apply list_elem_of_further].

Lemma decode_created (e : entity) (uuid4 now : string) (d : pydict) (ts k1 k2 : string) :
  valid_fields e d → list_fields e = [k1; k2] → k1 ≠ k2 →
  rbind (parse_json_field k1 (dict (created_row e uuid4 now d ts)))
        (parse_json_field k2) =
  Ok (created_record e uuid4 now d ts).
Proof.
  intros Hv Hl Hne.
  destruct (list_field_valid e d k1 Hv) as [l1 Hl1]; [rewrite Hl; in_list |].
  destruct (list_field_valid e d k2 Hv) as [l2 Hl2]; [rewrite Hl; in_list |].
  rewrite (parse_json_field_encoded k1 _ l1).
  2:{ unfold dict. rewrite lookup_fmap, (list_field_stored e), Hl1; [done |].
      rewrite Hl; in_list. }
  cbn [rbind]. rewrite (parse_json_field_encoded k2 _ l2).
  2:{ rewrite lookup_insert_ne by exact Hne.
      unfold dict. rewrite lookup_fmap, (list_field_stored e), Hl2; [done |].
      rewrite Hl; in_list. }
  unfold created_record. rewrite Hl. cbn [foldl]. by rewrite Hl1, Hl2.
Qed.

Lemma get_created (e : entity) (uuid4 now : string) (d : pydict) (ts : string)
  (st' : store) :
  valid_fields e d →
  execute_query (SelectById (table_of e)) [PStr uuid4] st' =
    (Ok [dict (created_row e uuid4 now d ts)], st') →
  get_one e uuid4 st' = (Ok (Some (created_record e uuid4 now d ts)), st').
Proof.
  intros Hv Hsel.
  destruct e; cbn [get_one table_of] in *;
    unfold get_job, get_company, get_contact, get_offer, get_job_alert,
      get_interview_session, and_then;
    rewrite Hsel; try reflexivity.
  - pose proof (decode_created Job uuid4 now d ts "requirements" "tags" Hv eq_refl) as Hd.
    unfold lift, ret.
    destruct (parse_json_field "requirements" _) as [rec1|]; cbn [rbind] in Hd;
      [|discriminate Hd; done]. rewrite Hd; done.
  - pose proof (decode_created InterviewSession uuid4 now d ts "questions" "answers"
                  Hv eq_refl) as Hd.
    unfold lift, ret.
    destruct (parse_json_field "questions" _) as [rec1|]; cbn [rbind] in Hd;
      [|discriminate Hd; done]. rewrite Hd; done.
Qed.

(** Creating a record stores one row and returns it as [get] reads it. *)
Lemma create_stores (e : entity) (uuid4 now : string) (d : pydict)
  (st : store) (rows : list row) :
  events st = [] → data st !! table_of e = Some rows →
  fresh_id uuid4 rows → valid_fields e d →
  let r := created_row e uuid4 now d (current_timestamp st) in
  let st' := with_row (table_of e) rows r st in
  let rec := created_record e uuid4 now d (current_timestamp st) in
  create e uuid4 now d st = (Ok (Some rec), st') ∧
  get_one e uuid4 st' = (Ok (Some rec), st').
Proof.
  intros Hev Hr Hf Hv r st' rec.
  destruct (created_row_stored e uuid4 now d st rows Hev Hr Hf Hv) as [Hins Hsel].
  pose proof (get_created e uuid4 now d _ _ Hv Hsel) as Hget.
  split; [|exact Hget].
  subst rec st' r. rewrite <- Hget. clear Hget Hsel.
  destruct e; cbn [create get_one];
    unfold create_job, create_company, create_contact, create_offer,
      create_job_alert, create_interview_session;
    unfold and_then at 1.
  - change (execute_command _ _ st) with
      (execute_command (Insert (table_of Job) (insert_columns Job))
         (create_params Job uuid4 now d) st).
    by rewrite Hins.
  - change (execute_command _ _ st) with
      (execute_command (Insert (table_of Company) (insert_columns Company))
         (create_params Company uuid4 now d) st).
    by rewrite Hins.
  - change (execute_command _ _ st) with
      (execute_command (Insert (table_of Contact) (insert_columns Contact))
         (create_params Contact uuid4 now d) st).
    by rewrite Hins.
  - change (execute_command _ _ st) with
      (execute_command (Insert (table_of Offer) (insert_columns Offer))
         (create_params Offer uuid4 now d) st).
    by rewrite Hins.
  - change (execute_command _ _ st) with
      (execute_command (Insert (table_of JobAlert) (insert_columns JobAlert))
         (create_params JobAlert uuid4 now d) st).
    by rewrite Hins.
  - change (execute_command _ _ st) with
      (execute_command (Insert (table_of InterviewSession) (insert_columns InterviewSession))
         (create_params InterviewSession uuid4 now d) st).
    by rewrite Hins.
Qed.

End CreateFacts.

(** ** Updating rows *)

Ltac not_in_list :=
  let Hin := fresh "Hin" in
  intros Hin;
  repeat (apply elem_of_cons in Hin as [Hin | Hin]; [discriminate Hin |]);
  by apply elem_of_nil in Hin.

Section UpdateFacts.
Context `{Libs}.

Lemma traverse_inv {A B} (f : A → result B) (l : list A) (l' : list B) :
  traverse f l = Ok l' → Forall2 (λ x y, f x = Ok y) l l'.
Proof.
  revert l'. induction l as [|x l IH]; intros l' Hl; simpl in Hl.
  - inversion Hl. constructor.
  - destruct (f x) as [y|] eqn:Hx; [|done]. simpl in Hl.
    destruct (traverse f l) as [ys|]; [|done]. simpl in Hl.
    inversion Hl; subst. constructor; [done | by apply IH].
Qed.

Lemma traverse_total {A B} (f : A → result B) (g : A → B) (l : list A) :
  (∀ x, f x = Ok (g x)) → traverse f l = Ok (g <$> l).
Proof.
  intros Hf. induction l as [|x l IH]; [done |].
  simpl. by rewrite Hf, IH.
Qed.

Lemma updated_other_from (assigns : list (column * (row → sqlval)))
  (old acc : row) (c : string) :
  c ∉ assigned assigns →
  foldl (λ r '(c, f), <[col_name c := apply_affinity (col_affinity c) (f old)]> r)
        acc assigns !! c = acc !! c.
Proof.
  revert acc. induction assigns as [|[col f] assigns IH]; intros acc Hc; [done |].
  cbn [foldl]. unfold assigned in Hc. rewrite fmap_cons in Hc.
  apply not_elem_of_cons in Hc as [Hne Hc].
  rewrite IH by exact Hc. by rewrite lookup_insert_ne.
Qed.

Lemma updated_other (assigns : list (column * (row → sqlval))) (old : row)
  (c : string) :
  c ∉ assigned assigns → updated assigns old !! c = old !! c.
Proof. apply updated_other_from. Qed.

Lemma resolve_assigned (targets : list (column * expr)) (vals : list sqlval) :
  assigned (resolve targets vals).1 = (λ a, col_name a.1) <$> targets.
Proof.
  revert vals. induction targets as [|[col e] targets IH]; intros vals; [done |].
  cbn [resolve]. destruct e.
  - specialize (IH (tail vals)). destruct (resolve targets (tail vals)) as [l rest].
    unfold assigned in *. cbn [fst] in *. rewrite !fmap_cons. f_equal. exact IH.
  - specialize (IH vals). destruct (resolve targets vals) as [l rest].
    unfold assigned in *. cbn [fst] in *. rewrite !fmap_cons. f_equal. exact IH.
Qed.

Lemma find_column_name (cols : list column) (c : string) (col : column) :
  find_column cols c = Some col → col_name col = c.
Proof.
  unfold find_column. intros Hf. apply List.find_some in Hf as [_ He].
  by apply String.eqb_eq in He.
Qed.

(** The columns named in a SET list, once resolved, keep their names. *)
Lemma targets_names (t : string) (cols : list column)
  (sets : list (string * expr)) (targets : list (column * expr)) :
  traverse (λ '(c, e),
     rbind (named_column t cols "no such column: " c) (λ col,
     rbind (match e with
            | Param => Ok tt
            | NotCol src =>
              rbind (named_column t cols "no such column: " src) (λ _, Ok tt)
            end) (λ _, Ok (col, e)))) sets = Ok targets →
  (λ a, col_name a.1) <$> targets = sets.*1.
Proof.
  intros Ht. apply traverse_inv in Ht.
  induction Ht as [|[c e] [col e'] sets targets Hx _ IH]; [done |].
  rewrite !fmap_cons, IH. f_equal. cbn [fst].
  unfold named_column at 1 in Hx.
  destruct (find_column cols c) as [col0|] eqn:Hc; [|done]. cbn [rbind] in Hx.
  destruct (match e with Param => _ | NotCol _ => _ end); [|done].
  cbn [rbind] in Hx. inversion Hx; subst. by apply find_column_name in Hc.
Qed.

(** An UPDATE that succeeds replaces the rows of its table one for one,
    and leaves alone every column that its SET list does not name. *)
Lemma exec_update_frame (t : string) (sets : list (string * expr))
  (ps : list pyval) (ts : string) (db db' : database) (cur : cursor) :
  exec_stmt (UpdateById t sets) ps ts db = Ok (cur, db') →
  ∃ rows rows',
    db !! t = Some rows ∧ db' = <[t := rows']> db ∧
    Forall2 (λ r r', ∀ c, c ∉ sets.*1 → r' !! c = r !! c) rows rows'.
Proof.
  unfold exec_stmt, open_table. intros He.
  destruct (table_columns t) as [cols|]; [|done].
  destruct (db !! t) as [rows|] eqn:Hr; [|done]. cbn [rbind] in He.
  destruct (traverse _ sets) as [targets|] eqn:Ht; [|done]. cbn [rbind] in He.
  destruct (check_arity _ ps); [|done]. cbn [rbind] in He.
  destruct (traverse bind ps) as [vals|]; [|done]. cbn [rbind] in He.
  pose proof (resolve_assigned targets vals) as Hn.
  destruct (resolve targets vals) as [assigns rest]. cbn [fst] in Hn.
  rewrite (targets_names _ _ _ _ Ht) in Hn.
  destruct (traverse _ rows) as [rows'|] eqn:Hrows; [|done]. cbn [rbind] in He.
  inversion He; subst. exists rows, rows'. split; [done |]. split; [done |].
  apply traverse_inv in Hrows.
  eapply Forall2_impl; [exact Hrows |]. intros r r' Hrr' c Hc. cbn beta in Hrr'.
  destruct (matches _ r); [|by inversion Hrr'].
  unfold update_row in Hrr'. destruct (check_not_null _ _ _); [|done].
  cbn [rbind] in Hrr'. inversion Hrr'; subst.
  apply (updated_other assigns r c). by rewrite Hn.
Qed.

(** An UPDATE whose names resolve, whose parameters bind and whose new
    rows pass the NOT NULL checks rewrites every matching row. *)
Lemma exec_update (t ts : string) (sets : list (string * expr)) (ps : list pyval)
  (db : database) (cols : list column) (rows : list row)
  (targets : list (column * expr)) (assigns : list (column * (row → sqlval)))
  (rest : list sqlval) :
  table_columns t = Some cols → db !! t = Some rows →
  resolve_targets t cols sets = Ok targets →
  length ps = S (count_params sets) →
  Forall (λ v, bindable v = true) ps →
  resolve targets (sql_of <$> ps) = (assigns, rest) →
  (∀ r, check_not_null t (assigns.*1) (updated assigns r) = Ok tt) →
  let key := default SNull (head rest) in
  exec_stmt (UpdateById t sets) ps ts db =
  Ok (Cursor [] (row_count (List.filter (matches key) rows)),
      <[t := update_rows key assigns rows]> db).
Proof.
  intros Hc Hr Ht Hl Hb Hres Hnn key. unfold exec_stmt, open_table.
  rewrite Hc, Hr. cbn [rbind]. unfold resolve_targets in Ht. rewrite Ht.
  cbn [rbind]. unfold check_arity. rewrite Hl, Nat.eqb_refl. cbn [rbind].
  rewrite (traverse_bind _ Hb). cbn [rbind]. rewrite Hres. fold key.
  rewrite (traverse_total _ (λ r, if matches key r then updated assigns r else r)).
  - done.
  - intros r. destruct (matches key r); [|done].
    unfold update_row. fold (updated assigns r). by rewrite Hnn.
Qed.

Lemma matches_same_id (key : sqlval) (r r' : row) :
  r' !! "id" = r !! "id" → matches key r' = matches key r.
Proof. intros Hid. unfold matches, key_of. by rewrite Hid. Qed.

Lemma filter_update_rows (key : sqlval)
  (assigns : list (column * (row → sqlval))) (rows : list row) :
  "id" ∉ assigned assigns →
  List.filter (matches key) (update_rows key assigns rows) =
  updated assigns <$> List.filter (matches key) rows.
Proof.
  intros Hid. unfold update_rows.
  induction rows as [|r rows IH]; [done |].
  rewrite fmap_cons. cbn [List.filter].
  destruct (matches key r) eqn:Hm.
  - rewrite (matches_same_id key r (updated assigns r)), Hm
      by (by apply updated_other).
    rewrite fmap_cons. by rewrite IH.
  - by rewrite Hm, IH.
Qed.

Lemma update_then_select (t id : string) (sets : list (string * expr))
  (ps : list pyval) (st : store) (cols : list column) (rows : list row)
  (targets : list (column * expr)) (assigns : list (column * (row → sqlval))) :
  events st = [] →
  table_columns t = Some cols → data st !! t = Some rows →
  resolve_targets t cols sets = Ok targets →
  length ps = S (count_params sets) →
  Forall (λ v, bindable v = true) ps →
  resolve targets (sql_of <$> ps) = (assigns, [SText id]) →
  (∀ r, check_not_null t (assigns.*1) (updated assigns r) = Ok tt) →
  "id" ∉ assigned assigns →
  let hit := List.filter (matches (SText id)) rows in
  let st' := with_rows t (update_rows (SText id) assigns rows) st in
  execute_command (UpdateById t sets) ps st = (Ok (row_count hit), st') ∧
  execute_query (SelectById t) [PStr id] st' = (Ok (dict <$> (updated assigns <$> hit)), st').
Proof.
  intros Hev Hc Hr Ht Hl Hb Hres Hnn Hid hit st'. split.
  - rewrite (execute_command_healthy _ _ _ Hev).
    by rewrite (exec_update t _ sets ps _ cols rows targets assigns _ Hc Hr Ht Hl Hb Hres Hnn).
  - rewrite (execute_query_healthy _ _ st') by done.
    rewrite (exec_select_by_id t id _ _ cols (update_rows (SText id) assigns rows) Hc)
      by (subst st'; cbn [data with_rows]; apply lookup_insert_eq).
    cbn [fetchall]. by rewrite filter_update_rows.
Qed.

Lemma toggle_job_alert_healthy (now id : string) (st : store) (rows : list row) :
  events st = [] → data st !! "job_alerts" = Some rows →
  let hit := List.filter (matches (SText id)) rows in
  toggle_job_alert now id st =
  (Ok (head (dict <$> (updated (toggle_assigns now) <$> hit))),
   with_rows "job_alerts" (update_rows (SText id) (toggle_assigns now) rows) st).
Proof.
  intros Hev Hr hit.
  edestruct (update_then_select "job_alerts" id
               [("is_active", NotCol "is_active"); ("updated_at", Param)]
               [PStr now; PStr id] st job_alerts_columns rows _ (toggle_assigns now)
               Hev eq_refl Hr eq_refl eq_refl) as [Hup Hsel].
  { by repeat constructor. }
  { reflexivity. }
  { intros r. reflexivity. }
  { unfold assigned, toggle_assigns. cbn. not_in_list. }
  unfold toggle_job_alert, and_then. rewrite Hup.
  unfold get_job_alert, and_then. by rewrite Hsel.
Qed.

Lemma run_job_alert_healthy (now1 now2 id : string) (st : store) (rows : list row) :
  events st = [] → data st !! "job_alerts" = Some rows →
  let hit := List.filter (matches (SText id)) rows in
  run_job_alert now1 now2 id st =
  (Ok (AlertRun (head (dict <$> (updated (run_assigns now1 now2) <$> hit))) []
         "Job alert executed (demo mode)"),
   with_rows "job_alerts" (update_rows (SText id) (run_assigns now1 now2) rows) st).
Proof.
  intros Hev Hr hit.
  edestruct (update_then_select "job_alerts" id
               [("last_run", Param); ("updated_at", Param)]
               [PStr now1; PStr now2; PStr id] st job_alerts_columns rows _
               (run_assigns now1 now2) Hev eq_refl Hr eq_refl eq_refl) as [Hup Hsel].
  { by repeat constructor. }
  { reflexivity. }
  { intros r. reflexivity. }
  { unfold assigned, run_assigns. cbn. not_in_list. }
  unfold run_job_alert, and_then. rewrite Hup.
  unfold get_job_alert, and_then. by rewrite Hsel.
Qed.

Lemma traverse_app {A B} (f : A → result B) (l1 l2 : list A) (l' : list B) :
  traverse f (l1 ++ l2)%list = Ok l' →
  ∃ l1' l2', l' = (l1' ++ l2')%list ∧ traverse f l1 = Ok l1' ∧ traverse f l2 = Ok l2'.
Proof.
  revert l'. induction l1 as [|x l1 IH]; intros l' Hl.
  - exists [], l'. by rewrite app_nil_l in Hl.
  - rewrite <- app_comm_cons in Hl. cbn [traverse] in *.
    destruct (f x) as [y|]; [|done]. cbn [rbind] in *.
    destruct (traverse f (l1 ++ l2)%list) as [ys|] eqn:Hys; [|done].
    cbn [rbind] in Hl. inversion Hl; subst.
    destruct (IH ys eq_refl) as (l1' & l2' & -> & -> & ->).
    by exists (y :: l1'), l2'.
Qed.

Lemma traverse_update_rows (t : string) (key : sqlval)
  (assigns : list (column * (row → sqlval))) (rows rows' : list row) :
  traverse (λ r, if matches key r then update_row t assigns r else Ok r) rows = Ok rows' →
  rows' = update_rows key assigns rows.
Proof.
  intros Hrows. apply traverse_inv in Hrows. unfold update_rows.
  induction Hrows as [|r r' rows rows' Hrr' _ IH]; [done |].
  rewrite fmap_cons, <- IH. f_equal.
  destruct (matches _ r); [|by inversion Hrr'].
  unfold update_row in Hrr'. destruct (check_not_null _ _ _); [|done].
  cbn [rbind] in Hrr'. by inversion Hrr'.
Qed.

Lemma exec_update_inv (t : string) (sets : list (string * expr))
  (ps : list pyval) (ts : string) (db db' : database) (cur : cursor) :
  exec_stmt (UpdateById t sets) ps ts db = Ok (cur, db') →
  ∃ cols rows targets vals assigns rest,
    table_columns t = Some cols ∧ db !! t = Some rows ∧
    resolve_targets t cols sets = Ok targets ∧
    traverse bind ps = Ok vals ∧
    resolve targets vals = (assigns, rest) ∧
    cur = Cursor [] (row_count (List.filter (matches (default SNull (head rest))) rows)) ∧
    db' = <[t := update_rows (default SNull (head rest)) assigns rows]> db.
Proof.
  unfold exec_stmt, open_table. intros He.
  destruct (table_columns t) as [cols|]; [|done].
  destruct (db !! t) as [rows|] eqn:Hr; [|done]. cbn [rbind] in He.
  destruct (traverse _ sets) as [targets|] eqn:Ht; [|done]. cbn [rbind] in He.
  destruct (check_arity _ ps); [|done]. cbn [rbind] in He.
  destruct (traverse bind ps) as [vals|]; [|done]. cbn [rbind] in He.
  destruct (resolve targets vals) as [assigns rest] eqn:Hres.
  destruct (traverse _ rows) as [rows'|] eqn:Hrows; [|done]. cbn [rbind] in He.
  inversion He; subst. exists cols, rows, targets, vals, assigns, rest.
  do 6 (split; [done |]). f_equal.
  by apply (traverse_update_rows t).
Qed.

(** All right-hand sides are parameters. *)
Lemma resolve_targets_params (t : string) (cols : list column)
  (names : list string) (targets : list (column * expr)) :
  resolve_targets t cols ((λ k, (k, Param)) <$> names) = Ok targets →
  ∃ cs, targets = (λ c, (c, Param)) <$> cs ∧
        Forall2 (λ k c, find_column cols k = Some c) names cs.
Proof.
  unfold resolve_targets. intros Ht. apply traverse_inv in Ht.
  revert targets Ht. induction names as [|k names IH]; intros targets Ht.
  - inversion Ht. by exists [].
  - rewrite fmap_cons in Ht. inversion Ht as [|? [col e] ? targets' Hx Hrest]; subst.
    destruct (IH _ Hrest) as (cs & -> & Hcs).
    unfold named_column in Hx. destruct (find_column cols k) as [c|] eqn:Hk; [|done].
    cbn [rbind] in Hx. inversion Hx; subst.
    exists (col :: cs). split; [done |]. by constructor.
Qed.

Lemma resolve_params (cs : list column) (vs rest : list sqlval) :
  length vs = length cs →
  resolve ((λ c, (c, Param)) <$> cs) (vs ++ rest)%list =
  ((λ cv, (cv.1, λ _ : row, cv.2)) <$> zip cs vs, rest).
Proof.
  revert vs. induction cs as [|c cs IH]; intros [|v vs] Hl; try done.
  rewrite fmap_cons. cbn [resolve]. rewrite <- app_comm_cons. cbn [tail head].
  rewrite IH by (simpl in Hl; lia). done.
Qed.

Lemma count_params_all (names : list string) :
  count_params ((λ k, (k, Param)) <$> names) = length names.
Proof. induction names as [|k names IH]; [done |]. rewrite fmap_cons. simpl. by rewrite IH. Qed.

Lemma updated_assigned_from (assigns : list (column * (row → sqlval)))
  (old acc : row) (col : column) (f : row → sqlval) :
  NoDup (assigned assigns) → (col, f) ∈ assigns →
  foldl (λ r '(c, f), <[col_name c := apply_affinity (col_affinity c) (f old)]> r)
        acc assigns !! col_name col =
  Some (apply_affinity (col_affinity col) (f old)).
Proof.
  revert acc. induction assigns as [|[c g] assigns IH]; intros acc Hnd Hin.
  - by apply elem_of_nil in Hin.
  - unfold assigned in Hnd. rewrite fmap_cons in Hnd.
    apply NoDup_cons in Hnd as [Hc Hnd]. cbn [foldl].
    apply elem_of_cons in Hin as [Heq | Hin].
    + inversion Heq; subst. rewrite updated_other_from by exact Hc.
      apply lookup_insert_eq.
    + by apply IH.
Qed.

Lemma update_item_key (kv kv' : string * pyval) :
  update_item kv = Some kv' → kv'.1 = kv.1 ∧ kv.1 ≠ "id".
Proof.
  destruct kv as [k v]. unfold update_item.
  destruct (String.eqb_spec k "id") as [->|Hne]; [done |].
  destruct (_ || _); intros Hkv; inversion Hkv; by subst.
Qed.

Lemma update_items_sublist (l : list (string * pyval)) :
  (omap update_item l).*1 `sublist_of` l.*1.
Proof.
  induction l as [|kv l IH]; [done |].
  cbn [omap list_omap]. rewrite fmap_cons.
  destruct (update_item kv) as [kv'|] eqn:Hkv.
  - rewrite fmap_cons. destruct (update_item_key _ _ Hkv) as [-> _].
    by apply sublist_skip.
  - by apply sublist_cons.
Qed.

Lemma update_items_NoDup (now : string) (d : pydict) :
  NoDup (update_items now d).*1.
Proof.
  eapply sublist_NoDup; [|apply update_items_sublist].
  apply NoDup_fst_map_to_list.
Qed.

Lemma update_items_keys (now : string) (d : pydict) (k : string) :
  k ∈ (update_items now d).*1 →
  k ≠ "id" ∧ (k = "updated_at" ∨ is_Some (d !! k)).
Proof.
  intros Hk. apply list_elem_of_fmap in Hk as ([k' v'] & -> & Hin).
  apply list_elem_of_omap in Hin as ([k0 v0] & Hin & Hkv).
  destruct (update_item_key _ _ Hkv) as [Heq Hne]. cbn [fst] in *. subst k0.
  split; [done |]. apply elem_of_map_to_list in Hin.
  destruct (decide (k' = "updated_at")) as [->|Hua]; [by left | right].
  rewrite lookup_insert_ne in Hin by done. by eexists.
Qed.

Lemma update_items_updated_at (now : string) (d : pydict) :
  ("updated_at", PStr now) ∈ update_items now d.
Proof.
  apply list_elem_of_omap. exists ("updated_at", PStr now). split; [|done].
  apply elem_of_map_to_list, lookup_insert_eq.
Qed.

Lemma bind_inv_all (pvs : list pyval) (vs : list sqlval) :
  traverse bind pvs = Ok vs → Forall2 (λ p v, bind p = Ok v) pvs vs.
Proof. apply traverse_inv. Qed.

(** What a call of [update_job] does on a healthy store: either it
    raises and the store is as before, or every row of the identifier
    was rewritten under a list of assignments that carries the new
    [updated_at], and the row is read back when there was one. *)
Lemma update_job_outcome (now id : string) (d : pydict) (st : store) :
  events st = [] →
  (snd (update_job now id d st) = st ∧ ∃ e, fst (update_job now id d st) = Raise e)
  ∨ ∃ rows assigns,
      data st !! "jobs" = Some rows ∧
      assigned assigns = (update_items now d).*1 ∧
      (∀ r, updated assigns r !! "updated_at" = Some (SText now)) ∧
      let st1 := with_rows "jobs" (update_rows (SText id) assigns rows) st in
      update_job now id d st =
      if 0 <? row_count (List.filter (matches (SText id)) rows)
      then get_job id st1 else (Ok None, st1).
Proof.
  intros Hev. unfold update_job. fold (update_items now d).
  set (items := update_items now d). unfold and_then.
  rewrite (execute_command_healthy _ _ _ Hev).
  destruct (exec_stmt _ _ _ _) as [[cur db']|e] eqn:Hex.
  2:{ left. destruct e; cbn [fst snd]; (split; [done | by eexists]). }
  right.
  apply exec_update_inv in Hex
    as (cols & rows & targets & vals & assigns & rest & Hc & Hr & Ht & Hb & Hres & -> & ->).
  injection Hc as <-.
  pose proof (resolve_assigned targets vals) as Hnames.
  rewrite Hres in Hnames. cbn [fst] in Hnames.
  rewrite (targets_names _ _ _ _ Ht) in Hnames.
  rewrite <- list_fmap_compose in Hnames.
  change (fst ∘ _) with (@fst string pyval) in Hnames.
  replace ((λ kv : string * pyval, (kv.1, Param)) <$> items)
    with ((λ k, (k, Param)) <$> items.*1) in Ht
    by (by rewrite <- list_fmap_compose).
  apply resolve_targets_params in Ht as (cs & -> & Hcs).
  apply traverse_app in Hb as (vs & vid & -> & Hvs & Hvid).
  cbn in Hvid. injection Hvid as <-.
  apply bind_inv_all in Hvs.
  rewrite resolve_params in Hres
    by (rewrite <- (Forall2_length _ _ _ Hvs), <- (Forall2_length _ _ _ Hcs);
        by rewrite !length_fmap).
  injection Hres as <- <-. cbn [head default].
  exists rows, ((λ cv, (cv.1, λ _ : row, cv.2)) <$> zip cs vs).
  split; [done |]. split; [done |].
  split; [|cbn [rowcount]; unfold with_rows; by destruct (0 <? _)].
  intros r.
  destruct (proj1 (list_elem_of_lookup _ _) (update_items_updated_at now d)) as [i Hi].
  assert ((update_items now d).*1 !! i = Some "updated_at") as Hk
    by (by rewrite list_lookup_fmap, Hi).
  assert ((update_items now d).*2 !! i = Some (PStr now)) as Hv
    by (by rewrite list_lookup_fmap, Hi).
  destruct (Forall2_lookup_l _ _ _ _ _ Hcs Hk) as (c & Hci & Hfind).
  destruct (Forall2_lookup_l _ _ _ _ _ Hvs Hv) as (v & Hvi & Hbind).
  cbn in Hfind, Hbind. injection Hfind as <-. injection Hbind as <-.
  apply (updated_assigned_from _ r r (text_notnull "updated_at") (λ _, SText now)).
  - rewrite Hnames. apply update_items_NoDup.
  - apply list_elem_of_fmap. exists (text_notnull "updated_at", SText now).
    split; [done |]. apply list_elem_of_lookup. exists i.
    by apply lookup_zip_Some.
Qed.

End UpdateFacts.

(** ** Reading records *)

Section ReadFacts.
Context `{Libs}.

Lemma exec_select_ordered (t key ts : string) (dir : direction) (db : database)
  (cols : list column) (rows : list row) :
  table_columns t = Some cols → db !! t = Some rows →
  is_Some (find_column cols key) →
  exec_stmt (SelectOrdered t key dir) [] ts db =
  Ok (Cursor (order_by key dir rows) (-1), db).
Proof.
  intros Hc Hr [c Hk]. unfold exec_stmt, open_table.
  rewrite Hc, Hr. cbn [rbind]. unfold named_column. by rewrite Hk.
Qed.

Lemma get_one_healthy (e : entity) (id : string) (st : store) (rows : list row) :
  events st = [] → data st !! table_of e = Some rows →
  get_one e id st =
  (match List.filter (matches (SText id)) rows with
   | [] => Ok None
   | r :: _ => rbind (decode_lists e (dict r)) (λ rec, Ok (Some rec))
   end, st).
Proof.
  intros Hev Hr.
  pose proof (execute_query_healthy (SelectById (table_of e)) [PStr id] st Hev) as Hq.
  rewrite (exec_select_by_id _ id _ _ _ rows (table_columns_of_entity e) Hr) in Hq.
  cbn [fetchall] in Hq.
  destruct e; cbn [get_one table_of] in *;
    unfold get_job, get_company, get_contact, get_offer, get_job_alert,
      get_interview_session, and_then; rewrite Hq;
    destruct (List.filter _ rows) as [|r rest]; try reflexivity.
  - rewrite fmap_cons. unfold lift, ret, decode_lists. cbn [list_fields foldl rbind].
    destruct (parse_json_field "requirements" (dict r)) as [rec1|]; [|done].
    cbn [rbind]. by destruct (parse_json_field "tags" rec1).
  - rewrite fmap_cons. unfold lift, ret, decode_lists. cbn [list_fields foldl rbind].
    destruct (parse_json_field "questions" (dict r)) as [rec1|]; [|done].
    cbn [rbind]. by destruct (parse_json_field "answers" rec1).
Qed.

Lemma get_all_healthy (e : entity) (st : store) (rows : list row) :
  events st = [] → data st !! table_of e = Some rows →
  get_all e st =
  (traverse (decode_lists e) (dict <$> order_by (order_of e).1 (order_of e).2 rows), st).
Proof.
  intros Hev Hr.
  pose proof (execute_query_healthy
                (SelectOrdered (table_of e) (order_of e).1 (order_of e).2) [] st Hev) as Hq.
  rewrite (exec_select_ordered _ _ _ _ _ _ rows (table_columns_of_entity e) Hr) in Hq
    by (destruct e; by eexists).
  cbn [fetchall] in Hq.
  destruct e; cbn [get_all table_of order_of fst snd] in *;
    unfold get_jobs, get_companies, get_contacts, get_offers, get_job_alerts,
      get_interview_sessions, and_then; rewrite Hq; unfold lift;
    try reflexivity;
    rewrite (traverse_total _ id) by done; by rewrite list_fmap_id.
Qed.

End ReadFacts.

(** ** The order of the rows returned *)

Section OrderFacts.
Context `{Libs}.

Lemma num_compare_antisym (a b : num) :
  num_compare a b = CompOpp (num_compare b a).
Proof.
  destruct a as [|m1 e1|], b as [|m2 e2|]; try reflexivity.
  cbn [num_compare]. rewrite (Z.min_comm e2 e1). apply Z.compare_antisym.
Qed.

Lemma sql_compare_antisym (a b : sqlval) :
  sql_compare a b = CompOpp (sql_compare b a).
Proof.
  destruct a, b; cbn [sql_compare class_rank]; try reflexivity;
    first [apply Z.compare_antisym | apply num_compare_antisym
          | apply String.compare_antisym].
Qed.

Lemma before_ordered (key : string) (dir : direction) (r1 r2 : row) :
  before dir (key_of key r1) (key_of key r2) = true → ordered key dir r1 r2.
Proof.
  unfold before, ordered, sql_le. destruct dir.
  - by destruct (sql_compare _ _).
  - rewrite (sql_compare_antisym (key_of key r2)).
    by destruct (sql_compare (key_of key r1) _).
Qed.

Lemma not_before_ordered (key : string) (dir : direction) (r1 r2 : row) :
  before dir (key_of key r1) (key_of key r2) = false → ordered key dir r2 r1.
Proof.
  unfold before, ordered, sql_le. destruct dir.
  - rewrite (sql_compare_antisym (key_of key r2)).
    by destruct (sql_compare (key_of key r1) _).
  - by destruct (sql_compare _ _).
Qed.

Lemma place_permutation (key : string) (dir : direction) (r : row) (l : list row) :
  Permutation (place key dir r l) (r :: l).
Proof.
  induction l as [|x l IH]; [done |].
  cbn [place]. destruct (before dir _ _); [done |].
  rewrite IH. apply perm_swap.
Qed.

Lemma place_hd (key : string) (dir : direction) (r x : row) (l : list row) :
  ordered key dir x r → HdRel (ordered key dir) x l →
  HdRel (ordered key dir) x (place key dir r l).
Proof.
  intros Hxr Hl. destruct l as [|y l]; cbn [place]; [by constructor |].
  destruct (before dir _ _); constructor; [done |]. by inversion Hl.
Qed.

Lemma place_sorted (key : string) (dir : direction) (r : row) (l : list row) :
  Sorted (ordered key dir) l → Sorted (ordered key dir) (place key dir r l).
Proof.
  induction 1 as [|x l Hs IH Hhd]; cbn [place].
  - by repeat constructor.
  - destruct (before dir _ _) eqn:Hb.
    + constructor; [by constructor |]. constructor. by apply before_ordered.
    + constructor; [done |]. apply place_hd; [|done].
      by apply not_before_ordered.
Qed.

(** [ORDER BY] returns the rows it was given, in order. *)
Lemma order_by_permutation (key : string) (dir : direction) (rows : list row) :
  Permutation (order_by key dir rows) rows.
Proof.
  induction rows as [|r rows IH]; [done |].
  unfold order_by in *. cbn [foldr]. rewrite place_permutation. by constructor.
Qed.

Lemma order_by_sorted (key : string) (dir : direction) (rows : list row) :
  Sorted (ordered key dir) (order_by key dir rows).
Proof.
  induction rows as [|r rows IH]; [constructor |].
  unfold order_by in *. cbn [foldr]. by apply place_sorted.
Qed.

End OrderFacts.

(** ** An invariant: rows have the columns of their table *)

Section Invariant.
Context `{Libs}.

Lemma new_row_has_columns (cols : list column) (given : gmap string sqlval)
  (ts : string) : has_columns cols (new_row cols given ts).
Proof.
  intros c. rewrite new_row_lookup. by rewrite fmap_is_Some.
Qed.

Lemma updated_has_columns_from (cols : list column)
  (assigns : list (column * (row → sqlval))) (old acc : row) :
  Forall (λ k, is_Some (find_column cols k)) (assigned assigns) →
  has_columns cols acc →
  has_columns cols
    (foldl (λ r '(c, f), <[col_name c := apply_affinity (col_affinity c) (f old)]> r)
           acc assigns).
Proof.
  revert acc. induction assigns as [|[col f] assigns IH]; intros acc Ha Hr; [done |].
  unfold assigned in Ha. rewrite fmap_cons in Ha.
  apply Forall_cons in Ha as [Hcol Ha]. cbn [foldl]. apply IH; [done |].
  intros c. destruct (decide (col_name col = c)) as [<-|Hne].
  - rewrite lookup_insert_eq. split; [done | by eexists].
  - rewrite lookup_insert_ne by done. apply Hr.
Qed.

Lemma updated_has_columns (cols : list column)
  (assigns : list (column * (row → sqlval))) (r : row) :
  Forall (λ k, is_Some (find_column cols k)) (assigned assigns) →
  has_columns cols r → has_columns cols (updated assigns r).
Proof. apply updated_has_columns_from. Qed.

Lemma resolve_targets_found (t : string) (cols : list column)
  (sets : list (string * expr)) (targets : list (column * expr)) :
  resolve_targets t cols sets = Ok targets →
  Forall (λ k, is_Some (find_column cols k)) ((λ a, col_name a.1) <$> targets).
Proof.
  unfold resolve_targets. intros Ht. apply traverse_inv in Ht.
  induction Ht as [|[c e] [col e'] sets targets Hx _ IH]; [constructor |].
  rewrite fmap_cons. constructor; [|done]. cbn [fst].
  unfold named_column at 1 in Hx.
  destruct (find_column cols c) as [col0|] eqn:Hc; [|done]. cbn [rbind] in Hx.
  destruct (match e with Param => _ | NotCol _ => _ end); [|done].
  cbn [rbind] in Hx. inversion Hx; subst.
  rewrite (find_column_name _ _ _ Hc). by eexists.
Qed.

Lemma well_formed_insert (db : database) (t : string) (cols : list column)
  (rows : list row) :
  table_columns t = Some cols → Forall (has_columns cols) rows →
  well_formed db → well_formed (<[t := rows]> db).
Proof.
  intros Hc Hrows Hdb t' cols' rows' Hc' Hr'.
  destruct (decide (t = t')) as [<-|Hne].
  - rewrite lookup_insert_eq in Hr'. injection Hr' as <-.
    rewrite Hc in Hc'. by injection Hc' as <-.
  - rewrite lookup_insert_ne in Hr' by done. by apply (Hdb t').
Qed.

Lemma Forall_list_filter {A} (P : A → Prop) (f : A → bool) (l : list A) :
  Forall P l → Forall P (List.filter f l).
Proof.
  induction 1 as [|x l Hx _ IH]; [constructor |].
  cbn [List.filter]. destruct (f x); [by constructor | done].
Qed.

(** The statements of the engine keep the database well formed. *)
Lemma exec_stmt_well_formed (q : stmt) (ps : list pyval) (ts : string)
  (db db' : database) (cur : cursor) :
  exec_stmt q ps ts db = Ok (cur, db') → well_formed db → well_formed db'.
Proof.
  intros He Hdb. destruct q as [t names|t key dir|t|t sets|t].
  - unfold exec_stmt, open_table in He.
    destruct (table_columns t) as [cols|] eqn:Hc; [|done].
    destruct (db !! t) as [rows|] eqn:Hr; [|done]. cbn [rbind] in He.
    destruct (traverse _ names); [|done]. cbn [rbind] in He.
    destruct (check_arity _ _); [|done]. cbn [rbind] in He.
    destruct (traverse bind ps) as [vals|]; [|done]. cbn [rbind] in He.
    destruct (check_not_null _ _ _); [|done]. cbn [rbind] in He.
    destruct (check_unique _ _ _); [|done]. cbn [rbind] in He.
    injection He as _ <-. apply (well_formed_insert _ _ cols); [done | | done].
    apply Forall_app. split; [by apply (Hdb t) |].
    constructor; [apply new_row_has_columns | constructor].
  - unfold exec_stmt, open_table in He.
    destruct (table_columns t) as [cols|]; [|done].
    destruct (db !! t) as [rows|]; [|done]. cbn [rbind] in He.
    destruct (named_column _ _ _ _); [|done]. cbn [rbind] in He.
    destruct (check_arity _ _); [|done]. cbn [rbind] in He.
    by injection He as _ <-.
  - unfold exec_stmt, open_table in He.
    destruct (table_columns t) as [cols|]; [|done].
    destruct (db !! t) as [rows|]; [|done]. cbn [rbind] in He.
    destruct (check_arity _ _); [|done]. cbn [rbind] in He.
    destruct (traverse bind ps) as [vals|]; [|done]. cbn [rbind] in He.
    by injection He as _ <-.
  - apply exec_update_inv in He
      as (cols & rows & targets & vals & assigns & rest & Hc & Hr & Ht & _ & Hres & _ & ->).
    apply (well_formed_insert _ _ cols); [done | | done].
    unfold update_rows. apply Forall_fmap.
    eapply Forall_impl; [by apply (Hdb t) |]. intros r Hrc. cbn.
    destruct (matches _ r); [|done].
    apply updated_has_columns; [|done].
    pose proof (resolve_assigned targets vals) as Hn. rewrite Hres in Hn.
    cbn [fst] in Hn. rewrite Hn. by apply (resolve_targets_found t cols sets).
  - unfold exec_stmt, open_table in He.
    destruct (table_columns t) as [cols|] eqn:Hc; [|done].
    destruct (db !! t) as [rows|] eqn:Hr; [|done]. cbn [rbind] in He.
    destruct (check_arity _ _); [|done]. cbn [rbind] in He.
    destruct (traverse bind ps) as [vals|]; [|done]. cbn [rbind] in He.
    injection He as _ <-. apply (well_formed_insert _ _ cols); [done | | done].
    apply Forall_list_filter. by apply (Hdb t).
Qed.

Lemma execute_query_data (q : stmt) (ps : list pyval) (st : store) :
  data (execute_query q ps st).2 = data st.
Proof.
  unfold execute_query, get_connection, connect, execute.
  destruct (events st) as [|[|m|m] es]; cbn [fault pending clock durable];
    try reflexivity;
    destruct (exec_stmt q ps (current_timestamp st) (data st)) as [[cur db']|[]];
    reflexivity.
Qed.

Lemma execute_command_data (q : stmt) (ps : list pyval) (st : store) :
  data (execute_command q ps st).2 = data st ∨
  ∃ cur, exec_stmt q ps (current_timestamp st) (data st)
         = Ok (cur, data (execute_command q ps st).2).
Proof.
  unfold execute_command, get_connection, connect, execute.
  destruct (events st) as [|[|m|m] es]; cbn [fault pending clock durable];
    try (left; reflexivity);
    (destruct (exec_stmt q ps (current_timestamp st) (data st)) as [[cur db']|[]];
     [right; by exists cur | left; reflexivity ..]).
Qed.

Lemma keeps_execute_query (q : stmt) (ps : list pyval) :
  keeps_well_formed (execute_query q ps).
Proof. intros st Hwf. by rewrite execute_query_data. Qed.

Lemma keeps_execute_command (q : stmt) (ps : list pyval) :
  keeps_well_formed (execute_command q ps).
Proof.
  intros st Hwf. destruct (execute_command_data q ps st) as [-> | [cur He]]; [done |].
  by apply (exec_stmt_well_formed _ _ _ _ _ _ He).
Qed.

Lemma keeps_ret {A} (a : A) : keeps_well_formed (ret a).
Proof. by intros st. Qed.

Lemma keeps_raise {A} (e : exn) : keeps_well_formed (@raise A e).
Proof. by intros st. Qed.

Lemma keeps_lift {A} (r : result A) : keeps_well_formed (lift r).
Proof. by intros st. Qed.

Lemma keeps_and_then {A B} (m : M A) (k : A → M B) :
  keeps_well_formed m → (∀ a, keeps_well_formed (k a)) →
  keeps_well_formed (and_then m k).
Proof.
  intros Hm Hk st Hwf. unfold and_then. specialize (Hm st Hwf).
  destruct (m st) as [[a|e] st']; [by apply Hk | done].
Qed.

Lemma create_tables_well_formed (db : database) :
  well_formed db → well_formed (create_tables db).
Proof.
  unfold create_tables. induction schema as [|[t cols] sch IH]; [done |].
  intros Hwf. cbn [foldr]. specialize (IH Hwf).
  destruct (foldr _ db sch !! t) eqn:Ht; [done |].
  intros t' cols' rows' Hc' Hr'.
  destruct (decide (t = t')) as [<-|Hne].
  - rewrite lookup_insert_eq in Hr'. injection Hr' as <-. constructor.
  - rewrite lookup_insert_ne in Hr' by done. by apply (IH t').
Qed.

Lemma keeps_init_schema : keeps_well_formed _init_schema.
Proof.
  intros st Hwf. unfold _init_schema, get_connection, connect, executescript_schema.
  destruct (events st) as [|[|m|m] es]; cbn [fault pending clock durable];
    try done; cbn; by apply create_tables_well_formed.
Qed.

End Invariant.

Create HintDb vault discriminated.
#[export] Hint Resolve keeps_execute_query keeps_execute_command keeps_ret
  keeps_raise keeps_lift keeps_init_schema : vault.

Ltac keeps :=
  repeat first
    [ apply keeps_and_then; [|intros ?]
    | match goal with |- keeps_well_formed (match ?x with _ => _ end) => destruct x end
    | match goal with |- keeps_well_formed (if ?x then _ else _) => destruct x end
    | solve [auto with vault] ].

Section InvariantOfCalls.
Context `{Libs}.

(** Every call of the public surface keeps the database well formed. *)
Lemma perform_well_formed (c : call) (st : store) :
  well_formed (data st) → well_formed (data (perform c st).2).
Proof.
  assert (∀ A (m : M A), keeps_well_formed m →
            well_formed (data st) → well_formed (data (outcome (m st)).2)) as Hout.
  { intros A m Hm Hwf. unfold outcome. cbn [snd]. by apply Hm. }
  destruct c as [|e uuid4 now fields|e id|e| | | | | |]; cbn [perform]; apply Hout;
    try destruct e; cbn [create get_one get_all];
    unfold create_job, create_company, create_contact, create_offer,
      create_job_alert, create_interview_session, get_job, get_company,
      get_contact, get_offer, get_job_alert, get_interview_session, get_jobs,
      get_companies, get_contacts, get_offers, get_job_alerts,
      get_interview_sessions, update_job, delete_job, delete_contact,
      toggle_job_alert, run_job_alert, calculate_offer_value, get_offer;
    keeps.
Qed.

Lemma empty_store_well_formed (ts : string) : well_formed (data (empty_store ts)).
Proof. intros t cols rows _ Hr. cbn in Hr. by rewrite lookup_empty in Hr. Qed.

End InvariantOfCalls.

(** * The claims of the specification *)

Section Claims.
Context `{Libs}.

Lemma valid_fields_empty (e : entity) : valid_fields e ∅.
Proof. intros k v ft Hk. by rewrite lookup_empty in Hk. Qed.

Lemma valid_fields_insert (e : entity) (d : pydict) (k : string) (v : pyval) :
  match assoc k (fields_of e) with Some ft => conforms ft v = true | None => True end →
  valid_fields e d → valid_fields e (<[k := v]> d).
Proof.
  intros Hk Hd k' v' ft Hl Hft.
  destruct (decide (k = k')) as [<-|Hne].
  - rewrite lookup_insert_eq in Hl. injection Hl as <-. by rewrite Hft in Hk.
  - rewrite lookup_insert_ne in Hl by done. by apply (Hd k' v' ft).
Qed.

Lemma created_record_id (e : entity) (uuid4 now : string) (d : pydict) (ts : string) :
  created_record e uuid4 now d ts !! "id" = Some (PStr uuid4).
Proof.
  unfold created_record.
  destruct e; cbn [list_fields foldl]; rewrite ?lookup_insert_ne by done;
    unfold dict; by rewrite lookup_fmap, created_row_id.
Qed.

Lemma created_record_list (e : entity) (uuid4 now : string) (d : pydict)
  (ts k : string) :
  k ∈ list_fields e →
  created_record e uuid4 now d ts !! k = Some (get d k (PList [])).
Proof.
  unfold created_record.
  destruct e; cbn [list_fields foldl]; intros Hk;
    repeat (apply elem_of_cons in Hk as [-> | Hk];
            [by rewrite ?lookup_insert_eq, ?lookup_insert_ne, ?lookup_insert_eq by done |]);
    by apply elem_of_nil in Hk.
Qed.

(** C1.  Round trip: for every entity and every valid field set, on a
    healthy store whose table does not yet hold the identifier drawn,
    [create] returns a record, [get] at the identifier of that record
    returns the same record (same id, same timestamps, same values),
    and each list field of it is the ordered sequence of strings that
    was supplied to [create] (the empty one when it was omitted). *)
Theorem create_get_round_trip (e : entity) (uuid4 now : string) (fields : pydict)
  (st : store) (rows : list row) :
  events st = [] → data st !! table_of e = Some rows →
  fresh_id uuid4 rows → valid_fields e fields →
  ∃ rec st',
    create e uuid4 now fields st = (Ok (Some rec), st') ∧
    get_one e uuid4 st' = (Ok (Some rec), st') ∧
    rec !! "id" = Some (PStr uuid4) ∧
    ∀ k, k ∈ list_fields e →
      ∃ strs, get fields k (PList []) = PList (PStr <$> strs) ∧
              rec !! k = Some (PList (PStr <$> strs)).
Proof.
  intros Hev Hr Hf Hv.
  destruct (create_stores e uuid4 now fields st rows Hev Hr Hf Hv) as [Hc Hg].
  eexists _, _. split; [exact Hc |]. split; [exact Hg |].
  split; [apply created_record_id |].
  intros k Hk. destruct (list_field_valid e fields k Hv Hk) as [strs Hs].
  exists strs. split; [done |]. by rewrite created_record_list, Hs.
Qed.

End Claims.

Lemma create_get_round_trip_witness :
  ∃ rec st',
    @create Reference.libs Job "6f1c" "2024-01-01T10:00:00"
      (<["title" := PStr "Engineer"]>
         (<["requirements" := PList [PStr "go"; PStr "sql"]]> ∅)) fresh_store
    = (Ok (Some rec), st') ∧
    @get_one Reference.libs Job "6f1c" st' = (Ok (Some rec), st') ∧
    rec !! "id" = Some (PStr "6f1c") ∧
    ∀ k, k ∈ list_fields Job →
      ∃ strs,
        get (<["title" := PStr "Engineer"]>
               (<["requirements" := PList [PStr "go"; PStr "sql"]]> ∅)) k (PList [])
        = PList (PStr <$> strs) ∧
        rec !! k = Some (PList (PStr <$> strs)).
Proof.
  apply (@create_get_round_trip Reference.libs Job _ _ _ fresh_store []).
  - reflexivity.
  - reflexivity.
  - constructor.
  - apply valid_fields_insert; [reflexivity |].
    apply valid_fields_insert; [reflexivity |]. apply valid_fields_empty.
Defined.

Section Claims.
Context `{Libs}.

(** C9.  Default fill: a job created with every field omitted has the
    empty title, the stage [saved], no requirement, no tag and empty
    notes. *)
Theorem create_job_defaults (uuid4 now : string) (st : store) (rows : list row) :
  events st = [] → data st !! "jobs" = Some rows → fresh_id uuid4 rows →
  ∃ rec st',
    create_job uuid4 now ∅ st = (Ok (Some rec), st') ∧
    rec !! "title" = Some (PStr "") ∧
    rec !! "stage" = Some (PStr "saved") ∧
    rec !! "requirements" = Some (PList []) ∧
    rec !! "tags" = Some (PList []) ∧
    rec !! "notes" = Some (PStr "").
Proof.
  intros Hev Hr Hf.
  destruct (create_stores Job uuid4 now ∅ st rows Hev Hr Hf (valid_fields_empty Job))
    as [Hc _].
  eexists _, _. split; [exact Hc |]. repeat split; reflexivity.
Qed.

End Claims.

Lemma create_job_defaults_witness :
  ∃ rec st',
    @create_job Reference.libs "6f1c" "2024-01-01T10:00:00" ∅ fresh_store
    = (Ok (Some rec), st') ∧
    rec !! "title" = Some (PStr "") ∧
    rec !! "stage" = Some (PStr "saved") ∧
    rec !! "requirements" = Some (PList []) ∧
    rec !! "tags" = Some (PList []) ∧
    rec !! "notes" = Some (PStr "").
Proof.
  apply (@create_job_defaults Reference.libs _ _ fresh_store []);
    [reflexivity | reflexivity | constructor].
Defined.

Section Claims.
Context `{Libs}.

Lemma parse_json_field_inv (k : string) (rec rec' : pydict) :
  parse_json_field k rec = Ok rec' →
  ∃ v x, rec !! k = Some v ∧ json_loads (py_or v (PStr "[]")) = Ok x ∧
         rec' = <[k := x]> rec.
Proof.
  unfold parse_json_field, getitem. destruct (rec !! k) as [v|] eqn:Hk; [|done].
  cbn [rbind]. destruct (json_loads _) as [x|] eqn:Hx; [|done]. cbn [rbind].
  intros Hr. injection Hr as <-. by exists v, x.
Qed.

Lemma parse_json_field_keys (k : string) (rec rec' : pydict) (c : string) :
  parse_json_field k rec = Ok rec' → is_Some (rec' !! c) ↔ is_Some (rec !! c).
Proof.
  intros Hp. apply parse_json_field_inv in Hp as (v & x & Hk & _ & ->).
  destruct (decide (k = c)) as [<-|Hne].
  - rewrite lookup_insert_eq, Hk. split; by eexists.
  - by rewrite lookup_insert_ne.
Qed.

Lemma parse_json_field_other (k : string) (rec rec' : pydict) (c : string) :
  parse_json_field k rec = Ok rec' → c ≠ k → rec' !! c = rec !! c.
Proof.
  intros Hp Hne. apply parse_json_field_inv in Hp as (v & x & Hk & _ & ->).
  by rewrite lookup_insert_ne.
Qed.

Lemma decode_lists_inv (e : entity) (rec rec' : pydict) :
  decode_lists e rec = Ok rec' →
  (∀ c, is_Some (rec' !! c) ↔ is_Some (rec !! c)) ∧
  (∀ c, c ∉ list_fields e → rec' !! c = rec !! c).
Proof.
  unfold decode_lists. destruct e; cbn [list_fields foldl rbind]; intros Hd;
    try (injection Hd as <-; done).
  - destruct (parse_json_field "requirements" rec) as [rec1|] eqn:H1; [|done].
    cbn [rbind] in Hd. split; intros c.
    + by rewrite (parse_json_field_keys _ _ _ c Hd), (parse_json_field_keys _ _ _ c H1).
    + intros Hc. apply not_elem_of_cons in Hc as [? Hc].
      apply not_elem_of_cons in Hc as [? _].
      by rewrite (parse_json_field_other _ _ _ c Hd), (parse_json_field_other _ _ _ c H1).
  - destruct (parse_json_field "questions" rec) as [rec1|] eqn:H1; [|done].
    cbn [rbind] in Hd. split; intros c.
    + by rewrite (parse_json_field_keys _ _ _ c Hd), (parse_json_field_keys _ _ _ c H1).
    + intros Hc. apply not_elem_of_cons in Hc as [? Hc].
      apply not_elem_of_cons in Hc as [? _].
      by rewrite (parse_json_field_other _ _ _ c Hd), (parse_json_field_other _ _ _ c H1).
Qed.

Lemma dict_keys (r : row) (c : string) : is_Some (dict r !! c) ↔ is_Some (r !! c).
Proof. unfold dict. by rewrite lookup_fmap, fmap_is_Some. Qed.

Lemma decoded_shape (e : entity) (r : row) (rec : pydict) :
  has_columns (columns_of e) r → decode_lists e (dict r) = Ok rec →
  record_shape e rec.
Proof.
  intros Hr Hd. apply decode_lists_inv in Hd as [Hk _].
  assert (∀ c, is_Some (rec !! c) ↔ is_Some (find_column (columns_of e) c)) as Hc.
  { intros c. by rewrite Hk, dict_keys. }
  unfold record_shape.
  destruct e; cbn [columns_of] in *; repeat split;
    try (apply Hc; by eexists).
  apply eq_None_not_Some. rewrite Hc. cbn. by intros [? ?].
Qed.

Lemma created_shape (e : entity) (uuid4 now : string) (d : pydict) (st : store) :
  let rec := created_record e uuid4 now d (current_timestamp st) in
  rec !! "created_at" = Some (PStr (stamp e now st)) ∧
  match e with
  | Company => rec !! "last_updated" = Some (PStr now) ∧ rec !! "updated_at" = None
  | _ => rec !! "updated_at" = Some (PStr (stamp e now st))
  end.
Proof. destruct e; repeat split; reflexivity. Qed.

Lemma traverse_Forall {A B} (f : A → result B) (Q : B → Prop)
  (l : list A) (l' : list B) :
  traverse f l = Ok l' → Forall (λ x, ∀ y, f x = Ok y → Q y) l → Forall Q l'.
Proof.
  intros Ht. apply traverse_inv in Ht.
  induction Ht as [|x y l l' Hxy _ IH]; intros Hl; [constructor |].
  apply Forall_cons in Hl as [Hx Hl]. constructor; [by apply Hx | by apply IH].
Qed.

Lemma rows_well_formed (e : entity) (st : store) (rows : list row) :
  well_formed (data st) → data st !! table_of e = Some rows →
  Forall (has_columns (columns_of e)) rows.
Proof.
  intros Hwf Hr. by apply (Hwf (table_of e)); [apply table_columns_of_entity |].
Qed.

(** C2 (amended).  On a healthy, well-formed store, a record of any
    entity other than a company, as [create], [get] or [get_all] return
    it, has the fields [id], [created_at] and [updated_at]; a company
    has [id], [created_at] and [last_updated], and no [updated_at].  The
    record that [create] returns carries the identifier drawn and the
    reading of the store's clock in its timestamps, whatever the field
    set holds under those keys. *)
Theorem shared_fields_of_records (e : entity) (st : store) (rows : list row) :
  events st = [] → data st !! table_of e = Some rows → well_formed (data st) →
  (∀ uuid4 now fields, fresh_id uuid4 rows → valid_fields e fields →
     ∃ rec st',
       create e uuid4 now fields st = (Ok (Some rec), st') ∧
       record_shape e rec ∧
       rec !! "id" = Some (PStr uuid4) ∧
       rec !! "created_at" = Some (PStr (stamp e now st)) ∧
       match e with
       | Company => rec !! "last_updated" = Some (PStr now)
       | _ => rec !! "updated_at" = Some (PStr (stamp e now st))
       end) ∧
  (∀ id rec st', get_one e id st = (Ok (Some rec), st') → record_shape e rec) ∧
  (∀ recs st', get_all e st = (Ok recs, st') → Forall (record_shape e) recs).
Proof.
  intros Hev Hr Hwf. pose proof (rows_well_formed e st rows Hwf Hr) as Hrows.
  split; [|split].
  - intros uuid4 now fields Hf Hv.
    destruct (create_stores e uuid4 now fields st rows Hev Hr Hf Hv) as [Hc _].
    eexists _, _. split; [exact Hc |].
    pose proof (created_record_id e uuid4 now fields (current_timestamp st)) as Hid.
    destruct (created_shape e uuid4 now fields st) as [Hca Hua].
    split; [|split; [done | split; [done |]]].
    + unfold record_shape. rewrite Hid, Hca.
      split; [by eexists |]. split; [by eexists |].
      destruct e; try (rewrite Hua; by eexists).
      destruct Hua as [-> ->]. split; [by eexists | done].
    + by destruct e; try destruct Hua.
  - intros id rec st'. rewrite (get_one_healthy e id st rows Hev Hr).
    destruct (List.filter _ rows) as [|r rest] eqn:Hfil; [done |].
    intros Hg. injection Hg as Hg _.
    destruct (decode_lists e (dict r)) as [rec0|] eqn:Hd; [|done].
    cbn [rbind] in Hg. injection Hg as <-.
    apply (decoded_shape e r); [|done].
    assert (In r (List.filter (matches (SText id)) rows)) as Hin
      by (rewrite Hfil; by left).
    apply List.filter_In in Hin as [Hin _].
    by apply (proj1 (List.Forall_forall _ _) Hrows).
  - intros recs st'. rewrite (get_all_healthy e st rows Hev Hr).
    intros Hg. injection Hg as Hg _.
    apply (traverse_Forall _ _ _ _ Hg). apply Forall_fmap.
    assert (Forall (has_columns (columns_of e))
              (order_by (order_of e).1 (order_of e).2 rows)) as Hs.
    { eapply Permutation_Forall; [|exact Hrows].
      symmetry. apply order_by_permutation. }
    eapply Forall_impl; [exact Hs |]. intros r Hrc rec. by apply decoded_shape.
Qed.

End Claims.

Lemma fresh_store_well_formed : well_formed (data fresh_store).
Proof.
  apply (@perform_well_formed Reference.libs Init (empty_store "2024-01-01 00:00:00")).
  apply empty_store_well_formed.
Qed.

Lemma shared_fields_of_records_witness :
  (∀ uuid4 now fields, fresh_id uuid4 [] → valid_fields Contact fields →
     ∃ rec st',
       @create Reference.libs Contact uuid4 now fields fresh_store = (Ok (Some rec), st') ∧
       record_shape Contact rec ∧
       rec !! "id" = Some (PStr uuid4) ∧
       rec !! "created_at" = Some (PStr (stamp Contact now fresh_store)) ∧
       rec !! "updated_at" = Some (PStr (stamp Contact now fresh_store))) ∧
  (∀ id rec st', @get_one Reference.libs Contact id fresh_store = (Ok (Some rec), st') →
                 record_shape Contact rec) ∧
  (∀ recs st', @get_all Reference.libs Contact fresh_store = (Ok recs, st') →
               Forall (record_shape Contact) recs).
Proof.
  apply (@shared_fields_of_records Reference.libs Contact fresh_store []).
  - reflexivity.
  - reflexivity.
  - apply fresh_store_well_formed.
Defined.

(** The record of a company has no [updated_at]; and the [created_at]
    of a job is whatever an update last wrote under that key. *)
Lemma company_record_lacks_updated_at :
  returned_field
    (@create Reference.libs Company "c1" "2024-01-01T10:00:00"
       (<["name" := PStr "Acme"]> ∅) fresh_store) "updated_at"
  = Ok (Some None) ∧
  returned_field
    (@update_job Reference.libs "2024-03-01T09:00:00" "j1"
       (<["created_at" := PStr "yesterday"]> ∅)
       (@create Reference.libs Job "j1" "2024-01-01T10:00:00" ∅ fresh_store).2)
    "created_at"
  = Ok (Some (Some (PStr "yesterday"))).
Proof. split; vm_compute; reflexivity. Qed.

Section Claims.
Context `{Libs}.

Lemma with_rows_same (t : string) (rows : list row) (st : store) :
  events st = [] → data st !! t = Some rows → with_rows t rows st = st.
Proof.
  intros Hev Hr. unfold with_rows. rewrite (insert_id _ _ _ Hr), <- Hev.
  apply store_eta.
Qed.

Lemma update_rows_fresh (id : string) (assigns : list (column * (row → sqlval)))
  (rows : list row) :
  fresh_id id rows → update_rows (SText id) assigns rows = rows.
Proof.
  unfold update_rows. induction 1 as [|r rows Hr _ IH]; [done |].
  rewrite fmap_cons, IH. by rewrite (matches_text_false _ _ Hr).
Qed.

Lemma filter_negb_fresh (id : string) (rows : list row) :
  fresh_id id (List.filter (λ r, negb (matches (SText id) r)) rows).
Proof.
  unfold fresh_id. induction rows as [|r rows IH]; [constructor |].
  cbn [List.filter]. destruct (matches (SText id) r) eqn:Hm; [done |].
  cbn [negb]. constructor; [|done]. intros Hid.
  apply matches_text in Hid. congruence.
Qed.

Lemma row_count_positive (rows : list row) :
  (0 <? row_count rows) = true ↔ rows ≠ [].
Proof.
  unfold row_count. destruct rows as [|r rows]; cbn [length].
  - split; [discriminate | done].
  - split; [done |]. intros _. apply Z.ltb_lt. lia.
Qed.

Lemma filter_matches_nonempty (id : string) (rows : list row) :
  List.filter (matches (SText id)) rows ≠ [] ↔
  ∃ r, r ∈ rows ∧ r !! "id" = Some (SText id).
Proof.
  split.
  - destruct (List.filter _ rows) as [|r rest] eqn:Hf; [done |]. intros _.
    assert (In r (List.filter (matches (SText id)) rows)) as Hin
      by (rewrite Hf; by left).
    apply List.filter_In in Hin as [Hin Hm]. exists r.
    split; [by apply list_elem_of_In | by apply matches_text].
  - intros (r & Hin & Hid) Hnil.
    assert (In r (List.filter (matches (SText id)) rows)) as Hf.
    { apply List.filter_In. split; [by apply list_elem_of_In | by apply matches_text]. }
    by rewrite Hnil in Hf.
Qed.

Lemma delete_healthy (t id : string) (st : store) (cols : list column)
  (rows : list row) :
  events st = [] → table_columns t = Some cols → data st !! t = Some rows →
  execute_command (DeleteById t) [PStr id] st =
  (Ok (row_count (List.filter (matches (SText id)) rows)),
   with_rows t (List.filter (λ r, negb (matches (SText id) r)) rows) st).
Proof.
  intros Hev Hc Hr. rewrite (execute_command_healthy _ _ _ Hev).
  by rewrite (exec_delete_by_id t id _ _ cols rows Hc Hr).
Qed.

(** What deleting by identifier does to a table of the schema. *)
Lemma delete_by_id (t id : string) (st : store) (cols : list column)
  (rows : list row) :
  events st = [] → table_columns t = Some cols → data st !! t = Some rows →
  let remaining := List.filter (λ r, negb (matches (SText id) r)) rows in
  let st' := with_rows t remaining st in
  ∃ removed : bool,
    (rows_affected <- execute_command (DeleteById t) [PStr id] ;;
     ret (0 <? rows_affected)) st = (Ok removed, st') ∧
    (removed = true ↔ ∃ r, r ∈ rows ∧ r !! "id" = Some (SText id)) ∧
    data st' !! t = Some remaining ∧
    fresh_id id remaining ∧
    (∀ r, r ∈ rows → r !! "id" ≠ Some (SText id) → r ∈ remaining) ∧
    (rows_affected <- execute_command (DeleteById t) [PStr id] ;;
     ret (0 <? rows_affected)) st' = (Ok false, st').
Proof.
  intros Hev Hc Hr remaining st'.
  exists (0 <? row_count (List.filter (matches (SText id)) rows)).
  assert (data st' !! t = Some remaining) as Hr'
    by (subst st'; cbn [data with_rows]; apply lookup_insert_eq).
  assert (fresh_id id remaining) as Hf by apply filter_negb_fresh.
  split; [|split; [|split; [done | split; [done | split]]]].
  - unfold and_then. by rewrite (delete_healthy t id st cols rows Hev Hc Hr).
  - by rewrite row_count_positive, filter_matches_nonempty.
  - intros r Hin Hid. apply list_elem_of_In, List.filter_In.
    split; [by apply list_elem_of_In |]. by rewrite (matches_text_false _ _ Hid).
  - unfold and_then.
    rewrite (delete_healthy t id st' cols remaining eq_refl Hc Hr').
    rewrite (filter_fresh _ _ Hf), (filter_not_fresh _ _ Hf).
    by rewrite (with_rows_same t remaining st' eq_refl Hr').
Qed.

(** C8.  On a healthy store, [delete_job] and [delete_contact] remove
    the rows that carry the identifier, keep the others, and return
    true exactly when there was such a row; repeated, or on an
    identifier that no row carries, they return false and do not raise. *)
Theorem delete_reports_removal (id : string) (st : store) (rows : list row) :
  events st = [] →
  let remaining := List.filter (λ r, negb (matches (SText id) r)) rows in
  (data st !! "jobs" = Some rows →
   ∃ removed st',
     delete_job id st = (Ok removed, st') ∧
     (removed = true ↔ ∃ r, r ∈ rows ∧ r !! "id" = Some (SText id)) ∧
     data st' !! "jobs" = Some remaining ∧ fresh_id id remaining ∧
     (∀ r, r ∈ rows → r !! "id" ≠ Some (SText id) → r ∈ remaining) ∧
     delete_job id st' = (Ok false, st')) ∧
  (data st !! "contacts" = Some rows →
   ∃ removed st',
     delete_contact id st = (Ok removed, st') ∧
     (removed = true ↔ ∃ r, r ∈ rows ∧ r !! "id" = Some (SText id)) ∧
     data st' !! "contacts" = Some remaining ∧ fresh_id id remaining ∧
     (∀ r, r ∈ rows → r !! "id" ≠ Some (SText id) → r ∈ remaining) ∧
     delete_contact id st' = (Ok false, st')).
Proof.
  intros Hev remaining. split; intros Hr.
  - destruct (delete_by_id "jobs" id st jobs_columns rows Hev eq_refl Hr)
      as (removed & Hd). by exists removed, (with_rows "jobs" remaining st).
  - destruct (delete_by_id "contacts" id st contacts_columns rows Hev eq_refl Hr)
      as (removed & Hd). by exists removed, (with_rows "contacts" remaining st).
Qed.

(** C10.  [run_job_alert] has no not-found condition: whenever it
    returns, [jobs_found] is empty and the message is the fixed one; and
    on a healthy store, for an identifier that no alert carries, it does
    return, with an absent alert, leaving the store as it was.  For an
    identifier that an alert carries it returns that alert with
    [last_run] and [updated_at] set to the two readings of the clock. *)
Theorem run_job_alert_without_alert (now1 now2 id : string) :
  (∀ st res st', run_job_alert now1 now2 id st = (Ok res, st') →
     jobs_found res = [] ∧ message res = "Job alert executed (demo mode)") ∧
  (∀ st rows, events st = [] → data st !! "job_alerts" = Some rows →
     (fresh_id id rows →
      run_job_alert now1 now2 id st =
      (Ok (AlertRun None [] "Job alert executed (demo mode)"), st)) ∧
     (∀ r rest, List.filter (matches (SText id)) rows = r :: rest →
      ∃ rec st',
        run_job_alert now1 now2 id st =
        (Ok (AlertRun (Some rec) [] "Job alert executed (demo mode)"), st') ∧
        rec !! "last_run" = Some (PStr now1) ∧
        rec !! "updated_at" = Some (PStr now2))).
Proof.
  split.
  - intros st res st'. unfold run_job_alert, and_then.
    destruct (execute_command _ _ st) as [[n|e] st1]; [|done].
    destruct (get_job_alert id st1) as [[a|e] st2]; [|done].
    unfold ret. intros Hr. by injection Hr as <- _.
  - intros st rows Hev Hr.
    pose proof (run_job_alert_healthy now1 now2 id st rows Hev Hr) as Hrun.
    cbn zeta in Hrun. split.
    + intros Hf. rewrite Hrun, (filter_fresh _ _ Hf), (update_rows_fresh _ _ _ Hf).
      by rewrite (with_rows_same _ _ _ Hev Hr).
    + intros r rest Hfil. rewrite Hrun, Hfil. eexists _, _. split; [reflexivity |].
      unfold dict. rewrite !lookup_fmap. unfold updated, run_assigns. cbn [foldl].
      split.
      * by rewrite lookup_insert_ne, lookup_insert_eq.
      * by rewrite lookup_insert_eq.
Qed.

(** One toggle of an alert whose [is_active] is a boolean. *)
Lemma toggle_once (now id : string) (st : store) (rows : list row)
  (r : row) (rest : list row) (b : bool) :
  events st = [] → data st !! "job_alerts" = Some rows →
  List.filter (matches (SText id)) rows = r :: rest →
  r !! "is_active" = Some (SInt (if b then 1 else 0)) →
  ∃ r1 rest1 rows1,
    let st1 := with_rows "job_alerts" rows1 st in
    toggle_job_alert now id st = (Ok (Some (dict r1)), st1) ∧
    List.filter (matches (SText id)) rows1 = r1 :: rest1 ∧
    r1 !! "is_active" = Some (SInt (if negb b then 1 else 0)) ∧
    r1 !! "updated_at" = Some (SText now).
Proof.
  intros Hev Hr Hfil Hb.
  pose proof (toggle_job_alert_healthy now id st rows Hev Hr) as Ht.
  cbn zeta in Ht. rewrite Hfil in Ht.
  exists (updated (toggle_assigns now) r), (updated (toggle_assigns now) <$> rest),
    (update_rows (SText id) (toggle_assigns now) rows).
  cbn zeta. split; [exact Ht |]. split.
  - rewrite filter_update_rows, Hfil; [done |].
    unfold assigned, toggle_assigns. cbn. not_in_list.
  - unfold updated, toggle_assigns. cbn [foldl]. split.
    + rewrite lookup_insert_ne, lookup_insert_eq by done.
      unfold key_of. rewrite Hb. by destruct b.
    + by rewrite lookup_insert_eq.
Qed.

(** C7.  On a healthy store, [toggle_job_alert] returns no record for an
    identifier that no alert carries; and for an alert whose [is_active]
    is a boolean (stored and read back as 1 or 0) each call flips it,
    sets [updated_at] to the reading of the clock and returns the
    updated record, so that two calls in a row restore it. *)
Theorem toggle_twice_restores (now1 now2 id : string) (st : store) (rows : list row) :
  events st = [] → data st !! "job_alerts" = Some rows →
  (fresh_id id rows → toggle_job_alert now1 id st = (Ok None, st)) ∧
  (∀ r rest (b : bool),
     List.filter (matches (SText id)) rows = r :: rest →
     r !! "is_active" = Some (SInt (if b then 1 else 0)) →
     ∃ rec1 st1 rec2 st2,
       toggle_job_alert now1 id st = (Ok (Some rec1), st1) ∧
       rec1 !! "is_active" = Some (PInt (if b then 0 else 1)) ∧
       rec1 !! "updated_at" = Some (PStr now1) ∧
       toggle_job_alert now2 id st1 = (Ok (Some rec2), st2) ∧
       rec2 !! "is_active" = Some (PInt (if b then 1 else 0)) ∧
       rec2 !! "updated_at" = Some (PStr now2)).
Proof.
  intros Hev Hr. split.
  - intros Hf. pose proof (toggle_job_alert_healthy now1 id st rows Hev Hr) as Ht.
    cbn zeta in Ht.
    rewrite Ht, (filter_fresh _ _ Hf), (update_rows_fresh _ _ _ Hf).
    by rewrite (with_rows_same _ _ _ Hev Hr).
  - intros r rest b Hfil Hb.
    destruct (toggle_once now1 id st rows r rest b Hev Hr Hfil Hb)
      as (r1 & rest1 & rows1 & Ht1 & Hfil1 & Hb1 & Hu1).
    cbn zeta in Ht1.
    destruct (toggle_once now2 id (with_rows "job_alerts" rows1 st) rows1 r1 rest1
                (negb b) eq_refl (lookup_insert_eq _ _ _) Hfil1 Hb1)
      as (r2 & rest2 & rows2 & Ht2 & _ & Hb2 & Hu2).
    cbn zeta in Ht2.
    exists (dict r1), (with_rows "job_alerts" rows1 st), (dict r2),
      (with_rows "job_alerts" rows2 (with_rows "job_alerts" rows1 st)).
    split; [exact Ht1 |].
    unfold dict. rewrite !lookup_fmap, Hb1, Hu1, Hb2, Hu2.
    split; [by destruct b |]. split; [done |]. split; [exact Ht2 |].
    split; [by destruct b | done].
Qed.

End Claims.

Lemma delete_reports_removal_witness :
  ∃ removed st',
    @delete_job Reference.libs "j1" store_with_job = (Ok removed, st') ∧
    (removed = true ↔
     ∃ r, r ∈ rows_of "jobs" store_with_job ∧ r !! "id" = Some (SText "j1")) ∧
    data st' !! "jobs" =
      Some (List.filter (λ r, negb (@matches Reference.libs (SText "j1") r))
              (rows_of "jobs" store_with_job)) ∧
    fresh_id "j1"
      (List.filter (λ r, negb (@matches Reference.libs (SText "j1") r))
         (rows_of "jobs" store_with_job)) ∧
    (∀ r, r ∈ rows_of "jobs" store_with_job → r !! "id" ≠ Some (SText "j1") →
          r ∈ List.filter (λ r, negb (@matches Reference.libs (SText "j1") r))
                (rows_of "jobs" store_with_job)) ∧
    @delete_job Reference.libs "j1" st' = (Ok false, st').
Proof.
  apply (@delete_reports_removal Reference.libs "j1" store_with_job
           (rows_of "jobs" store_with_job)).
  - reflexivity.
  - reflexivity.
Defined.

Lemma run_job_alert_without_alert_witness :
  @run_job_alert Reference.libs "2024-02-01T08:00:00" "2024-02-01T08:00:01" "nobody"
    store_with_alert
  = (Ok (AlertRun None [] "Job alert executed (demo mode)"), store_with_alert).
Proof.
  apply (proj2 (@run_job_alert_without_alert Reference.libs _ _ "nobody")
           store_with_alert (rows_of "job_alerts" store_with_alert)).
  - reflexivity.
  - reflexivity.
  - repeat constructor. vm_compute. discriminate.
Defined.

Lemma toggle_twice_restores_witness :
  ∃ rec1 st1 rec2 st2,
    @toggle_job_alert Reference.libs "2024-02-01T08:00:00" "a1" store_with_alert
      = (Ok (Some rec1), st1) ∧
    rec1 !! "is_active" = Some (PInt 0) ∧
    rec1 !! "updated_at" = Some (PStr "2024-02-01T08:00:00") ∧
    @toggle_job_alert Reference.libs "2024-02-02T08:00:00" "a1" st1
      = (Ok (Some rec2), st2) ∧
    rec2 !! "is_active" = Some (PInt 1) ∧
    rec2 !! "updated_at" = Some (PStr "2024-02-02T08:00:00").
Proof.
  refine (proj2 (@toggle_twice_restores Reference.libs "2024-02-01T08:00:00"
                   "2024-02-02T08:00:00" "a1" store_with_alert
                   (rows_of "job_alerts" store_with_alert) _ _)
            (default ∅ (head (rows_of "job_alerts" store_with_alert))) [] true _ _).
  - reflexivity.
  - reflexivity.
  - reflexivity.
  - reflexivity.
Defined.

Section Claims.
Context `{Libs}.

Lemma calculate_offer_value_found (id : string) (st : store) (rows : list row)
  (r : row) (rest : list row) (base : Z) :
  events st = [] → data st !! "offers" = Some rows →
  List.filter (matches (SText id)) rows = r :: rest →
  (r !! "base_salary" = Some SNull ∧ base = 0 ∨ r !! "base_salary" = Some (SInt base)) →
  calculate_offer_value id st =
  (rbind (float_of_int base) (λ f, Ok (offer_value id base (f * 1.2)%float)), st).
Proof.
  intros Hev Hr Hfil Hb. unfold calculate_offer_value, and_then.
  pose proof (get_one_healthy Offer id st rows Hev Hr) as Hg.
  cbn [get_one] in Hg. rewrite Hg, Hfil.
  unfold decode_lists. cbn [list_fields foldl rbind].
  assert (∃ v, dict r !! "base_salary" = Some v ∧ py_or v (PInt 0) = PInt base)
    as (v & Hv & Hor).
  { unfold dict. rewrite lookup_fmap.
    destruct Hb as [[Hb ->] | Hb]; rewrite Hb.
    - by exists PNone.
    - exists (PInt base). split; [done |].
      unfold py_or, truthy. by destruct (Z.eqb_spec base 0) as [->|]. }
  rewrite bool_decide_eq_false_2.
  2:{ intros He. rewrite He, lookup_empty in Hv. done. }
  unfold get. rewrite Hv. cbn [default]. change (Datatypes.id v) with v. rewrite Hor.
  unfold lift, mul_float. by destruct (float_of_int base).
Qed.

(** C4.  On a healthy store, [calculate_offer_value] raises the error
    of an offer not found when no offer carries the identifier, and
    returns no number; for an offer whose [base_salary] is null or an
    integer it returns the bundle with that salary (0 for null) and the
    salary converted to a float and multiplied by 1.2, which is 120000.0
    for a salary of 100000, as for an offer created with that salary. *)
Theorem calculate_offer_value_spec (id : string) (st : store) (rows : list row) :
  events st = [] → data st !! "offers" = Some rows →
  (fresh_id id rows →
   calculate_offer_value id st = (Raise (DatabaseError "Offer not found"), st)) ∧
  (∀ r rest base,
     List.filter (matches (SText id)) rows = r :: rest →
     r !! "base_salary" = Some SNull ∧ base = 0 ∨ r !! "base_salary" = Some (SInt base) →
     calculate_offer_value id st =
     (rbind (float_of_int base) (λ f, Ok (offer_value id base (f * 1.2)%float)), st)) ∧
  (∀ r rest,
     List.filter (matches (SText id)) rows = r :: rest →
     r !! "base_salary" = Some (SInt 100000) →
     calculate_offer_value id st = (Ok (offer_value id 100000 120000%float), st)) ∧
  (∀ now fields,
     fresh_id id rows → valid_fields Offer fields →
     fields !! "base_salary" = Some (PInt 100000) →
     ∃ rec st',
       create Offer id now fields st = (Ok (Some rec), st') ∧
       calculate_offer_value id st' = (Ok (offer_value id 100000 120000%float), st')).
Proof.
  intros Hev Hr. split; [|split; [|split]].
  - intros Hf. unfold calculate_offer_value, and_then.
    pose proof (get_one_healthy Offer id st rows Hev Hr) as Hg.
    cbn [get_one] in Hg. by rewrite Hg, (filter_fresh _ _ Hf).
  - intros r rest base. by apply calculate_offer_value_found.
  - intros r rest Hfil Hb.
    rewrite (calculate_offer_value_found id st rows r rest 100000 Hev Hr Hfil)
      by (by right).
    reflexivity.
  - intros now fields Hf Hv Hb.
    destruct (create_stores Offer id now fields st rows Hev Hr Hf Hv) as [Hc _].
    eexists _, _. split; [exact Hc |].
    set (row := created_row Offer id now fields (current_timestamp st)).
    change (table_of Offer) with "offers".
    rewrite (calculate_offer_value_found id (with_row "offers" rows row st)
               (rows ++ [row])%list row [] 100000 eq_refl).
    + reflexivity.
    + apply lookup_insert_eq.
    + rewrite List.filter_app, (filter_fresh _ _ Hf). cbn [List.filter app].
      replace (matches (SText id) _) with true; [done |].
      symmetry. apply matches_text, created_row_id.
    + right. subst row.
      change (created_row Offer id now fields (current_timestamp st) !! "base_salary")
        with (Some (apply_affinity AffInteger (sql_of (get fields "base_salary" PNone)))).
      unfold get. by rewrite Hb.
Qed.

End Claims.

Lemma calculate_offer_value_spec_witness :
  @calculate_offer_value Reference.libs "o1" store_with_offer
  = (Ok (offer_value "o1" 100000 120000%float), store_with_offer).
Proof.
  refine (proj1 (proj2 (proj2 (@calculate_offer_value_spec Reference.libs "o1"
            store_with_offer (rows_of "offers" store_with_offer) _ _)))
            (default ∅ (head (rows_of "offers" store_with_offer))) [] _ _);
    reflexivity.
Defined.

Ltac in_list := repeat first [apply list_elem_of_here | apply list_elem_of_further].

Section Claims.
Context `{Libs}.

Lemma parse_json_field_holds (k : string) (rec : pydict) (v : sqlval)
  (strs : list string) :
  rec !! k = Some (to_py v) → holds_list v strs →
  parse_json_field k rec = Ok (<[k := PList (PStr <$> strs)]> rec).
Proof.
  intros Hk [-> | [-> ->]].
  - by apply parse_json_field_encoded.
  - unfold parse_json_field, getitem. rewrite Hk. reflexivity.
Qed.

Lemma decode_lists_encoded (e : entity) (r : row) :
  encoded_lists e r → ∃ rec, decode_lists e (dict r) = Ok rec ∧ decoded e r rec.
Proof.
  intros He. unfold decode_lists, decoded.
  destruct e; cbn [list_fields foldl rbind] in *;
    try (exists (dict r); split; [done |]; split;
         [intros c _; unfold dict; by rewrite lookup_fmap
         | intros k Hk; by apply elem_of_nil in Hk]).
  - destruct (He "requirements") as (v1 & s1 & Hv1 & Hs1); [in_list |].
    destruct (He "tags") as (v2 & s2 & Hv2 & Hs2); [in_list |].
    rewrite (parse_json_field_holds "requirements" _ v1 s1)
      by (done || (unfold dict; by rewrite lookup_fmap, Hv1)).
    cbn [rbind].
    rewrite (parse_json_field_holds "tags" _ v2 s2)
      by (done || (rewrite lookup_insert_ne by done; unfold dict;
                   by rewrite lookup_fmap, Hv2)).
    eexists. split; [done |]. split.
    + intros c Hc. apply not_elem_of_cons in Hc as [? Hc].
      apply not_elem_of_cons in Hc as [? _].
      rewrite !lookup_insert_ne by done. unfold dict. by rewrite lookup_fmap.
    + intros k Hk. apply elem_of_cons in Hk as [-> | Hk].
      * exists v1, s1. by rewrite lookup_insert_ne, lookup_insert_eq.
      * apply elem_of_cons in Hk as [-> | Hk]; [|by apply elem_of_nil in Hk].
        exists v2, s2. by rewrite lookup_insert_eq.
  - destruct (He "questions") as (v1 & s1 & Hv1 & Hs1); [in_list |].
    destruct (He "answers") as (v2 & s2 & Hv2 & Hs2); [in_list |].
    rewrite (parse_json_field_holds "questions" _ v1 s1)
      by (done || (unfold dict; by rewrite lookup_fmap, Hv1)).
    cbn [rbind].
    rewrite (parse_json_field_holds "answers" _ v2 s2)
      by (done || (rewrite lookup_insert_ne by done; unfold dict;
                   by rewrite lookup_fmap, Hv2)).
    eexists. split; [done |]. split.
    + intros c Hc. apply not_elem_of_cons in Hc as [? Hc].
      apply not_elem_of_cons in Hc as [? _].
      rewrite !lookup_insert_ne by done. unfold dict. by rewrite lookup_fmap.
    + intros k Hk. apply elem_of_cons in Hk as [-> | Hk].
      * exists v1, s1. by rewrite lookup_insert_ne, lookup_insert_eq.
      * apply elem_of_cons in Hk as [-> | Hk]; [|by apply elem_of_nil in Hk].
        exists v2, s2. by rewrite lookup_insert_eq.
Qed.

Lemma traverse_decode (e : entity) (rows : list row) :
  Forall (encoded_lists e) rows →
  ∃ recs, traverse (decode_lists e) (dict <$> rows) = Ok recs ∧
          Forall2 (decoded e) rows recs.
Proof.
  induction 1 as [|r rows Hr _ (recs & Ht & Hd)]; [by exists [] |].
  destruct (decode_lists_encoded e r Hr) as (rec & Hrec & Hdec).
  exists (rec :: recs). rewrite fmap_cons. cbn [traverse].
  rewrite Hrec, Ht. split; [done | by constructor].
Qed.

Lemma valid_company_name (name : string) :
  valid_fields Company (<["name" := PStr name]> ∅).
Proof. apply valid_fields_insert; [done | apply valid_fields_empty]. Qed.

Lemma three_companies_in_order (u1 u2 u3 n1 n2 n3 : string) (st : store) :
  events st = [] → data st !! "companies" = Some [] →
  u1 ≠ u2 → u1 ≠ u3 → u2 ≠ u3 →
  let st3 := after_three_companies u1 u2 u3 n1 n2 n3 st in
  ∃ recs,
    get_companies st3 = (Ok recs, st3) ∧
    (λ rec : pydict, rec !! "name") <$> recs =
    [Some (PStr "A"); Some (PStr "B"); Some (PStr "C")].
Proof.
  intros Hev Hr H12 H13 H23. unfold after_three_companies.
  set (ts := current_timestamp st).
  set (r1 := created_row Company u1 n1 (<["name" := PStr "C"]> ∅) ts).
  set (r2 := created_row Company u2 n2 (<["name" := PStr "A"]> ∅) ts).
  set (r3 := created_row Company u3 n3 (<["name" := PStr "B"]> ∅) ts).
  destruct (create_stores Company u1 n1 _ st [] Hev Hr (List.Forall_nil _)
              (valid_company_name "C")) as [-> _].
  cbn [snd]. fold ts. fold r1. set (st1 := with_row _ [] r1 st).
  assert (data st1 !! table_of Company = Some [r1]) as Hr1
    by apply lookup_insert_eq.
  assert (fresh_id u2 [r1]) as Hf2.
  { repeat constructor. subst r1. rewrite created_row_id. congruence. }
  destruct (create_stores Company u2 n2 _ st1 [r1] eq_refl Hr1 Hf2
              (valid_company_name "A")) as [-> _].
  cbn [snd]. change (current_timestamp st1) with ts. fold r2.
  set (st2 := with_row _ [r1] r2 st1).
  assert (data st2 !! table_of Company = Some [r1; r2]) as Hr2
    by apply lookup_insert_eq.
  assert (fresh_id u3 [r1; r2]) as Hf3.
  { repeat constructor; [subst r1 | subst r2]; rewrite created_row_id; congruence. }
  destruct (create_stores Company u3 n3 _ st2 [r1; r2] eq_refl Hr2 Hf3
              (valid_company_name "B")) as [-> _].
  cbn [snd]. change (current_timestamp st2) with ts. fold r3.
  set (st3 := with_row _ [r1; r2] r3 st2).
  assert (data st3 !! table_of Company = Some [r1; r2; r3]) as Hr3
    by apply lookup_insert_eq.
  pose proof (get_all_healthy Company st3 [r1; r2; r3] eq_refl Hr3) as Hg.
  cbn [get_all order_of fst snd] in Hg.
  exists (dict <$> [r2; r3; r1]). split; [|reflexivity].
  rewrite Hg. reflexivity.
Qed.

(** C6.  On a healthy store [get_all] returns the rows of the table,
    all of them and each once, in the order of the entity: jobs,
    interview sessions and job alerts (and offers) by [created_at]
    descending, companies and contacts by [name] ascending; each row is
    returned as Python reads it, and where the list columns hold what
    the store wrote there they are decoded to the lists of strings.
    Three companies created with the names C, A, B on an empty table are
    returned in the order A, B, C. *)
Theorem get_all_in_order :
  (∀ e st rows,
     events st = [] → data st !! table_of e = Some rows →
     let sorted := order_by (order_of e).1 (order_of e).2 rows in
     Permutation sorted rows ∧
     Sorted (ordered (order_of e).1 (order_of e).2) sorted ∧
     (list_fields e = [] → get_all e st = (Ok (dict <$> sorted), st)) ∧
     (Forall (encoded_lists e) rows →
      ∃ recs, get_all e st = (Ok recs, st) ∧ Forall2 (decoded e) sorted recs)) ∧
  (∀ u1 u2 u3 n1 n2 n3 st,
     events st = [] → data st !! "companies" = Some [] →
     u1 ≠ u2 → u1 ≠ u3 → u2 ≠ u3 →
     let st3 := after_three_companies u1 u2 u3 n1 n2 n3 st in
     ∃ recs,
       get_all Company st3 = (Ok recs, st3) ∧
       (λ rec : pydict, rec !! "name") <$> recs =
       [Some (PStr "A"); Some (PStr "B"); Some (PStr "C")]).
Proof.
  split.
  - intros e st rows Hev Hr sorted.
    pose proof (order_by_permutation (order_of e).1 (order_of e).2 rows) as Hp.
    split; [exact Hp |]. split; [apply order_by_sorted |].
    rewrite (get_all_healthy e st rows Hev Hr). fold sorted. split.
    + intros Hl. rewrite (traverse_total _ id); [by rewrite list_fmap_id |].
      intros rec. unfold decode_lists. by rewrite Hl.
    + intros He.
      assert (Forall (encoded_lists e) sorted) as Hs
        by (eapply Permutation_Forall; [symmetry; exact Hp | exact He]).
      destruct (traverse_decode e sorted Hs) as (recs & Ht & Hd).
      exists recs. by rewrite Ht.
  - intros. by apply three_companies_in_order.
Qed.

End Claims.

Lemma get_all_in_order_witness :
  ∃ recs,
    @get_all Reference.libs Company
      (@after_three_companies Reference.libs "c1" "c2" "c3" "2024-01-01T10:00:00"
         "2024-01-01T10:00:01" "2024-01-01T10:00:02" fresh_store)
    = (Ok recs,
       @after_three_companies Reference.libs "c1" "c2" "c3" "2024-01-01T10:00:00"
         "2024-01-01T10:00:01" "2024-01-01T10:00:02" fresh_store) ∧
    (λ rec : pydict, rec !! "name") <$> recs =
    [Some (PStr "A"); Some (PStr "B"); Some (PStr "C")].
Proof.
  apply (proj2 (@get_all_in_order Reference.libs) "c1" "c2" "c3" _ _ _ fresh_store);
    first [reflexivity | discriminate].
Defined.

(** ** The timestamps of a job under updates *)

Section Claims.
Context `{Libs}.

Lemma parse_json_field_insert (k c : string) (v : pyval) (rec : pydict) :
  k ≠ c →
  parse_json_field k (<[c := v]> rec) =
  rbind (parse_json_field k rec) (λ rec', Ok (<[c := v]> rec')).
Proof.
  intros Hne. unfold parse_json_field, getitem.
  rewrite lookup_insert_ne by done.
  destruct (rec !! k) as [x|]; [|done]. cbn [rbind].
  destruct (json_loads _) as [y|]; [|done]. cbn [rbind].
  by rewrite insert_insert_ne.
Qed.

Lemma decode_job_insert (c : string) (v : pyval) (rec rec' : pydict) :
  c ∉ list_fields Job →
  decode_lists Job rec = Ok rec' →
  decode_lists Job (<[c := v]> rec) = Ok (<[c := v]> rec').
Proof.
  intros Hc. apply not_elem_of_cons in Hc as [H1 Hc].
  apply not_elem_of_cons in Hc as [H2 _].
  unfold decode_lists. cbn [list_fields foldl rbind].
  rewrite (parse_json_field_insert "requirements") by done.
  destruct (parse_json_field "requirements" rec) as [rec1|]; [|done].
  cbn [rbind]. rewrite (parse_json_field_insert "tags") by done.
  intros ->. done.
Qed.

Lemma update_job_empty (now id : string) (st : store) (rows : list row) :
  events st = [] → data st !! "jobs" = Some rows →
  let hit := List.filter (matches (SText id)) rows in
  let st' := with_rows "jobs" (update_rows (SText id) (touch_assigns now) rows) st in
  update_job now id ∅ st =
  (if 0 <? row_count hit then get_job id st' else (Ok None, st')) ∧
  execute_query (SelectById "jobs") [PStr id] st' =
  (Ok (dict <$> (updated (touch_assigns now) <$> hit)), st').
Proof.
  intros Hev Hr hit st'.
  edestruct (update_then_select "jobs" id [("updated_at", Param)]
               [PStr now; PStr id] st jobs_columns rows _ (touch_assigns now)
               Hev eq_refl Hr eq_refl eq_refl) as [Hup Hsel].
  { by repeat constructor. }
  { reflexivity. }
  { intros r. unfold check_not_null, touch_assigns, updated. cbn [fmap list_fmap fst List.find foldl col_notnull text_notnull col_name andb].
    unfold is_null_at. by rewrite lookup_insert_eq. }
  { unfold assigned, touch_assigns. cbn. not_in_list. }
  split; [|exact Hsel].
  change (update_job now id ∅ st) with
    ((rows_affected <- execute_command (UpdateById "jobs" [("updated_at", Param)])
                         [PStr now; PStr id] ;;
      if 0 <? rows_affected then get_job id else ret None) st).
  unfold and_then. rewrite Hup. by destruct (0 <? _).
Qed.

Lemma update_job_refreshes (now id : string) (d : pydict) (st st' : store)
  (rec : pydict) :
  events st = [] →
  update_job now id d st = (Ok (Some rec), st') →
  rec !! "updated_at" = Some (PStr now) ∧ events st' = [].
Proof.
  intros Hev Hu.
  destruct (update_job_outcome now id d st Hev)
    as [[_ [e He]] | (rows & assigns & Hr & Has & Hnow & Heq)].
  { rewrite Hu in He. discriminate He. }
  cbv zeta in Heq. rewrite Hu in Heq.
  destruct (0 <? _); [|discriminate Heq].
  set (st1 := with_rows _ _ _) in Heq.
  assert (Hid : "id" ∉ assigned assigns).
  { rewrite Has. intros Hin. by destruct (update_items_keys _ _ _ Hin). }
  change (get_job id st1) with (get_one Job id st1) in Heq.
  rewrite (get_one_healthy Job id st1 (update_rows (SText id) assigns rows)) in Heq;
    [| done | apply lookup_insert_eq].
  rewrite filter_update_rows in Heq by exact Hid.
  destruct (List.filter _ rows) as [|r hit]; [discriminate Heq |].
  rewrite fmap_cons in Heq.
  destruct (decode_lists Job (dict (updated assigns r))) as [rec1|] eqn:Hd;
    [|discriminate Heq].
  cbn [rbind] in Heq. subst st1. injection Heq as Hrec Hst. subst rec1 st'.
  split; [|reflexivity].
  destruct (decode_lists_inv _ _ _ Hd) as [_ Hother].
  rewrite Hother by (cbn [list_fields]; not_in_list).
  unfold dict. by rewrite lookup_fmap, Hnow.
Qed.

Lemma update_job_store (now id : string) (d : pydict) (st : store) :
  events st = [] →
  (update_job now id d st).2 = st
  ∨ ∃ rows assigns,
      data st !! "jobs" = Some rows ∧
      assigned assigns = (update_items now d).*1 ∧
      (update_job now id d st).2 =
      with_rows "jobs" (update_rows (SText id) assigns rows) st.
Proof.
  intros Hev.
  destruct (update_job_outcome now id d st Hev)
    as [[Hst _] | (rows & assigns & Hr & Has & _ & Heq)]; [by left |].
  right. exists rows, assigns. split; [done |]. split; [done |].
  cbv zeta in Heq. rewrite Heq. destruct (0 <? _); [|done].
  change (get_job id ?s) with (get_one Job id s).
  by rewrite (get_one_healthy Job id _ (update_rows (SText id) assigns rows))
    by (done || apply lookup_insert_eq).
Qed.

Lemma column_of_update_rows (key key' : sqlval)
  (assigns : list (column * (row → sqlval))) (rows : list row) (c : string) :
  "id" ∉ assigned assigns → c ∉ assigned assigns →
  (λ r : row, r !! c) <$> List.filter (matches key') (update_rows key assigns rows) =
  (λ r : row, r !! c) <$> List.filter (matches key') rows.
Proof.
  intros Hid Hc. unfold update_rows.
  induction rows as [|r rows IH]; [done |].
  rewrite fmap_cons. cbn [List.filter].
  destruct (matches key r).
  - rewrite (matches_same_id key' r (updated assigns r)) by (by apply updated_other).
    destruct (matches key' r); [|exact IH].
    rewrite !fmap_cons, IH. f_equal. by apply updated_other.
  - destruct (matches key' r); [|exact IH]. by rewrite !fmap_cons, IH.
Qed.

Lemma update_job_keeps_created_at (now id id' : string) (d : pydict) (st : store) :
  events st = [] → d !! "created_at" = None →
  events (update_job now id d st).2 = [] ∧
  stored_column "jobs" "created_at" id' (update_job now id d st).2 =
  stored_column "jobs" "created_at" id' st.
Proof.
  intros Hev Hd.
  destruct (update_job_store now id d st Hev)
    as [-> | (rows & assigns & Hr & Has & ->)]; [done |].
  split; [done |]. unfold stored_column, rows_of, with_rows. cbn [data].
  rewrite lookup_insert_eq, Hr. cbn [default].
  apply column_of_update_rows; rewrite Has; intros Hin;
    destruct (update_items_keys _ _ _ Hin) as [Hne [Heq | [v Hv]]];
    try done. by rewrite Hd in Hv.
Qed.

Lemma run_updates_keep_created_at (id id' : string) (us : list (string * pydict))
  (st : store) :
  events st = [] → Forall (λ u, u.2 !! "created_at" = None) us →
  events (run_updates id us st) = [] ∧
  stored_column "jobs" "created_at" id' (run_updates id us st) =
  stored_column "jobs" "created_at" id' st.
Proof.
  intros Hev Hus. revert st Hev.
  induction Hus as [|[now d] us Hd _ IH]; intros st Hev; [done |].
  change (run_updates id ((now, d) :: us) st)
    with (run_updates id us (update_job now id d st).2).
  destruct (update_job_keeps_created_at now id id' d st Hev Hd) as [Hev' Hc].
  destruct (IH _ Hev') as [Hev'' Hc']. split; [done |]. by rewrite Hc', Hc.
Qed.

Lemma get_job_table (id : string) (st st' : store) (o : option pydict) :
  events st = [] → get_job id st = (Ok o, st') →
  ∃ rows, data st !! "jobs" = Some rows.
Proof.
  intros Hev Hg. destruct (data st !! "jobs") as [rows|] eqn:Hr; [by eexists |].
  unfold get_job, and_then in Hg.
  rewrite (execute_query_healthy _ _ _ Hev) in Hg.
  unfold exec_stmt, open_table in Hg. rewrite Hr in Hg. discriminate Hg.
Qed.

Lemma get_job_stored (id c : string) (st st' : store) (rec : pydict) :
  events st = [] → c ∉ list_fields Job →
  get_job id st = (Ok (Some rec), st') →
  ∃ v rest, stored_column "jobs" c id st = v :: rest ∧ rec !! c = to_py <$> v.
Proof.
  intros Hev Hc Hg. destruct (get_job_table _ _ _ _ Hev Hg) as [rows Hr].
  change (get_job id st) with (get_one Job id st) in Hg.
  rewrite (get_one_healthy Job id st rows Hev Hr) in Hg.
  unfold stored_column, rows_of. rewrite Hr. cbn [default].
  change (Datatypes.id rows) with rows.
  destruct (List.filter _ rows) as [|r hit]; [discriminate Hg |].
  destruct (decode_lists Job (dict r)) as [rec1|] eqn:Hd; [|discriminate Hg].
  cbn [rbind] in Hg. injection Hg as Hrec _. subst rec1.
  exists (r !! c), ((λ r : row, r !! c) <$> hit). split; [reflexivity |].
  destruct (decode_lists_inv _ _ _ Hd) as [_ Hother].
  rewrite Hother by exact Hc. unfold dict. by rewrite lookup_fmap.
Qed.

Lemma update_job_touch (now id : string) (st : store) (rec0 : pydict) :
  events st = [] → get_job id st = (Ok (Some rec0), st) →
  ∃ st', update_job now id ∅ st =
           (Ok (Some (<["updated_at" := PStr now]> rec0)), st') ∧
         events st' = [].
Proof.
  intros Hev Hg. destruct (get_job_table _ _ _ _ Hev Hg) as [rows Hr].
  change (get_job id st) with (get_one Job id st) in Hg.
  rewrite (get_one_healthy Job id st rows Hev Hr) in Hg.
  destruct (update_job_empty now id st rows Hev Hr) as [Hu _].
  cbv zeta in Hu. rewrite Hu.
  destruct (List.filter _ rows) as [|r hit] eqn:Hf; [discriminate Hg |].
  destruct (decode_lists Job (dict r)) as [rec1|] eqn:Hd; [|discriminate Hg].
  cbn [rbind] in Hg. injection Hg as Hrec. subst rec1.
  rewrite (proj2 (row_count_positive (r :: hit))) by done.
  exists (with_rows "jobs" (update_rows (SText id) (touch_assigns now) rows) st).
  split; [|reflexivity].
  change (get_job id ?s) with (get_one Job id s).
  rewrite (get_one_healthy Job id _ (update_rows (SText id) (touch_assigns now) rows))
    by (done || apply lookup_insert_eq).
  rewrite filter_update_rows by (unfold assigned, touch_assigns; cbn; not_in_list).
  rewrite Hf, fmap_cons.
  assert (Hrow : dict (updated (touch_assigns now) r) =
                 <["updated_at" := PStr now]> (dict r)).
  { unfold updated, touch_assigns, dict. cbn [foldl col_name col_affinity text_notnull apply_affinity].
    by rewrite fmap_insert. }
  rewrite Hrow.
  by rewrite (decode_job_insert "updated_at" (PStr now) (dict r) rec0)
    by (done || (cbn [list_fields]; not_in_list)).
Qed.

Lemma get_job_store (id : string) (st : store) :
  events st = [] → (get_job id st).2 = st.
Proof.
  intros Hev. unfold get_job, and_then.
  rewrite (execute_query_healthy _ _ _ Hev).
  destruct (exec_stmt _ _ _ _) as [[cur db]|[]]; try done.
  destruct (dict <$> fetchall cur) as [|job jobs]; [done |].
  unfold and_then, lift, ret.
  destruct (parse_json_field "requirements" job) as [job1|]; [|done].
  by destruct (parse_json_field "tags" job1).
Qed.

Lemma stamped_update_rows (key key' : sqlval)
  (assigns : list (column * (row → sqlval))) (rows : list row)
  (Q : option sqlval → Prop) (c : string) :
  "id" ∉ assigned assigns →
  (∀ r, Q (updated assigns r !! c)) →
  Forall Q ((λ r : row, r !! c) <$> List.filter (matches key') rows) →
  Forall Q ((λ r : row, r !! c)
              <$> List.filter (matches key') (update_rows key assigns rows)).
Proof.
  intros Hid Hq. unfold update_rows.
  induction rows as [|r rows IH]; intros Hall; [done |].
  rewrite fmap_cons. cbn [List.filter] in *.
  destruct (matches key r).
  - rewrite (matches_same_id key' r (updated assigns r)) by (by apply updated_other).
    destruct (matches key' r); [|by apply IH].
    rewrite fmap_cons in *. apply Forall_cons in Hall as [_ Hall].
    constructor; [apply Hq | by apply IH].
  - destruct (matches key' r); [|by apply IH].
    rewrite fmap_cons in *. apply Forall_cons in Hall as [Hr Hall].
    constructor; [done | by apply IH].
Qed.

Lemma update_job_stamps (now id id' : string) (d : pydict) (st : store)
  (P : string → Prop) :
  events st = [] → P now →
  Forall (λ v, ∃ u, v = Some (SText u) ∧ P u)
         (stored_column "jobs" "updated_at" id' st) →
  Forall (λ v, ∃ u, v = Some (SText u) ∧ P u)
         (stored_column "jobs" "updated_at" id' (update_job now id d st).2).
Proof.
  intros Hev Hnow Hst.
  destruct (update_job_outcome now id d st Hev)
    as [[-> _] | (rows & assigns & Hr & Has & Hup & Heq)]; [done |].
  cbv zeta in Heq. rewrite Heq.
  assert (Hsnd : ∀ s, events s = [] →
            (if 0 <? row_count (List.filter (matches (SText id)) rows)
             then get_job id s else (Ok None, s)).2 = s).
  { intros s Hs. destruct (0 <? _); [by apply get_job_store | done]. }
  rewrite Hsnd by done.
  unfold stored_column, rows_of, with_rows in *. cbn [data].
  rewrite lookup_insert_eq. rewrite Hr in Hst. cbn [default] in *.
  apply stamped_update_rows; [| |exact Hst].
  - rewrite Has. intros Hin. by destruct (update_items_keys _ _ _ Hin).
  - intros r. exists now. by rewrite Hup.
Qed.

Lemma run_updates_stamps (id id' : string) (us : list (string * pydict))
  (st : store) (P : string → Prop) :
  events st = [] → Forall (λ u, P u.1) us →
  Forall (λ v, ∃ u, v = Some (SText u) ∧ P u)
         (stored_column "jobs" "updated_at" id' st) →
  Forall (λ v, ∃ u, v = Some (SText u) ∧ P u)
         (stored_column "jobs" "updated_at" id' (run_updates id us st)).
Proof.
  intros Hev Hus. revert st Hev.
  induction Hus as [|[now d] us Hnow _ IH]; intros st Hev Hst; [done |].
  change (run_updates id ((now, d) :: us) st)
    with (run_updates id us (update_job now id d st).2).
  apply IH.
  - destruct (update_job_outcome now id d st Hev)
      as [[-> _] | (rows & assigns & Hr & _ & _ & Heq)]; [done |].
    cbv zeta in Heq. rewrite Heq.
    destruct (0 <? _); [by rewrite get_job_store | done].
  - by apply update_job_stamps.
Qed.

Lemma stored_columns_of_created (id c : string) (d : pydict) (st : store)
  (rows : list row) :
  events st = [] → data st !! "jobs" = Some rows → fresh_id id rows →
  valid_fields Job d →
  let st0 := (create_job id c d st).2 in
  events st0 = [] ∧
  stored_column "jobs" "created_at" id st0 = [Some (SText c)] ∧
  stored_column "jobs" "updated_at" id st0 = [Some (SText c)].
Proof.
  intros Hev Hr Hf Hv.
  destruct (create_stores Job id c d st rows Hev Hr Hf Hv) as [Hc _].
  cbv zeta in Hc. change (create Job id c d st) with (create_job id c d st) in Hc.
  cbv zeta. rewrite Hc. cbn [snd]. split; [done |].
  unfold stored_column, rows_of, with_row. cbn [data table_of].
  rewrite lookup_insert_eq. cbn [default].
  change (Datatypes.id (rows ++ [?r])%list) with (rows ++ [r])%list.
  rewrite List.filter_app, (filter_fresh _ _ Hf). cbn [List.filter app].
  rewrite (proj2 (matches_text id _) (created_row_id Job id c d _)).
  split; reflexivity.
Qed.

(** C3 (amended).  In a store whose engine meets no failure, and for
    fields whose keys are names of columns of the table of jobs as the
    schema writes them:
    every call of [update_job] that returns a record returns it with
    [updated_at] equal to the reading of the clock it was given, so that
    of two updates in a row the later returns an [updated_at] that is
    not less when the clock did not go back; an update with no fields of
    a job that is there returns the job's record with only [updated_at]
    replaced; [created_at] is the same after any sequence of updates
    none of whose fields has the key [created_at]; and a job that the
    store created, after any such sequence of updates at readings of
    the clock not earlier than that of its creation, still has the
    [created_at] of its creation and an [updated_at] that is not
    less. *)
Theorem update_job_timestamps (id : string) (st : store) :
  events st = [] →
  (∀ now d rec st',
     column_keys d →
     update_job now id d st = (Ok (Some rec), st') →
     rec !! "updated_at" = Some (PStr now)) ∧
  (∀ now1 now2 d1 d2 rec1 st1 rec2 st2,
     column_keys d1 → column_keys d2 → str_le now1 now2 →
     update_job now1 id d1 st = (Ok (Some rec1), st1) →
     update_job now2 id d2 st1 = (Ok (Some rec2), st2) →
     ∃ u1 u2, rec1 !! "updated_at" = Some (PStr u1) ∧
              rec2 !! "updated_at" = Some (PStr u2) ∧ str_le u1 u2) ∧
  (∀ now rec0 s0,
     get_job id st = (Ok (Some rec0), s0) →
     ∃ st1, update_job now id ∅ st =
            (Ok (Some (<["updated_at" := PStr now]> rec0)), st1)) ∧
  (∀ us rec0 s0 rec1 s1,
     Forall (λ u, column_keys u.2 ∧ u.2 !! "created_at" = None) us →
     get_job id st = (Ok (Some rec0), s0) →
     get_job id (run_updates id us st) = (Ok (Some rec1), s1) →
     rec1 !! "created_at" = rec0 !! "created_at") ∧
  (∀ c d0 rows us rec1 s1,
     data st !! "jobs" = Some rows → fresh_id id rows → valid_fields Job d0 →
     Forall (λ u, column_keys u.2 ∧ u.2 !! "created_at" = None ∧ str_le c u.1) us →
     get_job id (run_updates id us (create_job id c d0 st).2) = (Ok (Some rec1), s1) →
     rec1 !! "created_at" = Some (PStr c) ∧
     ∃ u, rec1 !! "updated_at" = Some (PStr u) ∧ str_le c u).
Proof.
  intros Hev. split; [|split; [|split; [|split]]].
  - intros now d rec st' _ Hu. by destruct (update_job_refreshes _ _ _ _ _ _ Hev Hu).
  - intros now1 now2 d1 d2 rec1 st1 rec2 st2 _ _ Hle Hu1 Hu2.
    destruct (update_job_refreshes _ _ _ _ _ _ Hev Hu1) as [H1 Hev1].
    destruct (update_job_refreshes _ _ _ _ _ _ Hev1 Hu2) as [H2 _].
    by exists now1, now2.
  - intros now rec0 s0 Hg.
    assert (s0 = st) as ->.
    { rewrite <- (get_job_store id st Hev). by rewrite Hg. }
    destruct (update_job_touch now id st rec0 Hev Hg) as (st1 & Hu & _).
    by exists st1.
  - intros us rec0 s0 rec1 s1 Hus Hg0 Hg1.
    assert (Hus' : Forall (λ u : string * pydict, u.2 !! "created_at" = None) us)
      by (eapply Forall_impl; [exact Hus |]; by intros u [_ Hu]).
    destruct (run_updates_keep_created_at id id us st Hev Hus') as [Hev' Hcol].
    assert (Hc : "created_at" ∉ list_fields Job) by (cbn [list_fields]; not_in_list).
    destruct (get_job_stored id "created_at" _ _ _ Hev Hc Hg0) as (v0 & r0 & Hs0 & ->).
    destruct (get_job_stored id "created_at" _ _ _ Hev' Hc Hg1) as (v1 & r1 & Hs1 & ->).
    rewrite Hcol, Hs0 in Hs1. by injection Hs1 as -> _.
  - intros c d0 rows us rec1 s1 Hr Hf Hv Hus Hg.
    destruct (stored_columns_of_created id c d0 st rows Hev Hr Hf Hv)
      as (Hev0 & Hc0 & Hu0).
    cbv zeta in *. set (st0 := (create_job id c d0 st).2) in *.
    assert (Hus' : Forall (λ u : string * pydict, u.2 !! "created_at" = None) us)
      by (eapply Forall_impl; [exact Hus |]; by intros u (_ & Hu & _)).
    assert (Hcl : Forall (λ u : string * pydict, str_le c u.1) us)
      by (eapply Forall_impl; [exact Hus |]; by intros u (_ & _ & Hu)).
    destruct (run_updates_keep_created_at id id us st0 Hev0 Hus') as [Hev' Hcol].
    pose proof (run_updates_stamps id id us st0 (str_le c) Hev0 Hcl) as Hst.
    rewrite Hu0 in Hst.
    assert (Hc : "created_at" ∉ list_fields Job) by (cbn [list_fields]; not_in_list).
    assert (Hu : "updated_at" ∉ list_fields Job) by (cbn [list_fields]; not_in_list).
    destruct (get_job_stored id "created_at" _ _ _ Hev' Hc Hg) as (v1 & r1 & Hs1 & ->).
    destruct (get_job_stored id "updated_at" _ _ _ Hev' Hu Hg) as (v2 & r2 & Hs2 & ->).
    rewrite Hcol, Hc0 in Hs1. injection Hs1 as <- _. split; [done |].
    assert (Forall (λ v, ∃ u, v = Some (SText u) ∧ str_le c u)
                   (stored_column "jobs" "updated_at" id (run_updates id us st0)))
      as Hall.
    { apply Hst. constructor; [|constructor]. exists c. split; [done |].
      unfold str_le. by rewrite string_compare_refl. }
    rewrite Hs2 in Hall. apply Forall_cons in Hall as [(u & -> & Hle) _].
    by exists u.
Qed.

End Claims.

Lemma column_keys_empty : column_keys ∅.
Proof. intros k [v Hv]. by rewrite lookup_empty in Hv. Qed.

Lemma column_keys_insert (k : string) (v : pyval) (d : pydict) :
  k ∈ col_name <$> jobs_columns → column_keys d → column_keys (<[k := v]> d).
Proof.
  intros Hk Hd k' Hk'. destruct (decide (k = k')) as [<-|Hne]; [done |].
  rewrite lookup_insert_ne in Hk' by done. by apply Hd.
Qed.

Lemma update_job_timestamps_witness :
  record_after_updates !! "created_at" = Some (PStr "2024-01-01T10:00:00") ∧
  ∃ u, record_after_updates !! "updated_at" = Some (PStr u) ∧
       str_le "2024-01-01T10:00:00" u.
Proof.
  refine (proj2 (proj2 (proj2 (proj2
            (@update_job_timestamps Reference.libs "j1" fresh_store eq_refl))))
            "2024-01-01T10:00:00" (<["title" := PStr "Engineer"]> ∅) []
            [ ("2024-01-01T11:00:00", <["stage" := PStr "applied"]> ∅);
              ("2024-01-01T12:00:00", ∅) ]
            record_after_updates store_after_updates eq_refl _ _ _ eq_refl).
  - constructor.
  - apply valid_fields_insert; [reflexivity | apply valid_fields_empty].
  - apply List.Forall_cons; [|apply List.Forall_cons; [|apply List.Forall_nil]].
    + split; [|split; [reflexivity | discriminate]].
      apply column_keys_insert; [cbn; in_list | apply column_keys_empty].
    + split; [apply column_keys_empty | split; [reflexivity | discriminate]].
Defined.

(** An update whose fields have the key [created_at] writes that column:
    the job created at ten on the first of January 2024 reads, after the
    update, as created in 1999, while [updated_at] is the clock's
    reading. *)
Lemma update_job_overwrites_created_at :
  returned_field (@get_job Reference.libs "j1" store_with_job) "created_at"
  = Ok (Some (Some (PStr "2024-01-01T10:00:00"))) ∧
  returned_field
    (@update_job Reference.libs "2024-02-01T08:00:00" "j1"
       (<["created_at" := PStr "1999-12-31T00:00:00"]> ∅) store_with_job)
    "created_at"
  = Ok (Some (Some (PStr "1999-12-31T00:00:00"))) ∧
  returned_field
    (@get_job Reference.libs "j1"
       (@update_job Reference.libs "2024-02-01T08:00:00" "j1"
          (<["created_at" := PStr "1999-12-31T00:00:00"]> ∅) store_with_job).2)
    "created_at"
  = Ok (Some (Some (PStr "1999-12-31T00:00:00"))).
Proof. repeat split; vm_compute; reflexivity. Qed.

(** ** Failures of the engine at the connection boundary *)

Section Guarded.
Context `{Libs}.

Lemma no_sqlite_rbind {A B} (r : result A) (k : A → result B) :
  no_sqlite_error r → (∀ a, no_sqlite_error (k a)) → no_sqlite_error (rbind r k).
Proof.
  intros Hr Hk msg. destruct r as [a|e]; cbn [rbind]; [apply Hk |].
  intros [= ->]. by apply (Hr msg).
Qed.

Lemma no_sqlite_traverse {A B} (f : A → result B) (l : list A) :
  (∀ x, no_sqlite_error (f x)) → no_sqlite_error (traverse f l).
Proof.
  intros Hf. induction l as [|x l IH]; [done |].
  cbn [traverse]. apply no_sqlite_rbind; [apply Hf | intros y].
  apply no_sqlite_rbind; [exact IH | done].
Qed.

Lemma no_sqlite_parse_json_field (k : string) (rec : pydict) :
  no_sqlite_error (parse_json_field k rec).
Proof.
  unfold parse_json_field. apply no_sqlite_rbind.
  - unfold getitem. by destruct (rec !! k).
  - intros v. apply no_sqlite_rbind; [|done].
    unfold json_loads. destruct (py_or v (PStr "[]")); try done.
    destruct (Json.loads_strs _); [done |]. by destruct (loads_other _).
Qed.

Lemma no_sqlite_mul_float (x : pyval) (y : float) :
  no_sqlite_error (mul_float x y).
Proof.
  destruct x; try done. cbn [mul_float]. apply no_sqlite_rbind; [|done].
  unfold float_of_int. by destruct (PrimFloat.is_infinity _).
Qed.

Lemma guarded_get_connection {A} (body : connection → result A * connection) :
  guarded (get_connection body).
Proof.
  intros st msg. unfold get_connection, connect.
  destruct (events st) as [|[|m|m] es]; try done;
    by destruct (body _) as [[a|[]] conn'].
Qed.

Lemma guarded_ret {A} (a : A) : guarded (ret a).
Proof. by intros st msg. Qed.

Lemma guarded_raise {A} (m : string) : guarded (@raise A (DatabaseError m)).
Proof. by intros st msg. Qed.

Lemma guarded_lift {A} (r : result A) : no_sqlite_error r → guarded (lift r).
Proof. intros Hr st. exact Hr. Qed.


End Guarded.

#[export] Hint Resolve guarded_ret guarded_raise guarded_lift
  no_sqlite_parse_json_field no_sqlite_mul_float no_sqlite_traverse
  no_sqlite_rbind : vault.


Section GuardedCalls.
Context `{Libs}.


End GuardedCalls.

Section Surfaced.
Context `{Libs}.

Lemma surfaced_quiet {A} (m : M A) :
  (∀ st, events (m st).2 = events st) → surfaced m.
Proof.
  intros Hm st. exists []. rewrite Hm. split; [done |].
  intros ev msg Hin. by apply elem_of_nil in Hin.
Qed.

Lemma surfaced_ret {A} (a : A) : surfaced (ret a).
Proof. by apply surfaced_quiet. Qed.

Lemma surfaced_raise {A} (e : exn) : surfaced (@raise A e).
Proof. by apply surfaced_quiet. Qed.

Lemma surfaced_lift {A} (r : result A) : surfaced (lift r).
Proof. by apply surfaced_quiet. Qed.


Lemma surfaced_get_connection {A} (body : connection → result A * connection) :
  meets_fault body → surfaced (get_connection body).
Proof.
  intros Hbody st. unfold get_connection, connect.
  destruct (events st) as [|[|m|m] es] eqn:Hev.
  - exists []. split; [|intros ev msg Hin; by apply elem_of_nil in Hin].
    by destruct (body _) as [[a|[]] conn'].
  - exists [Proceeds]. split.
    + by destruct (body _) as [[a|[]] conn'].
    + intros ev msg Hin Hmsg. apply list_elem_of_singleton in Hin as ->.
      discriminate Hmsg.
  - exists [ConnectFails m]. split; [done |].
    intros ev msg Hin Hmsg. apply list_elem_of_singleton in Hin as ->.
    by injection Hmsg as ->.
  - exists [StatementFails m]. rewrite (Hbody _ m) by done. split; [done |].
    intros ev msg Hin Hmsg. apply list_elem_of_singleton in Hin as ->.
    by injection Hmsg as ->.
Qed.



Lemma meets_fault_query (q : stmt) (ps : list pyval) :
  meets_fault (λ conn,
    match execute q ps conn with
    | (Ok cursor, conn') => (Ok (dict <$> fetchall cursor), conn')
    | (Raise e, conn') => (Raise e, conn')
    end).
Proof. intros c msg Hc. unfold execute. by rewrite Hc. Qed.

Lemma meets_fault_command (q : stmt) (ps : list pyval) :
  meets_fault (λ conn,
    match execute q ps conn with
    | (Ok cursor, conn') => (Ok (rowcount cursor), commit conn')
    | (Raise e, conn') => (Raise e, conn')
    end).
Proof. intros c msg Hc. unfold execute. by rewrite Hc. Qed.

Lemma meets_fault_schema : meets_fault executescript_schema.
Proof. intros c msg Hc. unfold executescript_schema. by rewrite Hc. Qed.

Lemma surfaced_execute_query (q : stmt) (ps : list pyval) :
  surfaced (execute_query q ps).
Proof. apply surfaced_get_connection, meets_fault_query. Qed.

Lemma surfaced_execute_command (q : stmt) (ps : list pyval) :
  surfaced (execute_command q ps).
Proof. apply surfaced_get_connection, meets_fault_command. Qed.

Lemma surfaced_init_schema : surfaced _init_schema.
Proof. apply surfaced_get_connection, meets_fault_schema. Qed.




End Surfaced.

#[export] Hint Resolve surfaced_ret surfaced_raise surfaced_lift
  surfaced_execute_query surfaced_execute_command surfaced_init_schema : vault.


Section SurfacedCalls.
Context `{Libs}.



End SurfacedCalls.

Section Malformed.
Context `{Libs}.



End Malformed.



(** * Further properties of the store *)

(** ** The tables that a call leaves alone *)

Section FrameFacts.
Context `{Libs}.

Lemma exec_stmt_frame (q : stmt) (ps : list pyval) (ts : string)
  (db db' : database) (cur : cursor) (t : string) :
  exec_stmt q ps ts db = Ok (cur, db') → stmt_table q ≠ t → db' !! t = db !! t.
Proof.
  intros He Hne. destruct q as [t' names|t' key dir|t'|t' sets|t'];
    cbn [stmt_table] in Hne.
  - unfold exec_stmt, open_table in He.
    destruct (table_columns t') as [cols|]; [|done].
    destruct (db !! t') as [rows|]; [|done]. cbn [rbind] in He.
    destruct (traverse _ names); [|done]. cbn [rbind] in He.
    destruct (check_arity _ _); [|done]. cbn [rbind] in He.
    destruct (traverse bind ps) as [vals|]; [|done]. cbn [rbind] in He.
    destruct (check_not_null _ _ _); [|done]. cbn [rbind] in He.
    destruct (check_unique _ _ _); [|done]. cbn [rbind] in He.
    injection He as _ <-. by rewrite lookup_insert_ne.
  - unfold exec_stmt, open_table in He.
    destruct (table_columns t') as [cols|]; [|done].
    destruct (db !! t') as [rows|]; [|done]. cbn [rbind] in He.
    destruct (named_column _ _ _ _); [|done]. cbn [rbind] in He.
    destruct (check_arity _ _); [|done]. cbn [rbind] in He.
    by injection He as _ <-.
  - unfold exec_stmt, open_table in He.
    destruct (table_columns t') as [cols|]; [|done].
    destruct (db !! t') as [rows|]; [|done]. cbn [rbind] in He.
    destruct (check_arity _ _); [|done]. cbn [rbind] in He.
    destruct (traverse bind ps) as [vals|]; [|done]. cbn [rbind] in He.
    by injection He as _ <-.
  - apply exec_update_inv in He
      as (cols & rows & targets & vals & assigns & rest & _ & _ & _ & _ & _ & _ & ->).
    by rewrite lookup_insert_ne.
  - unfold exec_stmt, open_table in He.
    destruct (table_columns t') as [cols|]; [|done].
    destruct (db !! t') as [rows|]; [|done]. cbn [rbind] in He.
    destruct (check_arity _ _); [|done]. cbn [rbind] in He.
    destruct (traverse bind ps) as [vals|]; [|done]. cbn [rbind] in He.
    injection He as _ <-. by rewrite lookup_insert_ne.
Qed.

Lemma read_only_frames {A} (t : string) (m : M A) : read_only m → frames t m.
Proof. intros Hm st rows Hr. by rewrite Hm. Qed.

Lemma read_only_ret {A} (a : A) : read_only (ret a).
Proof. by intros st. Qed.

Lemma read_only_raise {A} (e : exn) : read_only (@raise A e).
Proof. by intros st. Qed.

Lemma read_only_lift {A} (r : result A) : read_only (lift r).
Proof. by intros st. Qed.

Lemma read_only_execute_query (q : stmt) (ps : list pyval) :
  read_only (execute_query q ps).
Proof. intros st. apply execute_query_data. Qed.

Lemma read_only_and_then {A B} (m : M A) (k : A → M B) :
  read_only m → (∀ a, read_only (k a)) → read_only (and_then m k).
Proof.
  intros Hm Hk st. unfold and_then. specialize (Hm st).
  destruct (m st) as [[a|e] st1]; cbn [snd] in *; [|done].
  by rewrite Hk.
Qed.

Lemma frames_and_then {A B} (t : string) (m : M A) (k : A → M B) :
  frames t m → (∀ a, frames t (k a)) → frames t (and_then m k).
Proof.
  intros Hm Hk st rows Hr. unfold and_then. specialize (Hm st rows Hr).
  destruct (m st) as [[a|e] st1]; cbn [snd] in *; [|done].
  by apply Hk.
Qed.

Lemma frames_execute_command (t : string) (q : stmt) (ps : list pyval) :
  stmt_table q ≠ t → frames t (execute_command q ps).
Proof.
  intros Hne st rows Hr.
  destruct (execute_command_data q ps st) as [-> | [cur He]]; [done |].
  by rewrite (exec_stmt_frame _ _ _ _ _ _ t He Hne).
Qed.

Lemma create_tables_keeps (db : database) (t : string) (rows : list row) :
  db !! t = Some rows → create_tables db !! t = Some rows.
Proof.
  intros Hr. unfold create_tables.
  induction schema as [|[t' cols] sch IH]; [done |]. cbn [foldr].
  destruct (foldr _ db sch !! t') eqn:Ht; [done |].
  destruct (decide (t' = t)) as [->|Hne]; [congruence |].
  by rewrite lookup_insert_ne.
Qed.

Lemma frames_init_schema (t : string) : frames t _init_schema.
Proof.
  intros st rows Hr. unfold _init_schema, get_connection, connect, executescript_schema.
  destruct (events st) as [|[|m|m] es]; cbn [fault pending clock durable];
    try done; cbn; by apply create_tables_keeps.
Qed.

End FrameFacts.

#[export] Hint Resolve read_only_ret read_only_raise read_only_lift
  read_only_execute_query : vault.

Ltac reads :=
  repeat first
    [ apply read_only_and_then; [|intros ?]
    | match goal with |- read_only (match ?x with _ => _ end) => destruct x end
    | match goal with |- read_only (if ?x then _ else _) => destruct x end
    | solve [auto with vault] ].

Ltac frame :=
  repeat first
    [ apply frames_and_then; [|intros ?]
    | apply read_only_frames; solve [reads]
    | apply frames_execute_command; cbn [stmt_table]; congruence
    | match goal with |- frames _ (match ?x with _ => _ end) => destruct x end
    | match goal with |- frames _ (if ?x then _ else _) => destruct x end ].

Section FrameOfCalls.
Context `{Libs}.

(** X1.  A call writes no table but its own: the rows of every other table
    are after the call what they were before it, whether the call
    returns or raises, and whatever the engine meets.  The calls that
    read, and the schema, write no table that is there. *)
Theorem perform_frame (c : call) (st : store) (t : string) (rows : list row) :
  data st !! t = Some rows → writes c ≠ Some t →
  data (perform c st).2 !! t = Some rows.
Proof.
  intros Hr Hw.
  assert (∀ A (m : M A), frames t m →
            data (outcome (m st)).2 !! t = Some rows) as Hout.
  { intros A m Hm. unfold outcome. cbn [snd]. by apply Hm. }
  destruct c as [|e uuid4 now fields|e id|e| | | | | |]; cbn [perform writes] in *;
    apply Hout; [apply frames_init_schema | ..];
    try destruct e; cbn [create get_one get_all table_of] in *;
    unfold create_job, create_company, create_contact, create_offer,
      create_job_alert, create_interview_session, get_job, get_company,
      get_contact, get_offer, get_job_alert, get_interview_session, get_jobs,
      get_companies, get_contacts, get_offers, get_job_alerts,
      get_interview_sessions, update_job, delete_job, delete_contact,
      toggle_job_alert, run_job_alert, calculate_offer_value, get_offer;
    cbv zeta; frame.
Qed.

End FrameOfCalls.

(** ** Reading, and applying the schema *)

Lemma perform_frame_witness :
  data (@perform Reference.libs (DeleteJob "j1") store_with_job_and_offer).2
    !! "offers"
  = Some (rows_of "offers" store_with_job_and_offer) ∧
  key_of "job_id" <$> rows_of "offers" store_with_job_and_offer = [SText "j1"] ∧
  data (@perform Reference.libs (DeleteJob "j1") store_with_job_and_offer).2
    !! "jobs" = Some [].
Proof.
  split; [|split; vm_compute; reflexivity].
  apply (@perform_frame Reference.libs (DeleteJob "j1") store_with_job_and_offer
           "offers" (rows_of "offers" store_with_job_and_offer)).
  - reflexivity.
  - discriminate.
Defined.

Section Schema.
Context `{Libs}.

(** X2.  The calls that read leave the data as they were; and so does
    [execute_query] when it is given, instead of a SELECT, an INSERT, an
    UPDATE or a DELETE of the shapes that the store issues, for it never
    commits.  (A statement that changes the schema, which the engine
    makes durable without a commit, is not among these.) *)
Theorem reads_change_nothing (st : store) :
  (∀ e id, data (perform (Get e id) st).2 = data st) ∧
  (∀ e, data (perform (GetAll e) st).2 = data st) ∧
  (∀ id, data (perform (CalculateValue id) st).2 = data st) ∧
  (∀ q ps, data (execute_query q ps st).2 = data st).
Proof.
  assert (∀ A (m : M A), read_only m → data (outcome (m st)).2 = data st) as Hout.
  { intros A m Hm. unfold outcome. cbn [snd]. by apply Hm. }
  split; [|split; [|split]].
  - intros e id. cbn [perform]. apply Hout. destruct e; cbn [get_one];
      unfold get_job, get_company, get_contact, get_offer, get_job_alert,
        get_interview_session; reads.
  - intros e. cbn [perform]. apply Hout. destruct e; cbn [get_all];
      unfold get_jobs, get_companies, get_contacts, get_offers, get_job_alerts,
        get_interview_sessions; reads.
  - intros id. cbn [perform]. apply Hout.
    unfold calculate_offer_value, get_offer. reads.
  - intros q ps. apply execute_query_data.
Qed.

Lemma create_tables_from (sch : list (string * list column)) (db : database)
  (t : string) :
  t ∈ sch.*1 →
  is_Some (foldr (λ '(t, _) db,
                    match db !! t with Some _ => db | None => <[t := []]> db end)
                 db sch !! t).
Proof.
  induction sch as [|[t' cols] sch IH]; intros Hin; [by apply elem_of_nil in Hin |].
  rewrite fmap_cons in Hin. cbn [foldr fst].
  destruct (decide (t' = t)) as [->|Hne].
  - destruct (foldr _ db sch !! t) eqn:Ht; [by rewrite Ht |].
    by rewrite lookup_insert_eq.
  - apply elem_of_cons in Hin as [Heq | Hin]; [cbn in Heq; congruence |].
    destruct (foldr _ db sch !! t') eqn:Ht; [by apply IH |].
    rewrite lookup_insert_ne by done. by apply IH.
Qed.

Lemma create_tables_full (sch : list (string * list column)) (db : database) :
  (∀ t, t ∈ sch.*1 → is_Some (db !! t)) →
  foldr (λ '(t, _) db,
           match db !! t with Some _ => db | None => <[t := []]> db end)
        db sch = db.
Proof.
  induction sch as [|[t' cols] sch IH]; intros Hall; [done |].
  cbn [foldr]. rewrite IH.
  - destruct (Hall t') as [rows ->]; [|done]. rewrite fmap_cons. apply list_elem_of_here.
  - intros t Hin. apply Hall. rewrite fmap_cons. by apply list_elem_of_further.
Qed.

Lemma create_tables_new (sch : list (string * list column)) (db : database)
  (t : string) :
  db !! t = None → t ∈ sch.*1 →
  foldr (λ '(t, _) db,
           match db !! t with Some _ => db | None => <[t := []]> db end)
        db sch !! t = Some [].
Proof.
  intros Hnone.
  induction sch as [|[t' cols] sch IH]; intros Hin; [by apply elem_of_nil in Hin |].
  rewrite fmap_cons in Hin. cbn [foldr fst].
  destruct (decide (t' = t)) as [->|Hne].
  - destruct (decide (t ∈ sch.*1)) as [Hin'|Hnin].
    + by rewrite (IH Hin'), (IH Hin').
    + assert (foldr (λ '(t, _) db,
                match db !! t with Some _ => db | None => <[t := []]> db end)
                db sch !! t = None) as Hn.
      { clear IH Hin. induction sch as [|[t2 c2] sch IH2]; [done |].
        rewrite fmap_cons in Hnin. apply not_elem_of_cons in Hnin as [Hne2 Hnin].
        cbn [foldr]. cbn [fst] in Hne2.
        destruct (foldr _ db sch !! t2); [by apply IH2 |].
        rewrite lookup_insert_ne by done. by apply IH2. }
      rewrite Hn. by rewrite lookup_insert_eq.
  - apply elem_of_cons in Hin as [Heq | Hin]; [cbn in Heq; congruence |].
    destruct (foldr _ db sch !! t') eqn:Ht; [by apply IH |].
    rewrite lookup_insert_ne by done. by apply IH.
Qed.

(** X3.  Applying the schema, when the engine meets no failure, returns
    without raising; afterwards each of the six tables is there; a table
    that was there keeps its rows, and one that was not is empty; and
    applying the schema again changes nothing. *)
Theorem init_schema_idempotent (st : store) :
  events st = [] →
  let st1 := (_init_schema st).2 in
  (_init_schema st).1 = Ok tt ∧
  (∀ t, t ∈ schema.*1 → is_Some (data st1 !! t)) ∧
  (∀ t rows, data st !! t = Some rows → data st1 !! t = Some rows) ∧
  (∀ t, t ∈ schema.*1 → data st !! t = None → data st1 !! t = Some []) ∧
  _init_schema st1 = (Ok tt, st1).
Proof.
  intros Hev.
  assert (Hrun : ∀ s, events s = [] →
            _init_schema s =
            (Ok tt, Store (create_tables (data s)) (current_timestamp s) [])).
  { intros s Hs. unfold _init_schema, get_connection, connect, executescript_schema.
    rewrite Hs. cbn [fault pending clock durable]. unfold close.
    cbn [fault pending clock durable]. by rewrite Hs. }
  rewrite (Hrun st Hev). cbn [fst snd data].
  split; [done |]. split; [|split; [|split]].
  - intros t Hin. by apply create_tables_from.
  - intros t rows Hr. by apply create_tables_keeps.
  - intros t Hin Hnone. by apply create_tables_new.
  - rewrite Hrun by done. cbn [data current_timestamp].
    unfold create_tables at 1. rewrite create_tables_full; [done |].
    intros t Hin. by apply create_tables_from.
Qed.

End Schema.

Lemma init_schema_idempotent_witness :
  (_init_schema store_with_job).1 = Ok tt ∧
  data (_init_schema store_with_job).2 !! "jobs"
  = Some (rows_of "jobs" store_with_job) ∧
  _init_schema (_init_schema store_with_job).2
  = (Ok tt, (_init_schema store_with_job).2).
Proof.
  pose proof (init_schema_idempotent store_with_job eq_refl)
    as (H1 & _ & H3 & _ & H5).
  split; [exact H1 |]. split; [|exact H5].
  apply H3. reflexivity.
Defined.

(** ** Identifiers taken and identifiers unknown *)

Section CreateEdges.
Context `{Libs}.

Lemma create_unfold (e : entity) (uuid4 now : string) (d : pydict) :
  create e uuid4 now d =
  (_ <- execute_command (Insert (table_of e) (insert_columns e))
          (create_params e uuid4 now d) ;;
   get_one e uuid4).
Proof. by destruct e. Qed.

Lemma check_unique_taken (t id : string) (rows : list row) (r : row) :
  (∃ old, old ∈ rows ∧ old !! "id" = Some (SText id)) →
  key_of "id" r = SText id →
  check_unique t rows r =
  Raise (SqliteError ("UNIQUE constraint failed: " +:+ t +:+ ".id")).
Proof.
  intros (old & Hin & Hid) Hr. unfold check_unique.
  replace (existsb _ rows) with true; [done |]. symmetry.
  apply existsb_exists. exists old. split; [by apply list_elem_of_In |].
  rewrite Hr. apply sql_eqb_text. unfold key_of. by rewrite Hid.
Qed.

Lemma exec_insert_taken (t ts id : string) (names : list string) (ps : list pyval)
  (db : database) (cols : list column) (rows : list row) :
  table_columns t = Some cols → db !! t = Some rows →
  Forall (λ n, is_Some (find_column cols n)) names →
  length ps = length names →
  Forall (λ v, bindable v = true) ps →
  let r := new_row cols (list_to_map (zip names (sql_of <$> ps))) ts in
  check_not_null t cols r = Ok tt →
  key_of "id" r = SText id →
  (∃ old, old ∈ rows ∧ old !! "id" = Some (SText id)) →
  exec_stmt (Insert t names) ps ts db =
  Raise (SqliteError ("UNIQUE constraint failed: " +:+ t +:+ ".id")).
Proof.
  intros Hc Hr Hn Hl Hb r Hnn Hid Ht. unfold exec_stmt, open_table.
  rewrite Hc, Hr. cbn [rbind].
  assert (∃ l, traverse (named_column t cols ("table " +:+ t +:+ " has no column named ")) names = Ok l)
    as [l ->].
  { clear -Hn. induction Hn as [|n names [c Hn] _ [l IH]]; [by eexists |].
    cbn [traverse]. unfold named_column at 1. rewrite Hn. cbn [rbind].
    rewrite IH. by eexists. }
  cbn [rbind]. unfold check_arity. rewrite Hl, Nat.eqb_refl. cbn [rbind].
  rewrite (traverse_bind _ Hb). cbn [rbind]. fold r. rewrite Hnn. cbn [rbind].
  by rewrite (check_unique_taken t id rows r Ht Hid).
Qed.

(** X4.  [create] with an identifier that a row of the table already carries
    raises [DatabaseError] with the engine's message of the violated
    constraint, and stores nothing. *)
Theorem create_rejects_taken_id (e : entity) (uuid4 now : string) (d : pydict)
  (st : store) (rows : list row) :
  events st = [] → data st !! table_of e = Some rows → valid_fields e d →
  (∃ r, r ∈ rows ∧ r !! "id" = Some (SText uuid4)) →
  create e uuid4 now d st =
  (Raise (DatabaseError
            ("Database error: UNIQUE constraint failed: " +:+ table_of e +:+ ".id")),
   st).
Proof.
  intros Hev Hr Hv Ht. rewrite create_unfold. unfold and_then.
  rewrite (execute_command_healthy _ _ _ Hev).
  rewrite (exec_insert_taken _ _ uuid4 _ _ _ (columns_of e) rows); try done.
  - apply table_columns_of_entity.
  - apply insert_columns_exist.
  - by destruct e.
  - by apply create_params_bindable.
  - by apply created_row_not_null.
  - unfold key_of. fold (created_row e uuid4 now d (current_timestamp st)).
    by rewrite created_row_id.
Qed.

(** X5.  [get] returns no record exactly when no row of the table carries
    the identifier; a record that it returns is that of a row of the
    table and carries the identifier asked for. *)
Theorem get_absent_iff_fresh (e : entity) (id : string) (st : store)
  (rows : list row) :
  events st = [] → data st !! table_of e = Some rows →
  (get_one e id st = (Ok None, st) ↔ fresh_id id rows) ∧
  (∀ rec st', get_one e id st = (Ok (Some rec), st') →
     st' = st ∧ rec !! "id" = Some (PStr id) ∧
     ∃ r, r ∈ rows ∧ r !! "id" = Some (SText id)).
Proof.
  intros Hev Hr. rewrite (get_one_healthy e id st rows Hev Hr).
  split; [split |].
  - intros Hg. apply Forall_forall. intros r Hin Hid.
    assert (List.filter (matches (SText id)) rows ≠ []) as Hne
      by (apply filter_matches_nonempty; by exists r).
    destruct (List.filter _ rows) as [|r' rest]; [done |].
    by destruct (decode_lists e (dict r')).
  - intros Hf. by rewrite (filter_fresh _ _ Hf).
  - intros rec st' Hg.
    destruct (List.filter _ rows) as [|r rest] eqn:Hf; [discriminate Hg |].
    destruct (decode_lists e (dict r)) as [rec'|] eqn:Hd; [|discriminate Hg].
    cbn [rbind] in Hg. injection Hg as Hrec Hst. subst rec' st'.
    assert (In r (List.filter (matches (SText id)) rows)) as Hin
      by (rewrite Hf; by left).
    apply List.filter_In in Hin as [Hin Hm]. apply matches_text in Hm.
    split; [done |]. split; [|exists r; split; [by apply list_elem_of_In | done]].
    destruct (decode_lists_inv _ _ _ Hd) as [_ Hother].
    rewrite Hother by (destruct e; cbn [list_fields]; not_in_list).
    unfold dict. by rewrite lookup_fmap, Hm.
Qed.

Lemma filter_keeps_others (id : string) (rows : list row) (r : row) :
  fresh_id id rows → r !! "id" = Some (SText id) →
  List.filter (λ r, negb (matches (SText id) r)) (rows ++ [r]) = rows ∧
  List.filter (matches (SText id)) (rows ++ [r]) = [r].
Proof.
  intros Hf Hid. rewrite !List.filter_app, (filter_not_fresh _ _ Hf),
    (filter_fresh _ _ Hf). cbn [List.filter].
  rewrite (proj2 (matches_text id r) Hid). cbn [negb]. by rewrite app_nil_r.
Qed.

Lemma create_then_delete (e : entity) (uuid4 now : string) (d : pydict)
  (st : store) (rows : list row) :
  events st = [] → data st !! table_of e = Some rows →
  fresh_id uuid4 rows → valid_fields e d →
  (rows_affected <- execute_command (DeleteById (table_of e)) [PStr uuid4] ;;
   ret (0 <? rows_affected)) (create e uuid4 now d st).2 = (Ok true, st).
Proof.
  intros Hev Hr Hf Hv.
  destruct (create_stores e uuid4 now d st rows Hev Hr Hf Hv) as [Hc _].
  cbv zeta in Hc. rewrite Hc. cbn [snd]. unfold and_then.
  set (r := created_row e uuid4 now d (current_timestamp st)).
  rewrite (delete_healthy (table_of e) uuid4 _ (columns_of e) (rows ++ [r]));
    [| done | apply table_columns_of_entity | apply lookup_insert_eq].
  destruct (filter_keeps_others uuid4 rows r Hf (created_row_id _ _ _ _ _))
    as [-> ->].
  unfold ret, with_rows, with_row. cbn [data current_timestamp row_count length].
  rewrite insert_insert_eq, (insert_id _ _ _ Hr). f_equal.
  rewrite <- Hev. apply store_eta.
Qed.

(** X7.  Deleting the job, or the contact, that was just created leaves the
    store as it was before the creation, and reports the removal. *)
Theorem delete_undoes_create (uuid4 now : string) (d : pydict) (st : store)
  (rows : list row) :
  events st = [] → fresh_id uuid4 rows →
  (data st !! "jobs" = Some rows → valid_fields Job d →
   delete_job uuid4 (create_job uuid4 now d st).2 = (Ok true, st)) ∧
  (data st !! "contacts" = Some rows → valid_fields Contact d →
   delete_contact uuid4 (create_contact uuid4 d st).2 = (Ok true, st)).
Proof.
  intros Hev Hf. split; intros Hr Hv.
  - exact (create_then_delete Job uuid4 now d st rows Hev Hr Hf Hv).
  - exact (create_then_delete Contact uuid4 now d st rows Hev Hr Hf Hv).
Qed.

End CreateEdges.

Lemma create_rejects_taken_id_witness :
  @create Reference.libs Job "j1" "2024-05-01T09:00:00"
    (<["title" := PStr "Another"]> ∅) store_with_job =
  (Raise (DatabaseError "Database error: UNIQUE constraint failed: jobs.id"),
   store_with_job).
Proof.
  apply (@create_rejects_taken_id Reference.libs Job "j1" "2024-05-01T09:00:00"
           (<["title" := PStr "Another"]> ∅) store_with_job [job_row]).
  - reflexivity.
  - reflexivity.
  - apply valid_fields_insert; [reflexivity | apply valid_fields_empty].
  - exists job_row. split; [apply list_elem_of_here | reflexivity].
Defined.

Lemma get_absent_iff_fresh_witness :
  @get_one Reference.libs Job "nobody" store_with_job = (Ok None, store_with_job) ↔
  fresh_id "nobody" [job_row].
Proof.
  apply (@get_absent_iff_fresh Reference.libs Job "nobody" store_with_job [job_row]);
    reflexivity.
Defined.

Lemma delete_undoes_create_witness :
  @delete_job Reference.libs "j1"
    (@create_job Reference.libs "j1" "2024-01-01T10:00:00"
       (<["title" := PStr "Engineer"]> ∅) fresh_store).2
  = (Ok true, fresh_store).
Proof.
  apply (proj1 (@delete_undoes_create Reference.libs "j1" "2024-01-01T10:00:00"
                  (<["title" := PStr "Engineer"]> ∅) fresh_store []
                  eq_refl (List.Forall_nil _))).
  - reflexivity.
  - apply valid_fields_insert; [reflexivity | apply valid_fields_empty].
Defined.

(** ** Identifiers stay distinct *)

Section IdentifierFacts.
Context `{Libs}.

Lemma ids_distinct_insert (db : database) (t : string) (rows : list row) :
  ids_distinct db → NoDup (omap text_id rows) → ids_distinct (<[t := rows]> db).
Proof.
  intros Hdb Hrows t' rows' Hr. destruct (decide (t = t')) as [<-|Hne].
  - rewrite lookup_insert_eq in Hr. by injection Hr as <-.
  - rewrite lookup_insert_ne in Hr by done. by apply (Hdb t').
Qed.

Lemma text_id_update_rows (key : sqlval)
  (assigns : list (column * (row → sqlval))) (rows : list row) :
  "id" ∉ assigned assigns →
  omap text_id (update_rows key assigns rows) = omap text_id rows.
Proof.
  intros Hid. unfold update_rows. induction rows as [|r rows IH]; [done |].
  rewrite fmap_cons. cbn [omap list_omap] in *. rewrite IH.
  destruct (matches key r); [|done].
  unfold text_id at 1 3. by rewrite updated_other.
Qed.

Lemma text_id_filter (f : row → bool) (rows : list row) :
  omap text_id (List.filter f rows) `sublist_of` omap text_id rows.
Proof.
  induction rows as [|r rows IH]; [done |]. cbn [List.filter].
  destruct (f r); cbn [omap list_omap] in *.
  - destruct (text_id r); [by apply sublist_skip | done].
  - destruct (text_id r); [by apply sublist_cons | done].
Qed.

Lemma check_unique_new (t : string) (rows : list row) (r : row) (s : string) :
  check_unique t rows r = Ok tt → text_id r = Some s → s ∉ omap text_id rows.
Proof.
  unfold check_unique. destruct (existsb _ rows) eqn:He; [done |]. intros _ Hs Hin.
  apply list_elem_of_omap in Hin as (old & Hin & Hold).
  assert (existsb (λ old, sql_eqb (key_of "id" old) (key_of "id" r)) rows = true)
    as Ht; [|congruence].
  apply existsb_exists. exists old. split; [by apply list_elem_of_In |].
  unfold text_id in Hs, Hold. unfold key_of.
  destruct (r !! "id") as [[| | |s1]|]; try done.
  destruct (old !! "id") as [[| | |s2]|]; try done.
  injection Hs as ->. injection Hold as ->. cbn [default]. by apply sql_eqb_text.
Qed.

Lemma exec_stmt_ids (q : stmt) (ps : list pyval) (ts : string)
  (db db' : database) (cur : cursor) :
  exec_stmt q ps ts db = Ok (cur, db') → assigns_no_id q →
  ids_distinct db → ids_distinct db'.
Proof.
  intros He Hq Hdb. destruct q as [t names|t key dir|t|t sets|t].
  - unfold exec_stmt, open_table in He.
    destruct (table_columns t) as [cols|] eqn:Hc; [|done].
    destruct (db !! t) as [rows|] eqn:Hr; [|done]. cbn [rbind] in He.
    destruct (traverse _ names); [|done]. cbn [rbind] in He.
    destruct (check_arity _ _); [|done]. cbn [rbind] in He.
    destruct (traverse bind ps) as [vals|]; [|done]. cbn [rbind] in He.
    destruct (check_not_null _ _ _); [|done]. cbn [rbind] in He.
    destruct (check_unique _ _ _) as [[]|] eqn:Hu; [|done]. cbn [rbind] in He.
    injection He as _ <-. apply ids_distinct_insert; [done |].
    rewrite omap_app. cbn [omap list_omap].
    destruct (text_id _) as [s|] eqn:Hs.
    + apply NoDup_app. split; [by apply (Hdb t) |]. split; [|apply NoDup_singleton].
      intros x Hx Hx'. apply list_elem_of_singleton in Hx' as ->.
      by apply (check_unique_new _ _ _ _ Hu Hs).
    + rewrite app_nil_r. by apply (Hdb t).
  - unfold exec_stmt, open_table in He.
    destruct (table_columns t) as [cols|]; [|done].
    destruct (db !! t) as [rows|]; [|done]. cbn [rbind] in He.
    destruct (named_column _ _ _ _); [|done]. cbn [rbind] in He.
    destruct (check_arity _ _); [|done]. cbn [rbind] in He.
    by injection He as _ <-.
  - unfold exec_stmt, open_table in He.
    destruct (table_columns t) as [cols|]; [|done].
    destruct (db !! t) as [rows|]; [|done]. cbn [rbind] in He.
    destruct (check_arity _ _); [|done]. cbn [rbind] in He.
    destruct (traverse bind ps) as [vals|]; [|done]. cbn [rbind] in He.
    by injection He as _ <-.
  - apply exec_update_inv in He
      as (cols & rows & targets & vals & assigns & rest & Hc & Hr & Ht & _ & Hres & _ & ->).
    apply ids_distinct_insert; [done |]. rewrite text_id_update_rows; [by apply (Hdb t) |].
    pose proof (resolve_assigned targets vals) as Hn. rewrite Hres in Hn.
    cbn [fst] in Hn. rewrite Hn. unfold resolve_targets in Ht.
    by rewrite (targets_names _ _ _ _ Ht).
  - unfold exec_stmt, open_table in He.
    destruct (table_columns t) as [cols|] eqn:Hc; [|done].
    destruct (db !! t) as [rows|] eqn:Hr; [|done]. cbn [rbind] in He.
    destruct (check_arity _ _); [|done]. cbn [rbind] in He.
    destruct (traverse bind ps) as [vals|]; [|done]. cbn [rbind] in He.
    injection He as _ <-. apply ids_distinct_insert; [done |].
    eapply sublist_NoDup; [by apply (Hdb t) | apply text_id_filter].
Qed.

Lemma keeps_ids_read_only {A} (m : M A) : read_only m → keeps_ids m.
Proof. intros Hm st Hst. by rewrite Hm. Qed.

Lemma keeps_ids_execute_command (q : stmt) (ps : list pyval) :
  assigns_no_id q → keeps_ids (execute_command q ps).
Proof.
  intros Hq st Hst.
  destruct (execute_command_data q ps st) as [-> | [cur He]]; [done |].
  by apply (exec_stmt_ids _ _ _ _ _ _ He).
Qed.

Lemma keeps_ids_and_then {A B} (m : M A) (k : A → M B) :
  keeps_ids m → (∀ a, keeps_ids (k a)) → keeps_ids (and_then m k).
Proof.
  intros Hm Hk st Hst. unfold and_then. specialize (Hm st Hst).
  destruct (m st) as [[a|e] st1]; cbn [snd] in *; [|done].
  by apply Hk.
Qed.

Lemma create_tables_ids (db : database) :
  ids_distinct db → ids_distinct (create_tables db).
Proof.
  unfold create_tables. induction schema as [|[t cols] sch IH]; [done |].
  intros Hdb. cbn [foldr]. specialize (IH Hdb).
  destruct (foldr _ db sch !! t); [done |].
  apply ids_distinct_insert; [done | constructor].
Qed.

Lemma keeps_ids_init_schema : keeps_ids _init_schema.
Proof.
  intros st Hst. unfold _init_schema, get_connection, connect, executescript_schema.
  destruct (events st) as [|[|m|m] es]; cbn [fault pending clock durable];
    try done; cbn; by apply create_tables_ids.
Qed.

Lemma update_job_assigns_no_id (now : string) (d : pydict) :
  assigns_no_id
    (UpdateById "jobs" ((λ kv, (kv.1, Param)) <$> update_items now d)).
Proof.
  cbn [assigns_no_id]. rewrite <- list_fmap_compose. intros Hin.
  change ("id" ∈ (update_items now d).*1) in Hin.
  by destruct (update_items_keys _ _ _ Hin).
Qed.

End IdentifierFacts.

Ltac ids :=
  repeat first
    [ apply keeps_ids_and_then; [|intros ?]
    | apply keeps_ids_read_only; solve [reads]
    | apply keeps_ids_execute_command;
      first [ apply update_job_assigns_no_id
            | cbn [assigns_no_id]; first [exact I | not_in_list] ]
    | match goal with |- keeps_ids (match ?x with _ => _ end) => destruct x end
    | match goal with |- keeps_ids (if ?x then _ else _) => destruct x end ].

Section IdentifiersOfCalls.
Context `{Libs}.

Lemma perform_keeps_ids (c : call) (st : store) :
  ids_distinct (data st) → ids_distinct (data (perform c st).2).
Proof.
  assert (∀ A (m : M A), keeps_ids m →
            ids_distinct (data st) → ids_distinct (data (outcome (m st)).2)) as Hout.
  { intros A m Hm Hst. unfold outcome. cbn [snd]. by apply Hm. }
  destruct c as [|e uuid4 now fields|e id|e|now id d| | | | |]; cbn [perform];
    apply Hout; [apply keeps_ids_init_schema | ..];
    try destruct e; cbn [create get_one get_all];
    unfold create_job, create_company, create_contact, create_offer,
      create_job_alert, create_interview_session, get_job, get_company,
      get_contact, get_offer, get_job_alert, get_interview_session, get_jobs,
      get_companies, get_contacts, get_offers, get_job_alerts,
      get_interview_sessions, update_job, delete_job, delete_contact,
      toggle_job_alert, run_job_alert, calculate_offer_value, get_offer;
    cbv zeta; try fold (update_items now d); ids.
Qed.

End IdentifiersOfCalls.

(** ** Invariants of the stores that calls reach *)

Section ReachableFacts.
Context `{Libs}.

Lemma run_calls_invariant (P : database → Prop) (cs : list call) (st : store) :
  (∀ c st, P (data st) → P (data (perform c st).2)) →
  P (data st) → P (data (run_calls cs st)).
Proof.
  intros Hstep. revert st. induction cs as [|c cs IH]; intros st Hst; [done |].
  change (run_calls (c :: cs) st) with (run_calls cs (perform c st).2).
  by apply IH, Hstep.
Qed.

(** X8.  Every call keeps each row with exactly the columns of its table, so
    that after any sequence of calls on a new database file, whatever
    the engine met on the way, every row of every table has exactly the
    columns of its table. *)
Theorem calls_keep_rows_well_formed :
  (∀ c st, well_formed (data st) → well_formed (data (perform c st).2)) ∧
  (∀ cs ts evs, well_formed (data (run_calls cs (Store ∅ ts evs)))).
Proof.
  split; [exact perform_well_formed |].
  intros cs ts evs. apply run_calls_invariant; [exact perform_well_formed |].
  intros t cols rows _ Hr. cbn in Hr. by rewrite lookup_empty in Hr.
Qed.

(** X9.  Identifiers stay distinct: a call never makes two rows of a table
    carry the same identifier, so that after any sequence of calls on a
    new database file no two rows of a table carry the same one. *)
Theorem calls_keep_ids_distinct :
  (∀ c st, ids_distinct (data st) → ids_distinct (data (perform c st).2)) ∧
  (∀ cs ts evs, ids_distinct (data (run_calls cs (Store ∅ ts evs)))).
Proof.
  split; [exact perform_keeps_ids |].
  intros cs ts evs. apply run_calls_invariant; [exact perform_keeps_ids |].
  intros t rows Hr. cbn in Hr. by rewrite lookup_empty in Hr.
Qed.

End ReachableFacts.

Lemma calls_keep_rows_well_formed_witness :
  well_formed
    (data (@run_calls Reference.libs
             [Init; Create Job "j1" "2024-01-01T10:00:00" (<["title" := PStr "Engineer"]> ∅);
              UpdateJob "2024-01-02T10:00:00" "j1" (<["stage" := PStr "applied"]> ∅);
              DeleteJob "j1"]
             (Store ∅ "2024-01-01 00:00:00" [Proceeds; StatementFails "disk I/O error"]))).
Proof. apply (proj2 (@calls_keep_rows_well_formed Reference.libs)). Defined.

Lemma calls_keep_ids_distinct_witness :
  ids_distinct
    (data (@run_calls Reference.libs
             [Init; Create Job "j1" "2024-01-01T10:00:00" (<["title" := PStr "Engineer"]> ∅);
              Create Job "j1" "2024-01-01T11:00:00" (<["title" := PStr "Analyst"]> ∅)]
             (Store ∅ "2024-01-01 00:00:00" []))).
Proof. apply (proj2 (@calls_keep_ids_distinct Reference.libs)). Defined.

(** ** The contract of an update *)

Section UpdateContractFacts.
Context `{Libs}.

Lemma update_items_elem (now : string) (d : pydict) (k : string) (v : pyval) :
  (k, v) ∈ update_items now d ↔
  k ≠ "id" ∧ ∃ v0, <["updated_at" := PStr now]> d !! k = Some v0 ∧
                   v = update_value k v0.
Proof.
  unfold update_items. rewrite list_elem_of_omap. split.
  - intros ([k0 v0] & Hin & Hu). apply elem_of_map_to_list in Hin.
    unfold update_item in Hu.
    destruct (String.eqb_spec k0 "id") as [->|Hne]; [done |].
    unfold update_value.
    destruct (_ || _) eqn:Hl; injection Hu as <- <-;
      (split; [done |]); exists v0; by rewrite Hl.
  - intros (Hne & v0 & Hk & ->). exists (k, v0).
    split; [by apply elem_of_map_to_list |].
    unfold update_item, update_value.
    destruct (String.eqb_spec k "id") as [->|_]; [done |].
    by destruct (_ || _).
Qed.

(** An item of a valid update names a column of TEXT affinity, binds,
    and is not NULL where the column forbids it; what is read back of it
    is the value given. *)
Lemma update_item_valid (now : string) (d : pydict) (k : string) (v : pyval) :
  valid_update d → (k, v) ∈ update_items now d →
  bindable v = true ∧
  ∃ c, find_column jobs_columns k = Some c ∧ col_affinity c = AffText ∧
       (col_notnull c = true → ∃ s, sql_of v = SText s).
Proof.
  intros Hd Hin. apply update_items_elem in Hin as (Hid & v0 & Hk & ->).
  destruct (decide (k = "updated_at")) as [->|Hua].
  { rewrite lookup_insert_eq in Hk. injection Hk as <-.
    split; [done |]. exists (text_notnull "updated_at").
    split; [done |]. split; [done |]. intros _. by eexists. }
  rewrite lookup_insert_ne in Hk by done.
  destruct (Hd k v0 Hk Hid Hua) as (ft & Hft & Hc).
  cbn [fields_of assoc] in Hft.
  repeat (match type of Hft with
          | (if String.eqb ?a k then _ else _) = _ =>
            destruct (String.eqb_spec a k) as [<-|?];
            [injection Hft as <-; clear Hid Hua Hk|]
          end);
    try discriminate Hft;
    try (destruct v0; try discriminate Hc;
         (split; [reflexivity |]); eexists;
         (split; [reflexivity |]); (split; [reflexivity |]);
         intros Hn; vm_compute in Hn; first [discriminate Hn | by eexists]).
Qed.

Lemma resolve_targets_all (t : string) (cols : list column)
  (names : list string) (cs : list column) :
  Forall2 (λ k c, find_column cols k = Some c) names cs →
  resolve_targets t cols ((λ k, (k, Param)) <$> names) =
  Ok ((λ c, (c, Param)) <$> cs).
Proof.
  unfold resolve_targets. induction 1 as [|k c names cs Hk _ IH]; [done |].
  rewrite !fmap_cons. cbn [traverse]. unfold named_column at 1.
  rewrite Hk. cbn [rbind]. by rewrite IH.
Qed.

Lemma columns_of_items (now : string) (d : pydict) :
  valid_update d →
  ∃ cs, Forall2 (λ kv c, find_column jobs_columns kv.1 = Some c ∧
                         col_affinity c = AffText ∧
                         (col_notnull c = true → ∃ s, sql_of kv.2 = SText s))
                (update_items now d) cs.
Proof.
  intros Hd.
  assert (Forall (λ kv, kv ∈ update_items now d) (update_items now d))
    as Hall by (by apply Forall_forall).
  revert Hall. generalize (update_items now d) at 2 3.
  induction l as [|[k v] l IH]; intros Hall; [by exists [] |].
  apply Forall_cons in Hall as [Hkv Hall].
  destruct (IH Hall) as [cs Hcs].
  destruct (update_item_valid now d k v Hd Hkv) as (_ & c & Hc).
  exists (c :: cs). by constructor.
Qed.

Lemma assigned_of_items (cols : list column) (items : list (string * pyval))
  (cs : list column) (P : string * pyval → column → Prop) :
  Forall2 (λ kv c, find_column cols kv.1 = Some c ∧ P kv c) items cs →
  assigned ((λ cv : column * sqlval, (cv.1, λ _ : row, cv.2))
              <$> zip cs (sql_of <$> items.*2)) = items.*1.
Proof.
  unfold assigned. induction 1 as [|[k v] c items cs [Hk _] _ IH]; [done |].
  rewrite !fmap_cons. cbn [zip zip_with]. rewrite !fmap_cons. cbn [fst].
  f_equal; [by apply find_column_name in Hk | exact IH].
Qed.

(** What [update_job] does with valid fields on a healthy store: the
    UPDATE runs, and writes for each item the value bound for it. *)
Lemma update_job_runs (now id : string) (d : pydict) (st : store)
  (rows : list row) :
  events st = [] → data st !! "jobs" = Some rows → valid_update d →
  ∃ assigns,
    assigned assigns = (update_items now d).*1 ∧
    (∀ r k v, (k, v) ∈ update_items now d →
       updated assigns r !! k = Some (apply_affinity AffText (sql_of v))) ∧
    let st1 := with_rows "jobs" (update_rows (SText id) assigns rows) st in
    update_job now id d st =
    if 0 <? row_count (List.filter (matches (SText id)) rows)
    then get_job id st1 else (Ok None, st1).
Proof.
  intros Hev Hr Hd.
  destruct (columns_of_items now d Hd) as [cs Hcs].
  set (items := update_items now d) in *.
  set (assigns := (λ cv : column * sqlval, (cv.1, λ _ : row, cv.2))
                    <$> zip cs (sql_of <$> items.*2)).
  assert (Hlen : length cs = length items) by (by rewrite (Forall2_length _ _ _ Hcs)).
  assert (Hnames : assigned assigns = items.*1).
  { exact (assigned_of_items jobs_columns items cs _ Hcs). }
  assert (Hin : ∀ k v, (k, v) ∈ items →
            ∃ c, (c, λ _ : row, sql_of v) ∈ assigns ∧ col_name c = k ∧
                 col_affinity c = AffText ∧
                 (col_notnull c = true → ∃ s, sql_of v = SText s)).
  { intros k v Hkv. apply list_elem_of_lookup in Hkv as [i Hi].
    destruct (Forall2_lookup_l _ _ _ _ _ Hcs Hi) as (c & Hci & Hk & Ha & Hn).
    exists c. split; [|split; [by apply find_column_name in Hk | done]].
    apply list_elem_of_fmap. exists (c, sql_of v). split; [done |].
    apply list_elem_of_lookup. exists i. apply lookup_zip_Some. split; [done |].
    by rewrite !list_lookup_fmap, Hi. }
  assert (Hnd : NoDup (assigned assigns))
    by (rewrite Hnames; apply update_items_NoDup).
  assert (Hval : ∀ r k v, (k, v) ∈ items →
            updated assigns r !! k = Some (apply_affinity AffText (sql_of v))).
  { intros r k v Hkv. destruct (Hin k v Hkv) as (c & Hc & <- & <- & _).
    by apply (updated_assigned_from assigns r r c (λ _, sql_of v)). }
  exists assigns. split; [exact Hnames |]. split; [exact Hval |]. cbv zeta.
  unfold update_job. fold (update_items now d). fold items. unfold and_then.
  rewrite (execute_command_healthy _ _ _ Hev).
  rewrite (exec_update "jobs" _ _ _ _ jobs_columns rows
             ((λ c, (c, Param)) <$> cs) assigns [SText id]); try done.
  - cbn [head default rowcount]. unfold with_rows. by destruct (0 <? _).
  - replace ((λ kv : string * pyval, (kv.1, Param)) <$> items)
      with ((λ k, (k, Param)) <$> items.*1) by (by rewrite <- list_fmap_compose).
    apply resolve_targets_all. apply Forall2_fmap_l.
    eapply Forall2_impl; [exact Hcs |]. by intros [k v] c (Hk & _).
  - replace ((λ kv : string * pyval, (kv.1, Param)) <$> items)
      with ((λ k, (k, Param)) <$> items.*1) by (by rewrite <- list_fmap_compose).
    rewrite count_params_all, length_app, !length_fmap. cbn. lia.
  - apply Forall_app. split; [|by repeat constructor].
    apply Forall_fmap, Forall_forall. intros [k v] Hkv.
    by destruct (update_item_valid now d k v Hd Hkv).
  - rewrite fmap_app. cbn [fmap list_fmap sql_of].
    apply resolve_params. by rewrite !length_fmap.
  - intros r. apply check_not_null_ok. apply Forall_forall. intros c Hc Hn.
    assert (∃ k v, (k, v) ∈ items ∧ col_name c = k ∧
                   ∃ s, sql_of v = SText s) as (k & v & Hkv & <- & s & Hs).
    { assert (c ∈ cs) as Hc'.
      { apply list_elem_of_fmap in Hc as ([c' f] & -> & Hc).
        apply list_elem_of_fmap in Hc as ([c'' v'] & Heq & Hc).
        injection Heq as -> _. apply list_elem_of_lookup in Hc as [i Hi].
        apply lookup_zip_Some in Hi as [Hi _].
        apply list_elem_of_lookup. by exists i. }
      apply list_elem_of_lookup in Hc' as [i Hi].
      destruct (Forall2_lookup_r _ _ _ _ _ Hcs Hi) as ([k v] & Hkv & Hk & _ & Hnn).
      exists k, v. split; [apply list_elem_of_lookup; by exists i |].
      split; [by apply find_column_name in Hk | by apply Hnn]. }
    unfold is_null_at. fold (updated assigns r).
    rewrite (Hval r _ v Hkv), Hs. reflexivity.
Qed.

Lemma decode_job_fields (X : pydict) (v1 v2 x1 x2 : pyval) :
  X !! "requirements" = Some v1 → X !! "tags" = Some v2 →
  json_loads (py_or v1 (PStr "[]")) = Ok x1 →
  json_loads (py_or v2 (PStr "[]")) = Ok x2 →
  decode_lists Job X = Ok (<["tags" := x2]> (<["requirements" := x1]> X)).
Proof.
  intros H1 H2 Hx1 Hx2. unfold decode_lists. cbn [list_fields foldl rbind].
  assert (parse_json_field "requirements" X = Ok (<["requirements" := x1]> X))
    as -> by (unfold parse_json_field, getitem; rewrite H1; cbn [rbind];
              by rewrite Hx1).
  cbn [rbind]. unfold parse_json_field, getitem.
  rewrite lookup_insert_ne by done. rewrite H2. cbn [rbind]. by rewrite Hx2.
Qed.

Lemma decode_job_inv (X rec : pydict) :
  decode_lists Job X = Ok rec →
  ∃ v1 v2 x1 x2,
    X !! "requirements" = Some v1 ∧ X !! "tags" = Some v2 ∧
    json_loads (py_or v1 (PStr "[]")) = Ok x1 ∧
    json_loads (py_or v2 (PStr "[]")) = Ok x2 ∧
    rec = <["tags" := x2]> (<["requirements" := x1]> X).
Proof.
  unfold decode_lists. cbn [list_fields foldl rbind]. intros Hd.
  destruct (parse_json_field "requirements" X) as [rec1|] eqn:H1; [|done].
  cbn [rbind] in Hd.
  apply parse_json_field_inv in H1 as (v1 & x1 & Hv1 & Hx1 & ->).
  apply parse_json_field_inv in Hd as (v2 & x2 & Hv2 & Hx2 & ->).
  rewrite lookup_insert_ne in Hv2 by done. by exists v1, v2, x1, x2.
Qed.

Lemma list_field_after (now : string) (d : pydict)
  (assigns : list (column * (row → sqlval))) (r : row) (k : string)
  (v x : pyval) :
  valid_update d →
  assigned assigns = (update_items now d).*1 →
  (∀ r k v, (k, v) ∈ update_items now d →
     updated assigns r !! k = Some (apply_affinity AffText (sql_of v))) →
  k ∈ list_fields Job →
  dict r !! k = Some v → json_loads (py_or v (PStr "[]")) = Ok x →
  ∃ v', dict (updated assigns r) !! k = Some v' ∧
        json_loads (py_or v' (PStr "[]")) = Ok (default x (d !! k)).
Proof.
  intros Hd Hnames Hval Hk Hv Hx.
  destruct (d !! k) as [v0|] eqn:Hdk; cbn [default].
  - assert (k ≠ "id" ∧ k ≠ "updated_at" ∧ assoc k (fields_of Job) = Some StrList ∧
            update_value k v0 = PStr (json_dumps (py_or v0 (PList []))))
      as (Hid & Hua & Hft & Hu).
    { cbn [list_fields] in Hk.
      apply elem_of_cons in Hk as [-> | Hk]; [done |].
      apply elem_of_cons in Hk as [-> | Hk]; [done |].
      by apply elem_of_nil in Hk. }
    destruct (Hd k v0 Hdk Hid Hua) as (ft & Hft' & Hc).
    rewrite Hft in Hft'. injection Hft' as <-.
    apply conforms_str_list in Hc as [l ->].
    assert ((k, update_value k (PList (PStr <$> l))) ∈ update_items now d) as Hin.
    { apply update_items_elem. split; [done |]. eexists. split; [|done].
      by rewrite lookup_insert_ne. }
    rewrite Hu in Hin.
    assert (py_or (PList (PStr <$> l)) (PList []) = PList (PStr <$> l)) as Hor
      by (by destruct l).
    rewrite Hor in Hin. exists (PStr (json_dumps (PList (PStr <$> l)))).
    split; [|apply loads_dumps].
    unfold dict. by rewrite lookup_fmap, (Hval r _ _ Hin).
  - exists v. split; [|done]. unfold dict in *. rewrite lookup_fmap in *.
    rewrite updated_other; [done |]. rewrite Hnames. intros Hin.
    destruct (update_items_keys _ _ _ Hin) as [_ [-> | [v0 Hv0]]]; [|congruence].
    cbn [list_fields] in Hk. revert Hk. not_in_list.
Qed.

Lemma text_field_type (k : string) (ft : field_type) :
  assoc k (fields_of Job) = Some ft → k ∉ list_fields Job →
  ft = TextReq ∨ ft = TextOpt.
Proof.
  intros Hft Hk. cbn [fields_of assoc] in Hft.
  repeat (match type of Hft with
          | (if String.eqb ?a k then _ else _) = _ =>
            destruct (String.eqb_spec a k) as [<-|?];
            [injection Hft as <-|]
          end);
    try discriminate Hft; try (by left); try (by right);
    exfalso; apply Hk; cbn [list_fields]; in_list.
Qed.

(** X10.  The contract of [update_job] on a job that is there, for valid
    fields: it returns the record that [get_job] then returns; the
    record has the clock's reading as [updated_at], the identifier it
    had, every field given with the value given (a list as the list
    given), and every other field as it was. *)
Theorem update_job_overwrites (now id : string) (d : pydict) (st s0 : store)
  (rec0 : pydict) :
  events st = [] → valid_update d →
  get_job id st = (Ok (Some rec0), s0) →
  ∃ rec st',
    update_job now id d st = (Ok (Some rec), st') ∧
    get_job id st' = (Ok (Some rec), st') ∧
    rec !! "updated_at" = Some (PStr now) ∧
    rec !! "id" = rec0 !! "id" ∧
    (∀ k v, d !! k = Some v → k ≠ "id" → k ≠ "updated_at" → rec !! k = Some v) ∧
    (∀ k, d !! k = None → k ≠ "updated_at" → rec !! k = rec0 !! k).
Proof.
  intros Hev Hd Hg. destruct (get_job_table _ _ _ _ Hev Hg) as [rows Hr].
  change (get_job id st) with (get_one Job id st) in Hg.
  rewrite (get_one_healthy Job id st rows Hev Hr) in Hg.
  destruct (List.filter _ rows) as [|r rest] eqn:Hf; [discriminate Hg |].
  destruct (decode_lists Job (dict r)) as [rec1|] eqn:Hd0; [|discriminate Hg].
  cbn [rbind] in Hg. injection Hg as Hrec _. subst rec1.
  destruct (update_job_runs now id d st rows Hev Hr Hd)
    as (assigns & Hnames & Hval & Hu).
  cbv zeta in Hu. rewrite Hf in Hu.
  rewrite (proj2 (row_count_positive (r :: rest))) in Hu by done.
  set (st1 := with_rows "jobs" (update_rows (SText id) assigns rows) st) in *.
  assert (Hid : "id" ∉ assigned assigns).
  { rewrite Hnames. intros Hin. by destruct (update_items_keys _ _ _ Hin). }
  apply decode_job_inv in Hd0 as (v1 & v2 & x1 & x2 & Hv1 & Hv2 & Hx1 & Hx2 & ->).
  destruct (list_field_after now d assigns r "requirements" v1 x1 Hd Hnames Hval)
    as (v1' & Hv1' & Hx1'); [in_list | done | done |].
  destruct (list_field_after now d assigns r "tags" v2 x2 Hd Hnames Hval)
    as (v2' & Hv2' & Hx2'); [in_list | done | done |].
  set (r' := updated assigns r) in *.
  set (rec := <["tags" := default x2 (d !! "tags")]>
                (<["requirements" := default x1 (d !! "requirements")]> (dict r'))).
  assert (Hget : get_job id st1 = (Ok (Some rec), st1)).
  { change (get_job id st1) with (get_one Job id st1).
    rewrite (get_one_healthy Job id st1 (update_rows (SText id) assigns rows))
      by (done || apply lookup_insert_eq).
    rewrite filter_update_rows by exact Hid. rewrite Hf, fmap_cons.
    fold r'. by rewrite (decode_job_fields (dict r') v1' v2' _ _ Hv1' Hv2' Hx1' Hx2'). }
  exists rec, st1. split; [by rewrite Hu |]. split; [exact Hget |].
  assert (Hother : ∀ k, k ∉ (update_items now d).*1 → dict r' !! k = dict r !! k).
  { intros k Hk. unfold dict, r'. rewrite !lookup_fmap, updated_other; [done |].
    by rewrite Hnames. }
  split; [|split; [|split]].
  - unfold rec. rewrite !lookup_insert_ne by done.
    unfold dict, r'. by rewrite lookup_fmap, (Hval r _ _ (update_items_updated_at now d)).
  - unfold rec. rewrite !lookup_insert_ne by done.
    rewrite Hother; [done |]. intros Hin. by destruct (update_items_keys _ _ _ Hin).
  - intros k v Hk Hkid Hkua.
    destruct (decide (k = "tags")) as [->|Ht].
    { unfold rec. by rewrite lookup_insert_eq, Hk. }
    destruct (decide (k = "requirements")) as [->|Hq].
    { unfold rec. rewrite lookup_insert_ne by done.
      by rewrite lookup_insert_eq, Hk. }
    unfold rec. rewrite !lookup_insert_ne by done.
    assert ((k, v) ∈ update_items now d) as Hin.
    { apply update_items_elem. split; [done |]. exists v.
      split; [by rewrite lookup_insert_ne |]. unfold update_value.
      by rewrite (proj2 (String.eqb_neq k "requirements") Hq),
                 (proj2 (String.eqb_neq k "tags") Ht). }
    destruct (Hd k v Hk Hkid Hkua) as (ft & Hft & Hc).
    unfold dict, r'. rewrite lookup_fmap, (Hval r _ _ Hin). cbn [fmap option_fmap option_map].
    f_equal. apply (text_round_trip ft); [done |].
    apply (text_field_type k); [done |]. cbn [list_fields]. intros Hl.
    apply elem_of_cons in Hl as [-> | Hl]; [done |].
    apply elem_of_cons in Hl as [-> | Hl]; [done |]. by apply elem_of_nil in Hl.
  - intros k Hk Hkua.
    destruct (decide (k = "tags")) as [->|Ht].
    { unfold rec. by rewrite !lookup_insert_eq, Hk. }
    destruct (decide (k = "requirements")) as [->|Hq].
    { unfold rec. rewrite !(lookup_insert_ne _ "tags") by done.
      by rewrite !lookup_insert_eq, Hk. }
    unfold rec. rewrite !lookup_insert_ne by done. apply Hother.
    intros Hin. destruct (update_items_keys _ _ _ Hin) as [_ [-> | [v Hv]]];
      [done | congruence].
Qed.

End UpdateContractFacts.

Lemma update_job_overwrites_witness :
  ∃ rec st',
    @update_job Reference.libs "2024-02-01T08:00:00" "j1"
      (<["stage" := PStr "applied"]>
         (<["tags" := PList [PStr "remote"; PStr "rust"]]> ∅)) store_with_job
    = (Ok (Some rec), st') ∧
    @get_job Reference.libs "j1" st' = (Ok (Some rec), st') ∧
    rec !! "updated_at" = Some (PStr "2024-02-01T08:00:00") ∧
    rec !! "id" = job_record !! "id" ∧
    (∀ k v,
       (<["stage" := PStr "applied"]>
          (<["tags" := PList [PStr "remote"; PStr "rust"]]> ∅) : pydict) !! k = Some v →
       k ≠ "id" → k ≠ "updated_at" → rec !! k = Some v) ∧
    (∀ k,
       (<["stage" := PStr "applied"]>
          (<["tags" := PList [PStr "remote"; PStr "rust"]]> ∅) : pydict) !! k = None →
       k ≠ "updated_at" → rec !! k = job_record !! k).
Proof.
  apply (@update_job_overwrites Reference.libs "2024-02-01T08:00:00" "j1" _
           store_with_job store_with_job job_record).
  - reflexivity.
  - intros k v Hk _ _.
    destruct (decide (k = "stage")) as [->|Hs].
    { rewrite lookup_insert_eq in Hk. injection Hk as <-. by exists TextOpt. }
    rewrite lookup_insert_ne in Hk by done.
    destruct (decide (k = "tags")) as [->|Ht].
    { rewrite lookup_insert_eq in Hk. injection Hk as <-. by exists StrList. }
    rewrite lookup_insert_ne in Hk by done. by rewrite lookup_empty in Hk.
  - reflexivity.
Defined.

(** ** An update of a job that is not there *)

Section UnknownIdentifier.
Context `{Libs}.

(** X6.  [update_job] with an identifier that no job carries, for fields
    whose keys are names of columns of the table of jobs as the schema
    writes them: it returns no record and leaves the store as it was;
    and when the values are of the types of their fields it returns,
    the record absent. *)
Theorem update_job_unknown_id (now id : string) (d : pydict) (st : store)
  (rows : list row) :
  events st = [] → data st !! "jobs" = Some rows → fresh_id id rows →
  column_keys d →
  (update_job now id d st).2 = st ∧
  (∀ rec, (update_job now id d st).1 ≠ Ok (Some rec)) ∧
  (valid_update d → update_job now id d st = (Ok None, st)).
Proof.
  intros Hev Hr Hf _.
  assert ((update_job now id d st = (Ok None, st)) ∨
          (∃ e, update_job now id d st = (Raise e, st))) as Hall.
  { destruct (update_job_outcome now id d st Hev)
      as [[Hst [e He]] | (rows' & assigns & Hr' & _ & _ & Heq)].
    - right. exists e. destruct (update_job now id d st) as [res st'].
      cbn [fst snd] in *. by subst.
    - left. cbv zeta in Heq. rewrite Heq. rewrite Hr in Hr'. injection Hr' as <-.
      rewrite (filter_fresh _ _ Hf), (update_rows_fresh _ _ _ Hf).
      cbn. by rewrite (with_rows_same "jobs" rows st Hev Hr). }
  split; [|split].
  - by destruct Hall as [-> | [e ->]].
  - intros rec. by destruct Hall as [-> | [e ->]].
  - intros Hd.
    destruct (update_job_runs now id d st rows Hev Hr Hd) as (assigns & _ & _ & Hu).
    cbv zeta in Hu. rewrite Hu, (filter_fresh _ _ Hf), (update_rows_fresh _ _ _ Hf).
    cbn. by rewrite (with_rows_same "jobs" rows st Hev Hr).
Qed.

End UnknownIdentifier.

Lemma update_job_unknown_id_witness :
  @update_job Reference.libs "2024-05-01T09:00:00" "nobody"
    (<["stage" := PStr "applied"]> ∅) store_with_job
  = (Ok None, store_with_job).
Proof.
  refine (proj2 (proj2
            (@update_job_unknown_id Reference.libs "2024-05-01T09:00:00" "nobody"
               (<["stage" := PStr "applied"]> ∅) store_with_job [job_row]
               eq_refl eq_refl _ _)) _).
  - constructor; [discriminate | constructor].
  - apply column_keys_insert; [cbn; in_list | apply column_keys_empty].
  - intros k v Hk _ _.
    destruct (decide (k = "stage")) as [->|Hs].
    { rewrite lookup_insert_eq in Hk. injection Hk as <-. by exists TextOpt. }
    rewrite lookup_insert_ne in Hk by done. by rewrite lookup_empty in Hk.
Defined.

(** ** Records created with no field given *)

Section DefaultFacts.
Context `{Libs}.

(** X11.  A record created with no field given: it carries the
    identifier drawn for it, the defaults of its entity, and twice the
    same timestamp, which is the reading of Python's clock for a job, a
    company, an alert and a session, and the engine's CURRENT_TIMESTAMP
    for a contact and an offer. *)
Theorem create_defaults (e : entity) (uuid4 now : string) (st : store)
  (rows : list row) :
  events st = [] → data st !! table_of e = Some rows → fresh_id uuid4 rows →
  ∃ rec st',
    create e uuid4 now ∅ st = (Ok (Some rec), st') ∧
    rec !! "id" = Some (PStr uuid4) ∧
    rec !! "created_at" = Some (PStr (stamp e now st)) ∧
    rec !! second_stamp e = Some (PStr (stamp e now st)) ∧
    Forall (λ kv, rec !! kv.1 = Some kv.2) (default_fields e).
Proof.
  intros Hev Hr Hf.
  destruct (create_stores e uuid4 now ∅ st rows Hev Hr Hf (valid_fields_empty e))
    as [Hc _].
  eexists _, _. split; [exact Hc |].
  destruct e; cbn [default_fields second_stamp stamp];
    (split; [reflexivity |]); (split; [reflexivity |]); (split; [reflexivity |]);
    repeat first [apply List.Forall_nil | apply List.Forall_cons; [reflexivity |]].
Qed.

End DefaultFacts.

Lemma create_defaults_witness :
  ∃ rec st',
    @create Reference.libs JobAlert "a7" "2024-01-01T10:00:00" ∅ fresh_store
    = (Ok (Some rec), st') ∧
    rec !! "id" = Some (PStr "a7") ∧
    rec !! "created_at" = Some (PStr "2024-01-01T10:00:00") ∧
    rec !! "updated_at" = Some (PStr "2024-01-01T10:00:00") ∧
    Forall (λ kv, rec !! kv.1 = Some kv.2) (default_fields JobAlert).
Proof.
  apply (@create_defaults Reference.libs JobAlert "a7" "2024-01-01T10:00:00"
           fresh_store []); [reflexivity | reflexivity | constructor].
Defined.

(** ** A command run for many tuples of parameters *)

Section ExecuteManyFacts.
Context `{Libs}.

(** X12.  [execute_many] with an INSERT, an UPDATE or a DELETE of the
    shapes that the store issues is all or nothing: when it raises,
    whatever the failure and however many tuples of parameters had been
    run, the data are as they were before the call; and it lets no
    [sqlite3.Error] through.  A SELECT is refused with the
    [DatabaseError] that carries the engine's message.  (A statement
    that changes the schema, which the engine runs outside the
    transaction, is not among these.) *)
Theorem execute_many_atomic (q : stmt) (params_list : list (list pyval))
  (st : store) :
  (∀ e, (execute_many q params_list st).1 = Raise e →
        data (execute_many q params_list st).2 = data st) ∧
  (∀ msg, (execute_many q params_list st).1 ≠ Raise (SqliteError msg)) ∧
  (events st = [] → is_select q = true → prepare q (data st) = Ok tt →
   execute_many q params_list st =
   (Raise (DatabaseError
             "Database error: executemany() can only execute DML statements."),
    st)).
Proof.
  split; [|split].
  - intros e. unfold execute_many, get_connection, connect, executemany.
    destruct (events st) as [|[|m|m] es]; cbn [fault pending clock durable];
      try done;
      (destruct (prepare q (data st)) as [[]|[]]; try done;
       destruct (is_select q); try done;
       destruct (run_many q params_list (current_timestamp st) (data st) 0)
         as [[n|[]] db']; done).
  - intros msg. apply guarded_get_connection.
  - intros Hev Hq Hp. unfold execute_many, get_connection, connect, executemany.
    rewrite Hev. cbn [fault pending clock durable]. rewrite Hp, Hq.
    unfold close, rollback. cbn [fault pending clock durable].
    by rewrite store_eta.
Qed.

Lemma run_many_commands (q : stmt) (params_list : list (list pyval))
  (ts : string) (db db' : database) (n0 n : Z) :
  run_many q params_list ts db n0 = (Ok n, db') →
  run_commands q params_list (Store db ts []) = (Ok (n - n0), Store db' ts []).
Proof.
  revert db n0. induction params_list as [|ps rest IH]; intros db n0 Hrun.
  - cbn [run_many] in Hrun. injection Hrun as <- <-. cbn [run_commands].
    unfold ret. by rewrite Z.sub_diag.
  - cbn [run_many] in Hrun.
    destruct (exec_stmt q ps ts db) as [[cur db1]|e] eqn:He; [|discriminate Hrun].
    cbn [run_commands]. unfold and_then at 1.
    rewrite (execute_command_healthy q ps (Store db ts []) eq_refl).
    cbn [data current_timestamp]. rewrite He. unfold and_then.
    rewrite (IH _ _ Hrun). unfold ret. do 2 f_equal. lia.
Qed.

(** X13.  When [execute_many], with an INSERT, an UPDATE or a DELETE of
    the shapes that the store issues, returns on a healthy store, it has
    done what [execute_command] does when called once for each tuple of
    parameters in turn, and it returns the sum of what those calls
    return.  (A statement that changes the schema, for which the engine
    counts no rows, is not among these.) *)
Theorem execute_many_as_commands (q : stmt) (params_list : list (list pyval))
  (st st' : store) (n : Z) :
  events st = [] →
  execute_many q params_list st = (Ok n, st') →
  run_commands q params_list st = (Ok n, st').
Proof.
  intros Hev. unfold execute_many, get_connection, connect, executemany.
  rewrite Hev. cbn [fault pending clock durable].
  destruct (prepare q (data st)) as [[]|[]]; try done.
  destruct (is_select q); [done |].
  destruct (run_many q params_list (current_timestamp st) (data st) 0)
    as [[m|[]] db'] eqn:Hrun; try done.
  cbn [rbind rowcount]. unfold close, commit. cbn [fault pending clock durable].
  rewrite Hev. intros Heq. injection Heq as <- <-.
  apply run_many_commands in Hrun. rewrite Z.sub_0_r in Hrun.
  rewrite <- Hrun. f_equal. by rewrite <- Hev, store_eta.
Qed.

End ExecuteManyFacts.

Lemma execute_many_atomic_witness :
  (@execute_many Reference.libs
     (Insert "jobs" ["id"; "title"; "company"; "created_at"; "updated_at"])
     two_jobs store_with_job).1
  = Raise (DatabaseError "Database error: UNIQUE constraint failed: jobs.id") ∧
  data (@execute_many Reference.libs
          (Insert "jobs" ["id"; "title"; "company"; "created_at"; "updated_at"])
          two_jobs store_with_job).2
  = data store_with_job.
Proof.
  split; [vm_compute; reflexivity |].
  apply (proj1 (@execute_many_atomic Reference.libs
                  (Insert "jobs" ["id"; "title"; "company"; "created_at"; "updated_at"])
                  two_jobs store_with_job)
           (DatabaseError "Database error: UNIQUE constraint failed: jobs.id")).
  vm_compute. reflexivity.
Defined.

Lemma execute_many_as_commands_witness :
  @run_commands Reference.libs (DeleteById "jobs") [[PStr "j1"]; [PStr "j1"]]
    store_with_job
  = (Ok 1, (@execute_many Reference.libs (DeleteById "jobs")
              [[PStr "j1"]; [PStr "j1"]] store_with_job).2).
Proof.
  apply (@execute_many_as_commands Reference.libs (DeleteById "jobs")
           [[PStr "j1"]; [PStr "j1"]] store_with_job).
  - reflexivity.
  - vm_compute. reflexivity.
Defined.

(** ** Directories of products *)

Section HideawayFacts.
Variable lower : string → string.

(** X14.  Two products have the same directory name exactly when their
    names are the same in lower case, or are both one of [cv-studio]
    and [cvstudio]; products with the same directory name have the same
    data directory and, for [VaultDatabase], the same database file. *)
Theorem products_share_a_directory (a b : string) :
  (dir_name lower a = dir_name lower b ↔
   lower a = lower b ∨
   ((lower a = "cv-studio" ∨ lower a = "cvstudio") ∧
    (lower b = "cv-studio" ∨ lower b = "cvstudio"))) ∧
  ∀ (path : Type) (home : path) (join : path → string → path) (db_name : string),
    dir_name lower a = dir_name lower b →
    get_data_dir lower path home join a = get_data_dir lower path home join b ∧
    db_path lower path home join a db_name = db_path lower path home join b db_name.
Proof.
  split.
  - unfold dir_name, VALID_PRODUCTS. cbn [assoc].
    generalize (lower a) (lower b). intros x y.
    repeat (match goal with
            | |- context [String.eqb ?k x] =>
              destruct (String.eqb_spec k x); [subst x |]
            end);
    repeat (match goal with
            | |- context [String.eqb ?k y] =>
              destruct (String.eqb_spec k y); [subst y |]
            end);
    cbn [default]; split; intros Hxy;
    try (left; reflexivity);
    try (right; split; [first [by left | by right] | first [by left | by right]]);
    try (by left); try done; try (by subst);
    try (destruct Hxy as [Hxy | [[? | ?] [? | ?]]]; by subst).
  - intros path home join db_name Hd. unfold db_path, get_data_dir.
    by rewrite Hd.
Qed.

End HideawayFacts.

(** ** The timestamps of a [BaseRecord] *)

Section BaseRecordFacts.

(** X15.  After [__post_init__], for a reading of the clock that is not
    empty, neither timestamp is empty or [None]; a timestamp that was
    given is kept; an [updated_at] that was not given is the
    [created_at] of the record, also when that was just read from the
    clock; the identifier is untouched; and running it again, at any
    time, changes nothing. *)
Theorem post_init_fills_timestamps (now later : string) (r : BaseRecord.t) :
  now ≠ "" →
  let r' := BaseRecord.__post_init__ now r in
  truthy (BaseRecord.created_at r') = true ∧
  truthy (BaseRecord.updated_at r') = true ∧
  BaseRecord.id r' = BaseRecord.id r ∧
  (truthy (BaseRecord.created_at r) = true →
   BaseRecord.created_at r' = BaseRecord.created_at r) ∧
  (truthy (BaseRecord.updated_at r) = true →
   BaseRecord.updated_at r' = BaseRecord.updated_at r) ∧
  (truthy (BaseRecord.updated_at r) = false →
   BaseRecord.updated_at r' = BaseRecord.created_at r') ∧
  BaseRecord.__post_init__ later r' = r'.
Proof.
  intros Hnow. destruct r as [i c u]. unfold BaseRecord.__post_init__.
  cbn [BaseRecord.id BaseRecord.created_at BaseRecord.updated_at].
  assert (truthy (PStr now) = true) as Ht.
  { cbn [truthy]. by destruct (String.eqb_spec now "") as [->|_]. }
  destruct (truthy c) eqn:Hc; destruct (truthy u) eqn:Hu;
    cbn [negb BaseRecord.id BaseRecord.created_at BaseRecord.updated_at];
    rewrite ?Hc, ?Hu, ?Ht;
    cbn [negb BaseRecord.id BaseRecord.created_at BaseRecord.updated_at];
    rewrite ?Hc, ?Hu, ?Ht; cbn [negb]; repeat split; try done;
    cbn [BaseRecord.id BaseRecord.created_at BaseRecord.updated_at];
    rewrite ?Hc, ?Hu, ?Ht; cbn [negb];
    cbn [BaseRecord.id BaseRecord.created_at BaseRecord.updated_at];
    rewrite ?Hc, ?Hu, ?Ht; done.
Qed.

End BaseRecordFacts.

Lemma post_init_fills_timestamps_witness :
  BaseRecord.__post_init__ "2024-01-01T10:00:00"
    (BaseRecord.Make (PStr "r1") (PStr "") PNone)
  = BaseRecord.Make (PStr "r1") (PStr "2024-01-01T10:00:00")
      (PStr "2024-01-01T10:00:00") ∧
  BaseRecord.__post_init__ "2024-06-01T10:00:00"
    (BaseRecord.__post_init__ "2024-01-01T10:00:00"
       (BaseRecord.Make (PStr "r1") (PStr "") PNone))
  = BaseRecord.__post_init__ "2024-01-01T10:00:00"
      (BaseRecord.Make (PStr "r1") (PStr "") PNone).
Proof.
  split; [reflexivity |].
  apply (post_init_fills_timestamps "2024-01-01T10:00:00" "2024-06-01T10:00:00"
           (BaseRecord.Make (PStr "r1") (PStr "") PNone)).
  discriminate.
Defined.

(** ** Listing after a creation *)

Section Listing.
Context `{Libs}.

Lemma created_row_encoded (e : entity) (uuid4 now : string) (d : pydict)
  (ts : string) :
  valid_fields e d → encoded_lists e (created_row e uuid4 now d ts).
Proof.
  intros Hv k Hk. destruct (list_field_valid e d k Hv Hk) as [l Hl].
  exists (SText (json_dumps (PList (PStr <$> l)))), l.
  split; [by rewrite (list_field_stored e _ _ _ _ k Hk), Hl | by left].
Qed.

(** X16.  After [create], [get_all] returns one record more than the
    table had rows: a record for each row that was there, each as
    [get_all] reads it, and a record that carries the new identifier.
    (The list columns of the rows that were there hold what the store
    writes there.) *)
Theorem get_all_after_create (e : entity) (uuid4 now : string) (d : pydict)
  (st : store) (rows : list row) :
  events st = [] → data st !! table_of e = Some rows →
  fresh_id uuid4 rows → valid_fields e d → Forall (encoded_lists e) rows →
  let st' := (create e uuid4 now d st).2 in
  ∃ recs,
    get_all e st' = (Ok recs, st') ∧
    length recs = S (length rows) ∧
    (∃ rec, rec ∈ recs ∧ rec !! "id" = Some (PStr uuid4)) ∧
    (∀ r, r ∈ rows → ∃ rec, rec ∈ recs ∧ decoded e r rec).
Proof.
  intros Hev Hr Hf Hv Henc.
  destruct (create_stores e uuid4 now d st rows Hev Hr Hf Hv) as [Hc _].
  cbv zeta in Hc. rewrite Hc. cbn [snd].
  set (r := created_row e uuid4 now d (current_timestamp st)).
  set (all := (rows ++ [r])%list).
  set (sorted := order_by (order_of e).1 (order_of e).2 all).
  assert (Hp : Permutation sorted all) by apply order_by_permutation.
  assert (Hall : Forall (encoded_lists e) all).
  { apply Forall_app. split; [done |]. constructor; [|constructor].
    by apply created_row_encoded. }
  assert (Hs : Forall (encoded_lists e) sorted)
    by (eapply Permutation_Forall; [symmetry; exact Hp | exact Hall]).
  destruct (traverse_decode e sorted Hs) as (recs & Ht & Hdec).
  exists recs.
  rewrite (get_all_healthy e _ all) by (done || apply lookup_insert_eq).
  fold sorted. rewrite Ht. split; [done |].
  assert (Hrec : ∀ x, x ∈ all → ∃ rec, rec ∈ recs ∧ decoded e x rec).
  { intros x Hx. rewrite <- Hp in Hx. apply list_elem_of_lookup in Hx as [i Hi].
    destruct (Forall2_lookup_l _ _ _ _ _ Hdec Hi) as (rec & Hri & Hd).
    exists rec. split; [|done]. apply list_elem_of_lookup. by exists i. }
  split; [|split].
  - rewrite <- (Forall2_length _ _ _ Hdec), (Permutation_length Hp).
    unfold all. rewrite length_app. cbn. lia.
  - destruct (Hrec r) as (rec & Hin & Hd & _).
    { unfold all. apply elem_of_app. right. apply list_elem_of_here. }
    exists rec. split; [done |].
    rewrite Hd by (destruct e; cbn [list_fields]; not_in_list).
    unfold r. by rewrite created_row_id.
  - intros x Hx. apply Hrec. unfold all. apply elem_of_app. by left.
Qed.

End Listing.

Lemma get_all_after_create_witness :
  ∃ recs,
    @get_all Reference.libs Job
      (@create Reference.libs Job "j2" "2024-03-01T10:00:00"
         (<["title" := PStr "Analyst"]> ∅) fresh_store).2
    = (Ok recs,
       (@create Reference.libs Job "j2" "2024-03-01T10:00:00"
          (<["title" := PStr "Analyst"]> ∅) fresh_store).2) ∧
    length recs = 1%nat ∧
    (∃ rec, rec ∈ recs ∧ rec !! "id" = Some (PStr "j2")) ∧
    (∀ r, r ∈ [] → ∃ rec, rec ∈ recs ∧ @decoded Reference.libs Job r rec).
Proof.
  apply (@get_all_after_create Reference.libs Job "j2" "2024-03-01T10:00:00"
           (<["title" := PStr "Analyst"]> ∅) fresh_store []).
  - reflexivity.
  - reflexivity.
  - constructor.
  - apply valid_fields_insert; [reflexivity | apply valid_fields_empty].
  - constructor.
Defined.
